(** * Task Pulse: the task store, the message store, the client reducer and
    the speech-to-text proxy, embedded in Rocq.

    The development follows the TypeScript sources:
    - [Js]      : the pieces of the JavaScript string API the code relies on
                  ([trim], [slice(0, n)], truthiness of strings), and the
                  subtraction of numbers;
    - [Convex]  : the database context ([ctx.db]) as a state-and-error monad,
                  and the mutations of [convex/tasks.ts] and
                  [convex/messages.ts];
    - [Migrations] : the status migration of the backend;
    - [Todo]    : the pure client reducer of [src/domain/todo.ts];
    - [Stt]     : the request handler of the speech-to-text proxy;
    - [Storage] : the local storage adapter of the client;
    - [I18n]    : the language detection of the client.  *)

From Stdlib Require Import ZArith NArith List Ascii String Lia DecimalString.
From stdpp Require Import base option list list_numbers gmap fin_maps.

Set Default Proof Using "Type".
Local Open Scope Z_scope.

(* ===================================================================== *)
(** ** JavaScript strings and numbers *)
(* ===================================================================== *)

Module Js.

(** A JavaScript string is a sequence of UTF-16 code units. *)
Abbreviation jsstring := (list N).

(** Source literals are written as Rocq strings (UTF-8 bytes) and decoded
    to code units; characters outside the BMP become a surrogate pair. *)
Definition cont (b : N) : N := N.land b 63.

Fixpoint utf16_of_utf8 (bs : list N) : jsstring :=
  match bs with
  | [] => []
  | b0 :: rest =>
      if (b0 <? 128)%N then b0 :: utf16_of_utf8 rest
      else if (b0 <? 224)%N then
        match rest with
        | b1 :: rest' =>
            (N.shiftl (N.land b0 31) 6 + cont b1)%N :: utf16_of_utf8 rest'
        | _ => [b0]
        end
      else if (b0 <? 240)%N then
        match rest with
        | b1 :: b2 :: rest' =>
            (N.shiftl (N.land b0 15) 12 + N.shiftl (cont b1) 6 + cont b2)%N
              :: utf16_of_utf8 rest'
        | _ => [b0]
        end
      else
        match rest with
        | b1 :: b2 :: b3 :: rest' =>
            let cp := (N.shiftl (N.land b0 7) 18 + N.shiftl (cont b1) 12
                       + N.shiftl (cont b2) 6 + cont b3)%N in
            let v := (cp - 65536)%N in
            (55296 + N.shiftr v 10)%N :: (56320 + N.land v 1023)%N
              :: utf16_of_utf8 rest'
        | _ => [b0]
        end
  end.

Definition lit (s : string) : jsstring :=
  utf16_of_utf8 (map N_of_ascii (list_ascii_of_string s)).

(** [WhiteSpace] and [LineTerminator] code units, the characters removed by
    [String.prototype.trim]. *)
Definition is_space (c : N) : bool :=
  ((9 <=? c) && (c <=? 13) || (c =? 32) || (c =? 160) || (c =? 5760)
   || (8192 <=? c) && (c <=? 8202) || (c =? 8232) || (c =? 8233)
   || (c =? 8239) || (c =? 8287) || (c =? 12288) || (c =? 65279))%N.

Fixpoint trimStart (s : jsstring) : jsstring :=
  match s with
  | c :: s' => if is_space c then trimStart s' else s
  | [] => []
  end.

Definition trimEnd (s : jsstring) : jsstring := rev (trimStart (rev s)).

Definition trim (s : jsstring) : jsstring := trimEnd (trimStart s).

(** [s.slice(0, n)] for a non-negative [n]. *)
Definition slice0 (n : nat) (s : jsstring) : jsstring := take n s.

(** Truthiness of a string: every string but the empty one. *)
Definition truthy (s : jsstring) : bool :=
  match s with [] => false | _ => true end.

Definition eqb (s t : jsstring) : bool := bool_decide (s = t).

(** [String(n)] for an integer [n]. *)
Definition of_number (n : Z) : jsstring :=
  lit (NilZero.string_of_int (Z.to_int n)).

(** [hay.includes(needle)] *)
Fixpoint includes (needle hay : jsstring) : bool :=
  bool_decide (needle `prefix_of` hay)
  || match hay with
     | [] => false
     | _ :: hay' => includes needle hay'
     end.

(** *** Numbers

    A JavaScript number is a double.  The numbers of this development are
    the finite doubles with an integer value, kept as that value in [Z]: an
    order, an index, a time in milliseconds.  Every integer up to 2^53 in
    magnitude is such a number; above, only one integer in 2, then in 4, 8
    and so on is.  The model has no fraction, no infinity and no NaN. *)

(** The double nearest to an integer, a tie going to the even significand:
    above 2^53 the integer is cut to its 53 leading bits [q], and [r] is
    what was cut off. *)
Definition round_number (z : Z) : Z :=
  let a := Z.abs z in
  if a <=? 2 ^ 53 then z
  else
    let e := Z.log2 a - 52 in
    let q := a / 2 ^ e in
    let r := a mod 2 ^ e in
    let half := 2 ^ (e - 1) in
    let q' := if r <? half then q
              else if half <? r then q + 1
              else if Z.even q then q else q + 1 in
    Z.sgn z * (q' * 2 ^ e).

(** [a - b]: the exact difference, rounded to a double. *)
Definition number_sub (a b : Z) : Z := round_number (a - b).

(** [Number.isSafeInteger(z)] *)
Definition is_safe_integer (z : Z) : Prop :=
  - (2 ^ 53 - 1) ≤ z ≤ 2 ^ 53 - 1.

#[global] Instance is_safe_integer_dec z : Decision (is_safe_integer z).
Proof. unfold is_safe_integer. apply _. Defined.

(** A string that does not start with white space. *)
Definition no_lead (s : jsstring) : Prop :=
  match s with c :: _ => is_space c = false | [] => True end.

End Js.

Import Js.

(* ===================================================================== *)
(** ** The Convex backend: schema, database context, mutations *)
(* ===================================================================== *)

Module Convex.

(** *** Schema *)

Inductive TaskStatus := Backlog | InProgress | Done.

(** [LegacyTaskStatus = TaskStatus | "active" | "completed" | "in-progress"] *)
Inductive LegacyTaskStatus :=
  | Canon (s : TaskStatus)
  | Active
  | Completed
  | InDashProgress.

#[global] Instance TaskStatus_eq_dec : EqDecision TaskStatus.
Proof. solve_decision. Defined.
#[global] Instance LegacyTaskStatus_eq_dec : EqDecision LegacyTaskStatus.
Proof. solve_decision. Defined.

(** Document ids are strings at run time ([Id<"tasks">] is a branded
    string, [toString] is the identity).  The [v.id] validator only admits
    ids the database has handed out, which are never empty. *)
Abbreviation Id := (list N).

Definition valid_id (i : Id) : Prop := i ≠ [].

Record Task := mkTask {
  title : jsstring;
  status : LegacyTaskStatus;
  description : jsstring;
  order : Z;
  createdAt : Z;
  updatedAt : Z
}.

Record Message := mkMessage {
  m_taskId : jsstring;
  m_text : jsstring;
  m_author : jsstring;
  m_createdAt : Z
}.

Inductive EventType :=
  | task_created
  | task_status_changed
  | task_description_updated
  | task_reordered
  | message_sent.

Record Payload := mkPayload {
  p_from : option TaskStatus;
  p_to : option TaskStatus;
  p_textPreview : option jsstring;
  p_fromIndex : option Z;
  p_toIndex : option Z
}.

Definition payload_empty : Payload := mkPayload None None None None None.
Definition payload_status (f t : TaskStatus) : Payload :=
  mkPayload (Some f) (Some t) None None None.
Definition payload_preview (s : jsstring) : Payload :=
  mkPayload None None (Some s) None None.
Definition payload_index (f t : Z) : Payload :=
  mkPayload None None None (Some f) (Some t).

Record TaskEvent := mkEvent {
  e_taskId : jsstring;
  e_type : EventType;
  e_actor : jsstring;
  e_payload : Payload;
  e_createdAt : Z
}.

Record AppState := mkAppState {
  a_key : jsstring;
  a_value : bool;
  a_createdAt : Z;
  a_updatedAt : Z
}.

#[global] Instance EventType_eq_dec : EqDecision EventType.
Proof. solve_decision. Defined.
#[global] Instance Task_eq_dec : EqDecision Task.
Proof. solve_decision. Defined.
#[global] Instance Payload_eq_dec : EqDecision Payload.
Proof. solve_decision. Defined.
#[global] Instance TaskEvent_eq_dec : EqDecision TaskEvent.
Proof. solve_decision. Defined.

(** *** The database

    [tasks] is keyed by document id.  The other tables are kept in creation
    order, which is the order [collect()] returns and the order in which
    events were recorded. *)
Record Db := mkDb {
  tasks : gmap Id Task;
  messages : list (Id * Message);
  task_events : list (Id * TaskEvent);
  app_state : list (Id * AppState)
}.

Definition db_empty : Db := mkDb ∅ [] [] [].

Definition db_ids (d : Db) : list Id :=
  (map_to_list (tasks d)).*1 ++ (messages d).*1 ++ (task_events d).*1
    ++ (app_state d).*1.

(** The id given to the next inserted document: longer than every id in
    use, hence fresh, and never empty. *)
Definition new_id (d : Db) : Id :=
  replicate (S (max_list (length <$> db_ids d))) 107%N.

(** *** The mutation context

    A mutation runs as one transaction: it either returns a value and a new
    database, or throws, in which case nothing is committed ([None]).  The
    journal lists the writes issued through [ctx.db], oldest first. *)
Inductive Table := TTasks | TMessages | TTaskEvents | TAppState.

Inductive Write :=
  | WInsert (t : Table) (i : Id)
  | WPatch (t : Table) (i : Id)
  | WDelete (t : Table) (i : Id).

#[global] Instance Table_eq_dec : EqDecision Table.
Proof. solve_decision. Defined.
#[global] Instance Write_eq_dec : EqDecision Write.
Proof. solve_decision. Defined.

Record Ctx := mkCtx { db : Db; journal : list Write }.

Definition Mutation (A : Type) : Type := Ctx → option (A * Ctx).

Definition ret {A} (a : A) : Mutation A := λ c, Some (a, c).

Definition bind {A B} (m : Mutation A) (k : A → Mutation B) : Mutation B :=
  λ c, match m c with
       | Some (a, c') => k a c'
       | None => None
       end.

Definition throw {A} : Mutation A := λ _, None.

Declare Scope mutation_scope.
Delimit Scope mutation_scope with mutation.
Notation "'let!' x ':=' m 'in' k" := (bind m (λ x, k))
  (at level 10, x name, m at level 100, k at level 200) : mutation_scope.
Notation "m ';;' k" := (bind m (λ _, k))
  (at level 100, k at level 200, right associativity) : mutation_scope.
Local Open Scope mutation_scope.

Definition get_db : Mutation Db := λ c, Some (db c, c).

Definition put_db (w : Write) (d : Db) : Mutation unit :=
  λ c, Some (tt, mkCtx d (journal c ++ [w])).

(** [for (const x of xs) { body }] *)
Fixpoint for_of {A} (xs : list A) (body : A → Mutation unit) : Mutation unit :=
  match xs with
  | [] => ret tt
  | x :: xs' => body x;; for_of xs' body
  end.

(** [for (let index = i; index < i + xs.length; index += 1) { body }] *)
Fixpoint for_index {A} (i : Z) (xs : list A) (body : Z → A → Mutation unit)
  : Mutation unit :=
  match xs with
  | [] => ret tt
  | x :: xs' => body i x;; for_index (i + 1) xs' body
  end.

(** A mutation run against a database: the returned value, the committed
    database and the writes, or [None] when the handler threw. *)
Definition run {A} (m : Mutation A) (d : Db) : option (A * Db * list Write) :=
  match m (mkCtx d []) with
  | Some (a, c) => Some (a, db c, journal c)
  | None => None
  end.

(** *** [ctx.db] *)

Definition set_tasks (d : Db) (t : gmap Id Task) : Db :=
  mkDb t (messages d) (task_events d) (app_state d).
Definition set_messages (d : Db) (m : list (Id * Message)) : Db :=
  mkDb (tasks d) m (task_events d) (app_state d).
Definition set_task_events (d : Db) (e : list (Id * TaskEvent)) : Db :=
  mkDb (tasks d) (messages d) e (app_state d).
Definition set_app_state (d : Db) (a : list (Id * AppState)) : Db :=
  mkDb (tasks d) (messages d) (task_events d) a.

(** [ctx.db.get(id)] *)
Definition db_get (i : Id) : Mutation (option Task) :=
  let! d := get_db in ret (tasks d !! i).

(** The partial document handed to [ctx.db.patch] on a task. *)
Record TaskPatch := mkTaskPatch {
  tp_status : option TaskStatus;
  tp_order : option Z;
  tp_description : option jsstring;
  tp_updatedAt : option Z
}.

Definition apply_patch (p : TaskPatch) (t : Task) : Task :=
  mkTask (title t)
         (from_option Canon (status t) (tp_status p))
         (default (description t) (tp_description p))
         (default (order t) (tp_order p))
         (createdAt t)
         (default (updatedAt t) (tp_updatedAt p)).

(** [ctx.db.patch(id, p)] on the tasks table; throws when no document has
    that id. *)
Definition db_patch (i : Id) (p : TaskPatch) : Mutation unit :=
  let! d := get_db in
  match tasks d !! i with
  | Some t => put_db (WPatch TTasks i) (set_tasks d (<[i := apply_patch p t]> (tasks d)))
  | None => throw
  end.

(** [ctx.db.delete(id)] on the tasks table; throws when no document has
    that id. *)
Definition db_delete (i : Id) : Mutation unit :=
  let! d := get_db in
  match tasks d !! i with
  | Some _ => put_db (WDelete TTasks i) (set_tasks d (delete i (tasks d)))
  | None => throw
  end.

(** [ctx.db.insert(table, doc)] *)
Definition insert_task (t : Task) : Mutation Id :=
  let! d := get_db in
  let i := new_id d in
  put_db (WInsert TTasks i) (set_tasks d (<[i := t]> (tasks d)));; ret i.

Definition insert_message (m : Message) : Mutation Id :=
  let! d := get_db in
  let i := new_id d in
  put_db (WInsert TMessages i) (set_messages d (messages d ++ [(i, m)]));; ret i.

Definition insert_event (e : TaskEvent) : Mutation Id :=
  let! d := get_db in
  let i := new_id d in
  put_db (WInsert TTaskEvents i) (set_task_events d (task_events d ++ [(i, e)]));;
  ret i.

Definition insert_app_state (a : AppState) : Mutation Id :=
  let! d := get_db in
  let i := new_id d in
  put_db (WInsert TAppState i) (set_app_state d (app_state d ++ [(i, a)]));; ret i.

(** *** [convex/tasks.ts]: helpers *)

Definition DEMO_SEED_KEY : jsstring := lit "demo_seeded".

Definition normalizeActor (actor : option jsstring) : jsstring :=
  let trimmed := default [] (trim <$> actor) in
  if Js.eqb trimmed (lit "demo-user") then lit "demo-user" else lit "anonymous".

Definition buildPreview (text : jsstring) : jsstring := slice0 80 text.

Definition nextStatus (s : TaskStatus) : TaskStatus :=
  match s with
  | Backlog => InProgress
  | InProgress => Done
  | Done => Backlog
  end.

Definition normalizeLegacyStatus (s : option LegacyTaskStatus) : TaskStatus :=
  match s with
  | Some Active => Backlog
  | Some Completed => Done
  | Some (Canon Done) => Done
  | Some InDashProgress => InProgress
  | Some (Canon Backlog) => Backlog
  | Some (Canon InProgress) => InProgress
  | None => Backlog
  end.

(** The rows of the [by_status_order] index with the given status: the
    stored status is compared as it is, without normalization. *)
Definition by_status (s : TaskStatus) (m : gmap Id Task) : list Task :=
  filter (λ t, status t = Canon s) (map_to_list m).*2.

(** The smallest of a non-empty list of orders: what [.order("asc").first()]
    reads. *)
Definition min_order (ts : list Task) : option Z :=
  match ts with
  | [] => None
  | t :: ts' => Some (foldr Z.min (order t) (order <$> ts'))
  end.

(** [first.order - 1] is a subtraction of doubles. *)
Definition getNextOrder (s : TaskStatus) : Mutation Z :=
  let! d := get_db in
  match min_order (by_status s (tasks d)) with
  | Some o => ret (number_sub o 1)
  | None => ret 0
  end.

(** *** [convex/tasks.ts]: mutations

    Every handler takes the reading of [Date.now()] as its first argument. *)

Record CreateArgs := mkCreateArgs {
  c_title : jsstring;
  c_description : option jsstring;
  c_status : option LegacyTaskStatus;
  c_order : option Z;
  c_actor : option jsstring
}.

Definition create (now : Z) (args : CreateArgs) : Mutation (option Id) :=
  let title := trim (c_title args) in
  if negb (truthy title) then ret None
  else
    let status := normalizeLegacyStatus (c_status args) in
    let! order := match c_order args with
                  | Some o => ret o
                  | None => getNextOrder status
                  end in
    let! taskId := insert_task
                     (mkTask title (Canon status)
                             (default (lit "") (c_description args))
                             order now now) in
    insert_event (mkEvent taskId task_created (normalizeActor (c_actor args))
                          payload_empty now);;
    ret (Some taskId).

Definition setStatus (now : Z) (id : Id) (target : LegacyTaskStatus)
    (actor : option jsstring) : Mutation (option TaskStatus) :=
  let! task := db_get id in
  match task with
  | None => ret None
  | Some task =>
      let currentStatus := normalizeLegacyStatus (Some (status task)) in
      let targetStatus := normalizeLegacyStatus (Some target) in
      let shouldNormalize := bool_decide (status task ≠ Canon currentStatus) in
      if bool_decide (currentStatus = targetStatus) && negb shouldNormalize
      then ret (Some currentStatus)
      else
        let! order := getNextOrder targetStatus in
        db_patch id (mkTaskPatch (Some targetStatus) (Some order) None (Some now));;
        insert_event (mkEvent id task_status_changed (normalizeActor actor)
                              (payload_status currentStatus targetStatus) now);;
        ret (Some targetStatus)
  end.

Definition cycleStatus (now : Z) (id : Id) (actor : option jsstring)
  : Mutation (option TaskStatus) :=
  let! task := db_get id in
  match task with
  | None => ret None
  | Some task =>
      let currentStatus := normalizeLegacyStatus (Some (status task)) in
      let status := nextStatus currentStatus in
      let! order := getNextOrder status in
      db_patch id (mkTaskPatch (Some status) (Some order) None (Some now));;
      insert_event (mkEvent id task_status_changed (normalizeActor actor)
                            (payload_status currentStatus status) now);;
      ret (Some status)
  end.

Definition remove (id : Id) : Mutation unit := db_delete id.

Definition updateDescription (now : Z) (id : Id) (description : jsstring)
    (actor : option jsstring) : Mutation unit :=
  let! task := db_get id in
  match task with
  | None => ret tt
  | Some task =>
      if Js.eqb (Convex.description task) description then ret tt
      else
        db_patch id (mkTaskPatch None None (Some description) (Some now));;
        insert_event (mkEvent id task_description_updated (normalizeActor actor)
                              (payload_preview (buildPreview (trim description)))
                              now);;
        ret tt
  end.

Record Column := mkColumn {
  col_status : LegacyTaskStatus;
  orderedIds : list Id
}.

Record ReorderArgs := mkReorderArgs {
  columns : list Column;
  movedTaskId : option Id;
  fromStatus : option LegacyTaskStatus;
  toStatus : option LegacyTaskStatus;
  fromIndex : option Z;
  toIndex : option Z;
  r_actor : option jsstring
}.

(** The body of the inner loop of [reorder]. *)
Definition place (now : Z) (normalizedStatus : TaskStatus) (index : Z) (id : Id)
  : Mutation unit :=
  db_patch id (mkTaskPatch (Some normalizedStatus) (Some index) None (Some now)).

Definition rewrite_columns (now : Z) (cols : list Column) : Mutation unit :=
  for_of cols (λ column,
    let normalizedStatus := normalizeLegacyStatus (Some (col_status column)) in
    for_index 0 (orderedIds column) (place now normalizedStatus)).

(** [movedTaskId && typeof fromIndex === "number" && typeof toIndex ===
    "number" && fromIndex !== toIndex] *)
Definition reordered_event (now : Z) (args : ReorderArgs) : option TaskEvent :=
  match movedTaskId args, fromIndex args, toIndex args with
  | Some moved, Some fi, Some ti =>
      if truthy moved && negb (fi =? ti)%Z
      then Some (mkEvent moved task_reordered (normalizeActor (r_actor args))
                         (payload_index fi ti) now)
      else None
  | _, _, _ => None
  end.

(** [movedTaskId && fromStatus && toStatus], then the comparison of the two
    normalized statuses. *)
Definition status_event (now : Z) (args : ReorderArgs) : option TaskEvent :=
  match movedTaskId args, fromStatus args, toStatus args with
  | Some moved, Some fs, Some ts =>
      let normalizedFrom := normalizeLegacyStatus (Some fs) in
      let normalizedTo := normalizeLegacyStatus (Some ts) in
      if truthy moved && bool_decide (normalizedFrom ≠ normalizedTo)
      then Some (mkEvent moved task_status_changed (normalizeActor (r_actor args))
                         (payload_status normalizedFrom normalizedTo) now)
      else None
  | _, _, _ => None
  end.

Definition record_if (e : option TaskEvent) : Mutation unit :=
  match e with
  | Some e => insert_event e;; ret tt
  | None => ret tt
  end.

Definition reorder (now : Z) (args : ReorderArgs) : Mutation unit :=
  rewrite_columns now (columns args);;
  record_if (reordered_event now args);;
  record_if (status_event now args);;
  ret tt.

(** *** [convex/messages.ts] *)

Definition send (now : Z) (taskId text author : jsstring) : Mutation (option Id) :=
  let text := trim text in
  let author := trim author in
  if negb (truthy text) || negb (truthy author) then ret None
  else
    let! messageId := insert_message (mkMessage taskId text author now) in
    insert_event (mkEvent taskId message_sent (normalizeActor (Some author))
                          (payload_preview (buildPreview text)) now);;
    ret (Some messageId).

(** *** [seedDemoData] *)

Inductive DemoLanguage := ru | en | es.

Inductive Author := Alex | Maria.

Definition author_name (a : Author) : jsstring :=
  match a with Alex => lit "Alex" | Maria => lit "Maria" end.

Record SeedMessage := mkSeedMessage {
  sm_text : jsstring;
  sm_offset : Z;
  sm_author : Author
}.

Record SeedTask := mkSeedTask {
  st_title : jsstring;
  st_status : TaskStatus;
  st_order : Z;
  st_description : option jsstring;
  st_createdOffset : Z;
  st_statusFrom : option TaskStatus;
  st_statusOffset : option Z;
  st_descriptionOffset : option Z;
  st_messages : option (list SeedMessage)
}.

Definition seed_en : list SeedTask := [
  mkSeedTask (lit "Plan onboarding checklist") Backlog 0
    (Some (lit "Outline the first-run steps so users reach a task in under 60 seconds."))
    0 None None (Some 6) None;
  mkSeedTask (lit "Define analytics events") Backlog 1 None 4 None None None None;
  mkSeedTask (lit "Refine drag-and-drop feel") InProgress 0
    (Some (lit "Tighten the pickup, keep the card shadow, and avoid layout jitter."))
    12 (Some Backlog) (Some 18) (Some 22)
    (Some [
      mkSeedMessage (lit "The card should keep its original shadow while dragging.") 28 Alex;
      mkSeedMessage (lit "I can ship the motion pass today if we lock the offsets.") 34 Maria ]);
  mkSeedTask (lit "Draft release notes") InProgress 1 None 20 (Some Backlog) (Some 26)
    None None;
  mkSeedTask (lit "QA mobile layout") InProgress 2
    (Some (lit "Verify spacing at 320px and ensure the board stays scrollable."))
    28 (Some Backlog) (Some 33) (Some 38) None;
  mkSeedTask (lit "Set up demo walkthrough") Done 0 None 36 (Some Backlog) (Some 44) None
    (Some [
      mkSeedMessage (lit "Walkthrough is ready with 5 steps and auto-focus highlights.") 52 Alex;
      mkSeedMessage (lit "Added a skip button and reset entry for QA.") 58 Maria ]);
  mkSeedTask (lit "Polish empty state copy") Done 1
    (Some (lit "Make the empty state feel optimistic and action-oriented."))
    42 (Some Backlog) (Some 50) (Some 56) None ].

Definition seed_ru : list SeedTask := [
  mkSeedTask (lit "Составить чек-лист онбординга") Backlog 0
    (Some (lit "Определить первые шаги так, чтобы пользователь создавал задачу за 60 секунд."))
    0 None None (Some 6) None;
  mkSeedTask (lit "Определить события аналитики") Backlog 1 None 4 None None None None;
  mkSeedTask (lit "Улучшить ощущение drag-and-drop") InProgress 0
    (Some (lit "Подтянуть захват, сохранить тень карточки и убрать дрожание."))
    12 (Some Backlog) (Some 18) (Some 22)
    (Some [
      mkSeedMessage (lit "Во время перетаскивания тень карточки должна сохраняться.") 28 Alex;
      mkSeedMessage (lit "Могу сегодня закоммитить анимацию, если зафиксируем смещения.") 34 Maria ]);
  mkSeedTask (lit "Набросать заметки к релизу") InProgress 1 None 20 (Some Backlog)
    (Some 26) None None;
  mkSeedTask (lit "Проверить мобильную верстку") InProgress 2
    (Some (lit "Проверить отступы на 320px и убедиться, что доска скроллится."))
    28 (Some Backlog) (Some 33) (Some 38) None;
  mkSeedTask (lit "Настроить демо-тур") Done 0 None 36 (Some Backlog) (Some 44) None
    (Some [
      mkSeedMessage (lit "Демо-тур готов: 5 шагов и автофокус на акцентах.") 52 Alex;
      mkSeedMessage (lit "Добавила кнопку пропуска и сброс для QA.") 58 Maria ]);
  mkSeedTask (lit "Отполировать текст пустого состояния") Done 1
    (Some (lit "Сделать сообщение дружелюбным и побуждающим к действию."))
    42 (Some Backlog) (Some 50) (Some 56) None ].

Definition seed_es : list SeedTask := [
  mkSeedTask (lit "Planificar checklist de onboarding") Backlog 0
    (Some (lit "Definir los primeros pasos para que el usuario cree una tarea en menos de 60 segundos."))
    0 None None (Some 6) None;
  mkSeedTask (lit "Definir eventos de analitica") Backlog 1 None 4 None None None None;
  mkSeedTask (lit "Mejorar el arrastre y soltado") InProgress 0
    (Some (lit "Ajustar el inicio, mantener la sombra de la tarjeta y evitar saltos de layout."))
    12 (Some Backlog) (Some 18) (Some 22)
    (Some [
      mkSeedMessage (lit "La tarjeta debe conservar su sombra original mientras se arrastra.") 28 Alex;
      mkSeedMessage (lit "Puedo entregar la animacion hoy si fijamos los offsets.") 34 Maria ]);
  mkSeedTask (lit "Redactar notas de version") InProgress 1 None 20 (Some Backlog)
    (Some 26) None None;
  mkSeedTask (lit "QA del layout movil") InProgress 2
    (Some (lit "Verificar espaciado a 320px y que el tablero siga siendo desplazable."))
    28 (Some Backlog) (Some 33) (Some 38) None;
  mkSeedTask (lit "Configurar walkthrough de demo") Done 0 None 36 (Some Backlog)
    (Some 44) None
    (Some [
      mkSeedMessage (lit "El walkthrough esta listo con 5 pasos y autofoco en los destacados.") 52 Alex;
      mkSeedMessage (lit "Agregue un boton de omitir y reinicio para QA.") 58 Maria ]);
  mkSeedTask (lit "Pulir el texto del estado vacio") Done 1
    (Some (lit "Hacer el mensaje del estado vacio optimista y orientado a la accion."))
    42 (Some Backlog) (Some 50) (Some 56) None ].

Definition demoSeedTemplates (l : DemoLanguage) : list SeedTask :=
  match l with en => seed_en | ru => seed_ru | es => seed_es end.

Definition minutes (value : Z) : Z := value * 60 * 1000.

(** [ctx.db.delete] on the tables kept as lists. *)
Definition remove_row {A} (i : Id) (rows : list (Id * A)) : list (Id * A) :=
  filter (λ r, r.1 ≠ i) rows.

Definition delete_message (i : Id) : Mutation unit :=
  let! d := get_db in
  if bool_decide (i ∈ (messages d).*1)
  then put_db (WDelete TMessages i) (set_messages d (remove_row i (messages d)))
  else throw.

Definition delete_event (i : Id) : Mutation unit :=
  let! d := get_db in
  if bool_decide (i ∈ (task_events d).*1)
  then put_db (WDelete TTaskEvents i) (set_task_events d (remove_row i (task_events d)))
  else throw.

(** [ctx.db.patch(id, { value, updatedAt })] on [app_state]. *)
Definition patch_app_state (i : Id) (value : bool) (at_ : Z) : Mutation unit :=
  let! d := get_db in
  if bool_decide (i ∈ (app_state d).*1)
  then put_db (WPatch TAppState i)
         (set_app_state d
            ((λ r, if bool_decide (r.1 = i)
                   then (r.1, mkAppState (a_key r.2) value (a_createdAt r.2) at_)
                   else r) <$> app_state d))
  else throw.

(** [.withIndex("by_key", q => q.eq("key", DEMO_SEED_KEY)).first()] *)
Definition seeded_doc (d : Db) : option (Id * AppState) :=
  snd <$> list_find (λ r, a_key r.2 = DEMO_SEED_KEY) (app_state d).

(** [seededDoc?.value] *)
Definition seeded_flag (d : Db) : bool :=
  from_option (λ r, a_value r.2) false (seeded_doc d).

(** A loop that carries a local variable. *)
Fixpoint for_acc {A S} (xs : list A) (s : S) (body : S → A → Mutation S)
  : Mutation S :=
  match xs with
  | [] => ret s
  | x :: xs' => let! s' := body s x in for_acc xs' s' body
  end.

Definition wipe : Mutation unit :=
  let! d := get_db in
  for_of (map_to_list (tasks d)).*1 db_delete;;
  let! d := get_db in
  for_of (messages d).*1 delete_message;;
  let! d := get_db in
  for_of (task_events d).*1 delete_event.

(** The body of the loop over the demo tasks. *)
Definition seed_task (baseTime : Z) (task : SeedTask) : Mutation unit :=
  let actor := lit "demo-user" in
  let createdAt := baseTime + minutes (st_createdOffset task) in
  let! taskId := insert_task
                   (mkTask (st_title task) (Canon (st_status task))
                           (default (lit "") (st_description task))
                           (st_order task) createdAt createdAt) in
  let updatedAt := createdAt in
  insert_event (mkEvent taskId task_created actor payload_empty createdAt);;
  let! updatedAt :=
    match st_statusFrom task, st_statusOffset task with
    | Some statusFrom, Some statusOffset =>
        let statusAt := baseTime + minutes statusOffset in
        insert_event (mkEvent taskId task_status_changed actor
                              (payload_status statusFrom (st_status task)) statusAt);;
        ret (Z.max updatedAt statusAt)
    | _, _ => ret updatedAt
    end in
  let! updatedAt :=
    match st_description task, st_descriptionOffset task with
    | Some description, Some descriptionOffset =>
        if truthy description then
          let descriptionAt := baseTime + minutes descriptionOffset in
          insert_event (mkEvent taskId task_description_updated actor
                                (payload_preview (buildPreview description))
                                descriptionAt);;
          ret (Z.max updatedAt descriptionAt)
        else ret updatedAt
    | _, _ => ret updatedAt
    end in
  let! updatedAt :=
    match st_messages task with
    | Some msgs =>
        for_acc msgs updatedAt (λ updatedAt message,
          let messageAt := baseTime + minutes (sm_offset message) in
          insert_message (mkMessage taskId (sm_text message)
                                    (author_name (sm_author message)) messageAt);;
          insert_event (mkEvent taskId message_sent actor
                                (payload_preview (buildPreview (sm_text message)))
                                messageAt);;
          ret (Z.max updatedAt messageAt))
    | None => ret updatedAt
    end in
  if bool_decide (updatedAt ≠ createdAt)
  then db_patch taskId (mkTaskPatch None None None (Some updatedAt))
  else ret tt.

Definition seedDemoData (now : Z) (language : DemoLanguage) : Mutation unit :=
  let! d := get_db in
  let seededDoc := seeded_doc d in
  (if seeded_flag d then wipe else ret tt);;
  let baseTime := now - minutes 85 in
  for_of (demoSeedTemplates language) (seed_task baseTime);;
  match seededDoc with
  | Some r => patch_app_state r.1 true now
  | None => insert_app_state (mkAppState DEMO_SEED_KEY true now now);; ret tt
  end.

(** *** Derived notions used to state the properties of [reorder] *)

(** What the patch issued by [place] does to a task. *)
Definition placed (now : Z) (s : TaskStatus) (i : Z) (t : Task) : Task :=
  apply_patch (mkTaskPatch (Some s) (Some i) None (Some now)) t.

Fixpoint indexed (i : Z) (ids : list Id) : list (Z * Id) :=
  match ids with
  | [] => []
  | id :: ids' => (i, id) :: indexed (i + 1) ids'
  end.

(** The patches a list of columns asks for, in the order they are issued. *)
Definition column_patches (c : Column) : list (Id * (TaskStatus * Z)) :=
  (λ p, (p.2, (normalizeLegacyStatus (Some (col_status c)), p.1)))
    <$> indexed 0 (orderedIds c).

Definition all_patches (cols : list Column) : list (Id * (TaskStatus * Z)) :=
  concat (column_patches <$> cols).

(** Every id the columns mention, with repetitions. *)
Definition listed (cols : list Column) : list Id :=
  concat (orderedIds <$> cols).

Definition patch_tasks (now : Z) (ps : list (Id * (TaskStatus * Z)))
    (m : gmap Id Task) : gmap Id Task :=
  foldl (λ m p, alter (placed now p.2.1 p.2.2) p.1 m) m ps.

(** The status column of a task is read through the normalizer. *)
Definition in_column (s : TaskStatus) (t : Task) : Prop :=
  normalizeLegacyStatus (Some (status t)) = s.

#[global] Instance in_column_dec s t : Decision (in_column s t).
Proof. unfold in_column. apply _. Defined.

Definition column (s : TaskStatus) (m : gmap Id Task) : list (Id * Task) :=
  filter (λ p, in_column s p.2) (map_to_list m).

Definition column_orders (s : TaskStatus) (d : Db) : list Z :=
  (λ p, order p.2) <$> column s (tasks d).

(** *** Derived notions used to state the other properties *)

(** [o] puts a task in front of the column stored under status [s]: it is
    one less than the smallest order of the column, and 0 when the column
    is empty. *)
Definition prepend_order (s : TaskStatus) (m : gmap Id Task) (o : Z) : Prop :=
  (∀ j u, m !! j = Some u → status u = Canon s → o < order u)
  ∧ ((∃ j u, m !! j = Some u ∧ status u = Canon s ∧ order u = o + 1)
     ∨ ((∀ j u, m !! j = Some u → status u ≠ Canon s) ∧ o = 0)).

(** [o] is what the prepend rule computes for the column stored under
    status [s]: the smallest order of the column less one, as a number, and
    0 when the column is empty. *)
Definition next_order (s : TaskStatus) (m : gmap Id Task) (o : Z) : Prop :=
  (∃ j u, m !! j = Some u ∧ status u = Canon s
          ∧ (∀ k v, m !! k = Some v → status v = Canon s → order u ≤ order v)
          ∧ o = number_sub (order u) 1)
  ∨ ((∀ j u, m !! j = Some u → status u ≠ Canon s) ∧ o = 0).

(** The orders stored under status [s] are safe integers. *)
Definition safe_column (s : TaskStatus) (m : gmap Id Task) : Prop :=
  map_Forall (λ _ u, status u = Canon s → is_safe_integer (order u)) m.

(** The actor written on an event: the allow-listed name when the trimmed
    input is that name, and the anonymous one otherwise. *)
Definition allow_listed (a : option jsstring) : jsstring :=
  if decide (trim (default [] a) = lit "demo-user")
  then lit "demo-user" else lit "anonymous".

(** The events [new] were recorded between [d] and [d'], in that order. *)
Definition records (d d' : Db) (new : list TaskEvent) : Prop :=
  (task_events d').*2 = (task_events d).*2 ++ new.

(** A write that removes a document. *)
Definition is_delete (w : Write) : Prop :=
  match w with WDelete _ _ => True | _ => False end.

(** The messages and the number of events one demo task comes with. *)
Definition seed_messages (task : SeedTask) : list SeedMessage :=
  default [] (st_messages task).

Definition seed_event_count (task : SeedTask) : nat :=
  (1 + (match st_statusFrom task, st_statusOffset task with
        | Some _, Some _ => 1 | _, _ => 0 end)
     + (match st_description task, st_descriptionOffset task with
        | Some s, Some _ => if truthy s then 1 else 0 | _, _ => 0 end)
     + length (seed_messages task))%nat.

(** Steps that only append to the message and event tables. *)
Definition appended (c c' : Ctx) (nm ne : nat) : Prop :=
  tasks (db c') = tasks (db c)
  ∧ app_state (db c') = app_state (db c)
  ∧ (∃ ms, messages (db c') = messages (db c) ++ ms ∧ length ms = nm)
  ∧ (∃ es, task_events (db c') = task_events (db c) ++ es ∧ length es = ne)
  ∧ (∃ w, journal c' = journal c ++ w ∧ Forall (λ x, ¬ is_delete x) w).

(** Total correctness of a mutation: from a context satisfying [P] it
    returns, in a context satisfying [Q]. *)
Definition total {A} (P : Ctx → Prop) (m : Mutation A) (Q : A → Ctx → Prop) : Prop :=
  ∀ c, P c → ∃ a c', m c = Some (a, c') ∧ Q a c'.

(** One demo task: a fresh task row, and rows appended to the messages and
    the events. *)
Definition seeded_one (task : SeedTask) (c c' : Ctx) : Prop :=
  (∃ t', tasks (db c') = <[new_id (db c) := t']> (tasks (db c)))
  ∧ app_state (db c') = app_state (db c)
  ∧ (∃ ms, messages (db c') = messages (db c) ++ ms
           ∧ length ms = length (seed_messages task))
  ∧ (∃ es, task_events (db c') = task_events (db c) ++ es
           ∧ length es = seed_event_count task)
  ∧ (∃ w, journal c' = journal c ++ w ∧ Forall (λ x, ¬ is_delete x) w).

(** A list of demo tasks: the tasks that were there are kept, and rows are
    appended; no write is a delete. *)
Definition seeded (ts : list SeedTask) (c c' : Ctx) : Prop :=
  (∀ i t, tasks (db c) !! i = Some t → tasks (db c') !! i = Some t)
  ∧ size (tasks (db c')) = (size (tasks (db c)) + length ts)%nat
  ∧ app_state (db c') = app_state (db c)
  ∧ (∃ ms, messages (db c') = messages (db c) ++ ms
           ∧ length ms = sum_list (length ∘ seed_messages <$> ts))
  ∧ (∃ es, task_events (db c') = task_events (db c) ++ es
           ∧ length es = sum_list (seed_event_count <$> ts))
  ∧ (∃ w, journal c' = journal c ++ w ∧ Forall (λ x, ¬ is_delete x) w).

(** *** Sample data *)

(** A board with one task in each column. *)
Definition id_A : Id := lit "A".
Definition id_B : Id := lit "B".
Definition id_C : Id := lit "C".
Definition task_A : Task := mkTask (lit "Write") (Canon Backlog) (lit "") 0 1 1.
Definition task_B : Task := mkTask (lit "Review") (Canon InProgress) (lit "notes") 0 2 2.
Definition task_C : Task := mkTask (lit "Ship") (Canon Done) (lit "") 0 3 3.
Definition board : Db :=
  mkDb (<[id_A := task_A]> (<[id_B := task_B]> (<[id_C := task_C]> ∅))) [] [] [].

(** A board whose done column starts at the order -2^53. *)
Definition limit_board : Db :=
  mkDb (<[id_A := task_A]>
          (<[id_C := mkTask (lit "Ship") (Canon Done) (lit "")
                            (-9007199254740992) 3 3]> ∅))
       [] [] [].

(** [reorder] arguments without the optional metadata. *)
Definition no_meta (cols : list Column) : ReorderArgs :=
  mkReorderArgs cols None None None None None None.

(** A database with one row in each table and the seed flag at false. *)
Definition unseeded_board : Db :=
  mkDb (<[lit "A" := mkTask (lit "Write") (Canon Backlog) (lit "") 0 1 1]> ∅)
       [(lit "m1", mkMessage (lit "A") (lit "hi") (lit "Bob") 2)]
       [(lit "e1", mkEvent (lit "A") task_created (lit "anonymous") payload_empty 1)]
       [(lit "s1", mkAppState DEMO_SEED_KEY false 1 1)].

(** A board with a task stored under the legacy status "active". *)
Definition legacy_board : Db :=
  mkDb (<[id_A := mkTask (lit "Write") Active (lit "") 4 1 1]>
          (<[id_B := mkTask (lit "Review") (Canon Backlog) (lit "notes") 2 2 2]> ∅))
       [] [] [].

(** *** The rows one demo task comes with *)

(** The status change and the description update of a demo task, with
    their times, when the template has them. *)
Definition seed_status_at (baseTime : Z) (task : SeedTask)
  : option (TaskStatus * Z) :=
  match st_statusFrom task, st_statusOffset task with
  | Some statusFrom, Some statusOffset =>
      Some (statusFrom, baseTime + minutes statusOffset)
  | _, _ => None
  end.

Definition seed_description_at (baseTime : Z) (task : SeedTask)
  : option (jsstring * Z) :=
  match st_description task, st_descriptionOffset task with
  | Some description, Some descriptionOffset =>
      if truthy description
      then Some (description, baseTime + minutes descriptionOffset)
      else None
  | _, _ => None
  end.

(** The times [updatedAt] is raised to, in the order of the raises. *)
Definition seed_times (baseTime : Z) (task : SeedTask) : list Z :=
  option_list (snd <$> seed_status_at baseTime task)
  ++ option_list (snd <$> seed_description_at baseTime task)
  ++ ((λ message, baseTime + minutes (sm_offset message)) <$> seed_messages task).

(** The task row: created at its offset, updated at the latest of its
    events. *)
Definition seed_row (baseTime : Z) (task : SeedTask) : Task :=
  let createdAt := baseTime + minutes (st_createdOffset task) in
  mkTask (st_title task) (Canon (st_status task))
         (default (lit "") (st_description task)) (st_order task)
         createdAt (foldl Z.max createdAt (seed_times baseTime task)).

Definition seed_message_rows (baseTime : Z) (taskId : Id) (task : SeedTask)
  : list Message :=
  (λ message, mkMessage taskId (sm_text message)
                        (author_name (sm_author message))
                        (baseTime + minutes (sm_offset message)))
    <$> seed_messages task.

Definition seed_event_rows (baseTime : Z) (taskId : Id) (task : SeedTask)
  : list TaskEvent :=
  let actor := lit "demo-user" in
  [mkEvent taskId task_created actor payload_empty
           (baseTime + minutes (st_createdOffset task))]
  ++ match seed_status_at baseTime task with
     | Some (statusFrom, statusAt) =>
         [mkEvent taskId task_status_changed actor
                  (payload_status statusFrom (st_status task)) statusAt]
     | None => []
     end
  ++ match seed_description_at baseTime task with
     | Some (description, descriptionAt) =>
         [mkEvent taskId task_description_updated actor
                  (payload_preview (buildPreview description)) descriptionAt]
     | None => []
     end
  ++ ((λ message, mkEvent taskId message_sent actor
                          (payload_preview (buildPreview (sm_text message)))
                          (baseTime + minutes (sm_offset message)))
        <$> seed_messages task).

(** Between [c0] and [c] the tasks and [app_state] are as they were, and
    the messages [ms] and the events [es] were appended. *)
Definition grown (c0 c : Ctx) (ms : list Message) (es : list TaskEvent) : Prop :=
  tasks (db c) = tasks (db c0)
  ∧ app_state (db c) = app_state (db c0)
  ∧ (messages (db c)).*2 = (messages (db c0)).*2 ++ ms
  ∧ (task_events (db c)).*2 = (task_events (db c0)).*2 ++ es.

(** *** Further notions used to state properties of the mutations *)

(** A write that records an event. *)
Definition is_event_insert (w : Write) : Prop :=
  match w with WInsert TTaskEvents _ => True | _ => False end.

(** The ids handed out so far are pairwise distinct, across the tables. *)
Definition distinct_ids (d : Db) : Prop := NoDup (db_ids d).

(** A property of the database that no step of a mutation breaks. *)
Definition keeps {A} (I : Db → Prop) (m : Mutation A) : Prop :=
  ∀ c a c', I (db c) → m c = Some (a, c') → I (db c').

(** [I] holds of whatever a run of [m] from [d] commits. *)
Definition stays {A} (I : Db → Prop) (d : Db) (m : Mutation A) : Prop :=
  ∀ r d' w, run m d = Some (r, d', w) → I d'.

(** Properties closed under the writes [ctx.db] offers.  A task is only
    ever inserted under a status of the strict schema. *)
Record closed (I : Db → Prop) : Prop := mkClosed {
  closed_patch d i t p :
    I d → tasks d !! i = Some t →
    I (set_tasks d (<[i := apply_patch p t]> (tasks d)));
  closed_delete d i : I d → I (set_tasks d (delete i (tasks d)));
  closed_insert_task d t s :
    I d → status t = Canon s → I (set_tasks d (<[new_id d := t]> (tasks d)));
  closed_insert_message d m :
    I d → I (set_messages d (messages d ++ [(new_id d, m)]));
  closed_insert_event d e :
    I d → I (set_task_events d (task_events d ++ [(new_id d, e)]));
  closed_insert_app_state d a :
    I d → I (set_app_state d (app_state d ++ [(new_id d, a)]));
  closed_delete_message d i :
    I d → I (set_messages d (remove_row i (messages d)));
  closed_delete_event d i :
    I d → I (set_task_events d (remove_row i (task_events d)));
  closed_patch_app_state d i value at_ :
    I d →
    I (set_app_state d
         ((λ r, if bool_decide (r.1 = i)
                then (r.1, mkAppState (a_key r.2) value (a_createdAt r.2) at_)
                else r) <$> app_state d))
}.

(** A title with white space around it, a legacy status and no order. *)
Definition buy_milk : CreateArgs :=
  mkCreateArgs (lit "  Buy milk ") None (Some Completed) None (Some (lit "demo-user")).

End Convex.

(* ===================================================================== *)
(** ** The status migration of the backend *)
(* ===================================================================== *)

Module Migrations.
Import Convex.
Local Open Scope mutation_scope.

(** The body of the loop of [fixTaskStatuses]: [task] is a row read by
    [collect()] before the loop. *)
Definition fix_status (now : Z) (updatedCount : Z) (task : Id * Task) : Mutation Z :=
  let normalizedStatus := normalizeLegacyStatus (Some (status task.2)) in
  if bool_decide (status task.2 = Canon normalizedStatus) then ret updatedCount
  else
    db_patch task.1 (mkTaskPatch (Some normalizedStatus) None None (Some now));;
    ret (updatedCount + 1).

(** [collect()] lists the tasks in some order; it is that of [map_to_list]
    here, and the properties below do not depend on it. *)
Definition fixTaskStatuses (now : Z) : Mutation Z :=
  let! d := get_db in
  let tasks := map_to_list (tasks d) in
  for_acc tasks 0 (fix_status now).

(** A status outside the strict schema. *)
Definition legacy (t : Task) : Prop :=
  status t ≠ Canon (normalizeLegacyStatus (Some (status t))).

#[global] Instance legacy_dec t : Decision (legacy t).
Proof. unfold legacy. apply _. Defined.

(** Every stored status is one of the strict schema. *)
Definition canonical (d : Db) : Prop :=
  map_Forall (λ _ t, ¬ legacy t) (tasks d).

End Migrations.

(* ===================================================================== *)
(** ** The client reducer ([src/domain/todo.ts]) *)
(* ===================================================================== *)

Module Todo.

Inductive TaskStatus := Backlog | InProgress | Done.

#[global] Instance TaskStatus_eq_dec : EqDecision TaskStatus.
Proof. solve_decision. Defined.

Record Task := mkTask {
  id : jsstring;
  title : jsstring;
  description : jsstring;
  status : TaskStatus;
  createdAt : Z;
  updatedAt : Z
}.

Inductive Filter := FAll | FActive | FCompleted.

Record State := mkState {
  tasks : list Task;
  filter : Filter
}.

(** [restore] carries a number; [None] stands for a non-finite one, and a
    finite one is taken to be an integer. *)
Inductive Action :=
  | Add (title : jsstring)
  | SetStatus (id : jsstring) (status : TaskStatus)
  | CycleStatus (id : jsstring)
  | Remove (id : jsstring)
  | Restore (task : Task) (index : option Z)
  | SetFilter (filter : Filter)
  | Reorder (orderedIds : list jsstring)
  | Rehydrate (state : State)
  | UpdateDescription (id : jsstring) (description : jsstring).

Definition nextStatus (s : TaskStatus) : TaskStatus :=
  match s with
  | Backlog => InProgress
  | InProgress => Done
  | Done => Backlog
  end.

Definition isActiveStatus (s : TaskStatus) : bool := bool_decide (s ≠ Done).
Definition isCompletedStatus (s : TaskStatus) : bool := bool_decide (s = Done).

Definition with_tasks (st : State) (ts : list Task) : State :=
  mkState ts (filter st).

(** [new Map(tasks.map(task => [task.id, task]))]: a later entry replaces
    an earlier one with the same key. *)
Definition new_Map (ts : list Task) : gmap jsstring Task :=
  foldl (λ m t, <[id t := t]> m) ∅ ts.

(** One round of the loop over [orderedIds]; the state is [nextTasks] and
    [used]. *)
Definition pick (taskMap : gmap jsstring Task)
    (acc : list Task * gset jsstring) (i : jsstring)
  : list Task * gset jsstring :=
  match taskMap !! i with
  | None => acc
  | Some task => (acc.1 ++ [task], {[i]} ∪ acc.2)
  end.

Definition reorder (st : State) (orderedIds : list jsstring) : State :=
  if bool_decide (length orderedIds = 0%nat) then st
  else
    let taskMap := new_Map (tasks st) in
    let acc := foldl (pick taskMap) ([], ∅) orderedIds in
    let nextTasks := acc.1 in
    let used := acc.2 in
    if bool_decide (length nextTasks = 0%nat) then st
    else with_tasks st
           (nextTasks ++ base.filter (λ t, id t ∉ used) (tasks st)).

(** [tasks.map] with the [changed] flag the callback sets. *)
Definition map_changed (f : Task → option Task) (ts : list Task)
  : list Task * bool :=
  ((λ t, default t (f t)) <$> ts, existsb (λ t, bool_decide (is_Some (f t))) ts).

Definition reducer (now : Z) (st : State) (a : Action) : State :=
  match a with
  | Add title =>
      let trimmed := trim title in
      if negb (truthy trimmed) then st
      else
        let timestamp := now in
        let next := mkTask (lit "t-" ++ of_number timestamp) trimmed (lit "")
                           Backlog timestamp timestamp in
        with_tasks st (next :: tasks st)
  | SetStatus i s =>
      let timestamp := now in
      let '(nextTasks, changed) :=
        map_changed (λ t,
          if bool_decide (id t ≠ i) then None
          else if bool_decide (status t = s) then None
          else Some (mkTask (id t) (title t) (description t) s (createdAt t)
                            timestamp)) (tasks st) in
      if negb changed then st else with_tasks st nextTasks
  | CycleStatus i =>
      let timestamp := now in
      let '(nextTasks, changed) :=
        map_changed (λ t,
          if bool_decide (id t ≠ i) then None
          else Some (mkTask (id t) (title t) (description t)
                            (nextStatus (status t)) (createdAt t) timestamp))
          (tasks st) in
      if negb changed then st else with_tasks st nextTasks
  | Remove i =>
      with_tasks st (base.filter (λ t, id t ≠ i) (tasks st))
  | Restore task index =>
      let nextTasks := tasks st in
      let safeIndex :=
        match index with
        | Some n => Z.min (Z.max 0 n) (Z.of_nat (length nextTasks))
        | None => 0
        end in
      with_tasks st (take (Z.to_nat safeIndex) nextTasks ++ task
                       :: drop (Z.to_nat safeIndex) nextTasks)
  | SetFilter f => mkState (tasks st) f
  | Reorder orderedIds => reorder st orderedIds
  | Rehydrate st' => st'
  | UpdateDescription i d =>
      let timestamp := now in
      let '(nextTasks, changed) :=
        map_changed (λ t,
          if bool_decide (id t ≠ i) then None
          else if Js.eqb (description t) d then None
          else Some (mkTask (id t) (title t) d (status t) (createdAt t)
                            timestamp)) (tasks st) in
      if negb changed then st else with_tasks st nextTasks
  end.

(** *** Sample data *)

Definition three : State :=
  mkState
    [ mkTask (lit "t-1") (lit "A") (lit "") Backlog 1 1;
      mkTask (lit "t-2") (lit "B") (lit "") Done 2 2;
      mkTask (lit "t-3") (lit "C") (lit "") InProgress 3 3 ]
    FAll.

(** *** [addTask] *)

Inductive AddError := titleRequired.

Record AddResult := mkAddResult {
  action : option Action;
  errorKey : option AddError;
  trimmed : jsstring
}.

Definition addTask (title : jsstring) : AddResult :=
  let trimmed := trim title in
  if negb (truthy trimmed) then mkAddResult None (Some titleRequired) trimmed
  else mkAddResult (Some (Add trimmed)) None trimmed.

(** [{ ...task, updatedAt }] *)
Definition touched (timestamp : Z) (t : Task) : Task :=
  mkTask (id t) (title t) (description t) (status t) (createdAt t) timestamp.

End Todo.

(* ===================================================================== *)
(** ** The speech-to-text proxy handler *)
(* ===================================================================== *)

Module Stt.

(** What one run of the handler observes of its environment.  Reading and
    parsing the multipart body is a pure computation on the request bytes;
    its outcome is part of the request here. *)

Record MultipartFile := mkFile {
  filename : jsstring;
  contentType : jsstring
}.

(** [req.headers?.['content-type']] *)
Inductive HeaderValue :=
  | HUndefined
  | HString (s : jsstring)
  | HArray (ss : list jsstring).

(** The outcome of [readRequestBody] followed by [parseMultipart]:
    the stream fails, or [files.file] is read. *)
Inductive BodyOutcome :=
  | BodyError (message : jsstring)
  | BodyParsed (file : option MultipartFile).

(** The fields the handler reads off a parsed JSON body. *)
Record Json := mkJson {
  j_error : option jsstring;       (* [error], when it is a string *)
  j_message : option jsstring;     (* [String(message)], when it is truthy *)
  j_task_id : option jsstring;     (* [task_id], when it is a string *)
  j_status : option jsstring;      (* [status], when it is a string *)
  j_segments : option (list (option jsstring));
                                   (* [segments], when it is an array: the
                                      [text] of each segment, when a string *)
  j_fields : list (option jsstring)
                                   (* [text], [transcript], [transcription],
                                      [result], [utterance], when strings *)
}.

Definition json_empty : Json := mkJson None None None None None [].

Record Response := mkResponse {
  ok : bool;
  status : Z;
  text : jsstring;                 (* [await response.text().catch(() => '')] *)
  parsed : option Json             (* [JSON.parse(text)], [None] when it throws *)
}.

Inductive FetchOutcome :=
  | FetchThrows (message : jsstring)
  | Fetched (r : Response).

(** One turn of the poll loop: the reading of [Date.now()] in the loop
    condition and the answer to the status request. *)
Record Poll := mkPoll {
  poll_now : Z;
  poll_fetch : FetchOutcome
}.

Record Env := mkEnv {
  method : option jsstring;
  SPEECHCORE_API_TOKEN : option jsstring;
  SPEECHCORE_AUTH_HEADER : option jsstring;
  SPEECHCORE_AUTH_PREFIX : option jsstring;
  content_type : HeaderValue;
  body : BodyOutcome;
  upload : FetchOutcome;
  startedAt : Z;
  polls : list Poll;
  transcription : FetchOutcome
}.

(** The requests sent upstream, with the header name and value used. *)
Inductive Endpoint := Upload | StatusOf (taskId : jsstring) | TranscriptionOf (taskId : jsstring).

Record Call := mkCall {
  endpoint : Endpoint;
  auth_header : jsstring;
  auth_value : jsstring
}.

Record ResBody := mkResBody {
  b_error : option jsstring;
  b_text : option jsstring;
  b_task_id : option jsstring;
  b_status : option jsstring
}.

Definition error_body (msg : jsstring) : ResBody :=
  mkResBody (Some msg) None None None.

(** The handler answers, or throws out of the [try] block. *)
Inductive Outcome :=
  | Responded (code : Z) (b : ResBody)
  | Thrown (message : jsstring).

(** *** String helpers of the handler *)

(** [a || b] on strings read from the environment. *)
Definition or_else (a : option jsstring) (b : jsstring) : jsstring :=
  match a with
  | Some s => if truthy s then s else b
  | None => b
  end.

Definition join (sep : jsstring) (ss : list jsstring) : jsstring :=
  match ss with
  | [] => []
  | s :: ss' => foldl (λ acc x, acc ++ sep ++ x) s ss'
  end.

Definition lower (c : N) : N :=
  if ((65 <=? c) && (c <=? 90))%N then (c + 32)%N else c.

Definition semicolon : N := 59%N.
Definition quote : N := 34%N.

(** The longest prefix without a semicolon: what [[^;]+] captures. *)
Fixpoint up_to_semicolon (s : jsstring) : jsstring :=
  match s with
  | c :: s' => if bool_decide (c = semicolon) then [] else c :: up_to_semicolon s'
  | [] => []
  end.

(** [contentType.match(/boundary=([^;]+)/i)?.[1]] *)
Fixpoint boundary_match (s : jsstring) : option jsstring :=
  let key := lit "boundary=" in
  let here :=
    if bool_decide (key `prefix_of` (lower <$> s)) then
      match drop (length key) s with
      | c :: rest =>
          if bool_decide (c = semicolon) then None
          else Some (up_to_semicolon (c :: rest))
      | [] => None
      end
    else None in
  match here with
  | Some b => Some b
  | None => match s with
            | [] => None
            | _ :: s' => boundary_match s'
            end
  end.

(** [s.replace(/^"|"$/g, '')] *)
Definition strip_quotes (s : jsstring) : jsstring :=
  let s1 := match s with
            | c :: s' => if bool_decide (c = quote) then s' else s
            | [] => []
            end in
  match rev s1 with
  | c :: r => if bool_decide (c = quote) then rev r else s1
  | [] => s1
  end.

(** The body of a response as the handler sees it after [JSON.parse]. *)
Definition raw_of (r : Response) : Json :=
  if truthy (text r) then
    match parsed r with
    | Some j => j
    | None => mkJson None (Some (text r)) None None None []
    end
  else json_empty.

(** [typeof raw?.error === 'string' ? raw.error : raw?.message || text],
    then [String(message || '').slice(0, 200)]. *)
Definition upstream_message (r : Response) : jsstring :=
  let raw := raw_of r in
  let message := match j_error raw with
                 | Some e => e
                 | None => match j_message raw with
                           | Some m => m
                           | None => text r
                           end
                 end in
  slice0 200 message.

Definition upstream_error (what : string) (r : Response) : Outcome :=
  Responded (status r)
    (error_body (lit "SpeechCore " ++ lit what ++ lit " error "
                 ++ of_number (status r) ++ lit ": " ++ upstream_message r)).

Definition timeoutMs : Z := 60000.
Definition pollIntervalMs : Z := 1500.

(** The poll loop.  It ends with the status it broke or timed out on, with
    an answer sent from inside the loop, or with an exception; [None] when
    the recorded turns run out while the loop is still waiting. *)
Inductive LoopEnd :=
  | LoopExit (status : jsstring)
  | LoopOutcome (o : Outcome).

Fixpoint poll_loop (call : Call) (startedAt : Z) (status : jsstring)
    (turns : list Poll) : option (LoopEnd * list Call) :=
  match turns with
  | [] => None
  | turn :: turns' =>
      if (poll_now turn - startedAt <? timeoutMs)%Z then
        match poll_fetch turn with
        | FetchThrows m => Some (LoopOutcome (Thrown m), [call])
        | Fetched statusResponse =>
            let statusRaw := raw_of statusResponse in
            if negb (ok statusResponse)
            then Some (LoopOutcome (upstream_error "status" statusResponse), [call])
            else
              let status := default status (j_status statusRaw) in
              if Js.eqb status (lit "completed") || Js.eqb status (lit "failed")
              then Some (LoopExit status, [call])
              else
                match poll_loop call startedAt status turns' with
                | Some (e, calls) => Some (e, call :: calls)
                | None => None
                end
        end
      else Some (LoopExit status, [])
  end.

(** The text of the transcription: the trimmed segment texts joined by a
    line feed, else the first non-empty fallback field. *)
Fixpoint fallback_text (text : jsstring) (fields : list (option jsstring))
  : jsstring :=
  match fields with
  | [] => text
  | None :: fields' => fallback_text text fields'
  | Some v :: fields' =>
      let text := trim v in
      if truthy text then text else fallback_text text fields'
  end.

Definition transcript_text (raw : Json) : jsstring :=
  let segments := default [] (j_segments raw) in
  let segmentText :=
    base.filter (λ s, truthy s = true)
      ((λ seg, match seg with Some t => trim t | None => [] end) <$> segments) in
  let text := join [10%N] segmentText in
  if truthy text then text else fallback_text text (j_fields raw).

(** *** The handler *)

(** [Array.isArray(h) ? h.join(';') : h || ''] *)
Definition content_type_string (h : HeaderValue) : jsstring :=
  match h with
  | HArray ss => join (lit ";") ss
  | HString s => s
  | HUndefined => lit ""
  end.

(** What follows the poll loop: the answer for a failed or timed out
    transcription, or the request for the transcription and its text. *)
Definition conclude (e : Env) (call : Endpoint → Call) (taskId : jsstring)
    (loop : LoopEnd * list Call) : Outcome * list Call :=
  match loop with
  | (LoopOutcome o, calls) => (o, call Upload :: calls)
  | (LoopExit status, calls) =>
      if negb (Js.eqb status (lit "completed")) then
        if Js.eqb status (lit "failed")
        then (Responded 502
                (mkResBody (Some (lit "SpeechCore: transcription failed"))
                           None (Some taskId) (Some status)),
              call Upload :: calls)
        else (Responded 504
                (mkResBody (Some (lit "SpeechCore: transcription timeout"))
                           None (Some taskId) (Some (lit "timeout"))),
              call Upload :: calls)
      else
        let calls := call Upload :: calls ++ [call (TranscriptionOf taskId)] in
        match transcription e with
        | FetchThrows m => (Thrown m, calls)
        | Fetched transcriptionResponse =>
            let transcriptionRaw := raw_of transcriptionResponse in
            if negb (ok transcriptionResponse)
            then (upstream_error "transcription" transcriptionResponse, calls)
            else
              let text := transcript_text transcriptionRaw in
              (Responded 200 (mkResBody None (Some text) (Some taskId) None),
               calls)
        end
  end.

(** [(process.env.SPEECHCORE_AUTH_HEADER || 'Authorization').trim() ||
    'Authorization'], and the same for the prefix. *)
Definition headerName (e : Env) : jsstring :=
  or_else (Some (trim (or_else (SPEECHCORE_AUTH_HEADER e) (lit "Authorization"))))
          (lit "Authorization").

Definition prefix (e : Env) : jsstring :=
  or_else (Some (trim (or_else (SPEECHCORE_AUTH_PREFIX e) (lit "Bearer"))))
          (lit "Bearer").

(** A request sent upstream with the configured authorization header. *)
Definition call (e : Env) (token : jsstring) (ep : Endpoint) : Call :=
  let authValue := if truthy (prefix e) then prefix e ++ lit " " ++ token
                   else token in
  mkCall ep (headerName e) authValue.

(** The [try] block. *)
Definition handler_try (e : Env) (token : jsstring)
  : option (Outcome * list Call) :=
  let contentType := content_type_string (content_type e) in
  if negb (includes (lit "multipart/form-data") contentType)
  then Some (Responded 400 (error_body (lit "Expected multipart/form-data")), [])
  else
    let boundary := strip_quotes <$> boundary_match contentType in
    if negb (truthy (default [] boundary))
    then Some (Responded 400 (error_body (lit "Multipart boundary is missing")), [])
    else
      match body e with
      | BodyError m => Some (Thrown m, [])
      | BodyParsed None =>
          Some (Responded 400 (error_body (lit "File not found in field 'file'")), [])
      | BodyParsed (Some file) =>
          let call := call e token in
          match upload e with
          | FetchThrows m => Some (Thrown m, [call Upload])
          | Fetched uploadResponse =>
              let uploadRaw := raw_of uploadResponse in
              if negb (ok uploadResponse)
              then Some (upstream_error "upload" uploadResponse, [call Upload])
              else
                let taskId := default (lit "") (j_task_id uploadRaw) in
                if negb (truthy taskId)
                then Some (Responded 502
                             (error_body (lit "SpeechCore did not return task_id")),
                           [call Upload])
                else
                  conclude e call taskId
                    <$> poll_loop (call (StatusOf taskId)) (startedAt e)
                          (lit "pending") (polls e)
          end
      end.

(** The response sent ([res.status(code).json(body)]) and the upstream
    requests made before it. *)
Definition handler (e : Env) : option (Z * ResBody * list Call) :=
  if negb (bool_decide (method e = Some (lit "POST")))
  then Some (405, error_body (lit "Method not allowed"), [])
  else
    let token := SPEECHCORE_API_TOKEN e in
    if negb (truthy (default (lit "") token))
    then Some (400, error_body (lit "Missing SPEECHCORE_API_TOKEN in environment"), [])
    else
      match handler_try e (default (lit "") token) with
      | None => None
      | Some (Responded code b, calls) => Some (code, b, calls)
      | Some (Thrown m, calls) => Some (500, error_body m, calls)
      end.

(** *** Derived notions used to state the properties of the handler *)

(** The request passes every check and the upload returns a task id. *)
Definition accepted (e : Env) (taskId : jsstring) : Prop :=
  method e = Some (lit "POST")
  ∧ (∃ token, SPEECHCORE_API_TOKEN e = Some token ∧ token ≠ [])
  ∧ includes (lit "multipart/form-data") (content_type_string (content_type e)) = true
  ∧ (∃ b, boundary_match (content_type_string (content_type e)) = Some b
          ∧ strip_quotes b ≠ [])
  ∧ (∃ file, body e = BodyParsed (Some file))
  ∧ (∃ r, upload e = Fetched r ∧ ok r = true
          ∧ j_task_id (raw_of r) = Some taskId)
  ∧ taskId ≠ [].

(** The status a poll reports, when the status request succeeds. *)
Definition poll_status (p : Poll) : option (option jsstring) :=
  match poll_fetch p with
  | Fetched r => if ok r then Some (j_status (raw_of r)) else None
  | FetchThrows _ => None
  end.

Definition terminal (s : jsstring) : Prop :=
  s = lit "completed" ∨ s = lit "failed".

Definition in_time (e : Env) (p : Poll) : Prop :=
  poll_now p - startedAt e < timeoutMs.

(** A poll made before the deadline that leaves the loop running. *)
Definition still_waiting (e : Env) (p : Poll) : Prop :=
  in_time e p
  ∧ ∃ st, poll_status p = Some st ∧ ∀ s, st = Some s → ¬ terminal s.

(** A poll made before the deadline that reports the status [s]. *)
Definition reports (e : Env) (p : Poll) (s : jsstring) : Prop :=
  in_time e p ∧ poll_status p = Some (Some s).
(** *** Sample data *)

Definition json_status (s : string) : Json :=
  mkJson None None None (Some (lit s)) None [].

Definition answer (text : string) (j : Json) : FetchOutcome :=
  Fetched (mkResponse true 200 (lit text) (Some j)).

Definition dictation : Env :=
  mkEnv (Some (lit "POST")) (Some (lit "secret")) None None
        (HString (lit "multipart/form-data; boundary=----form"))
        (BodyParsed (Some (mkFile (lit "recording.webm") (lit "audio/webm"))))
        (answer "{...}" (mkJson None None (Some (lit "task-7")) None None []))
        1000
        [ mkPoll 1000 (answer "{...}" (json_status "processing"));
          mkPoll 2500 (answer "{...}" (json_status "completed")) ]
        (answer "{...}" (mkJson None None None None
                           (Some [Some (lit " hello "); None; Some (lit "world")])
                           [])).

(** *** Further notions and sample data *)

(** An upstream response the handler takes as a failure. *)
Definition failed_upstream (e : Env) (r : Response) : Prop :=
  ok r = false
  ∧ (upload e = Fetched r
     ∨ (∃ p, p ∈ polls e ∧ poll_fetch p = Fetched r)
     ∨ transcription e = Fetched r).

(** The body of an error answer: a message and no text. *)
Definition is_error (b : ResBody) : Prop :=
  is_Some (b_error b) ∧ b_text b = None.

(** An upload the upstream service refuses. *)
Definition rejected_upload : Env :=
  mkEnv (Some (lit "POST")) (Some (lit "secret")) None None
        (HString (lit "multipart/form-data; boundary=----form"))
        (BodyParsed (Some (mkFile (lit "recording.webm") (lit "audio/webm"))))
        (Fetched (mkResponse false 429 (lit "slow down") None))
        1000 [] (FetchThrows []).

(** A dictation still processing when the deadline passes. *)
Definition slow_dictation : Env :=
  mkEnv (Some (lit "POST")) (Some (lit "secret")) None None
        (HString (lit "multipart/form-data; boundary=----form"))
        (BodyParsed (Some (mkFile (lit "recording.webm") (lit "audio/webm"))))
        (answer "{...}" (mkJson None None (Some (lit "task-7")) None None []))
        1000
        [ mkPoll 1000 (answer "{...}" (json_status "processing"));
          mkPoll 61000 (answer "{...}" (json_status "processing")) ]
        (FetchThrows []).

End Stt.

(* ===================================================================== *)
(** ** The local storage adapter ([src/storage/localStorage.ts]) *)
(* ===================================================================== *)

Module Storage.
Import Todo.

(** A value as [JSON.parse] returns it.  A number that is not finite (an
    overflowing literal) is [JNum None]; a finite one is taken to be an
    integer, as the timestamps are.  The fields of an object are listed
    under their keys, each key once. *)
Unset Elimination Schemes.
Inductive JValue :=
  | JNull
  | JBool (b : bool)
  | JNum (n : option Z)
  | JStr (s : jsstring)
  | JArr (items : list JValue)
  | JObj (fields : list (jsstring * JValue)).
Set Elimination Schemes.

(** [value.key]: [None] is [undefined], also for a value that is not an
    object with that key. *)
Definition get (key : string) (value : JValue) : option JValue :=
  match value with
  | JObj fields => (λ found, found.2.2) <$> list_find (λ f, f.1 = lit key) fields
  | _ => None
  end.

(** [value === 'text'] *)
Definition is_string (text : string) (value : option JValue) : bool :=
  match value with
  | Some (JStr s) => Js.eqb s (lit text)
  | _ => false
  end.

Definition normalizeTaskStatus (value legacyDone : option JValue)
  : option TaskStatus :=
  if is_string "backlog" value then Some Backlog
  else if is_string "in_progress" value then Some InProgress
  else if is_string "done" value then Some Done
  else if is_string "active" value then Some Backlog
  else match legacyDone with
       | Some (JBool legacyDone) => Some (if legacyDone then Done else Backlog)
       | _ => None
       end.

Definition normalizeFilter (value : option JValue) : Filter :=
  if is_string "all" value then FAll
  else if is_string "active" value then FActive
  else if is_string "completed" value then FCompleted
  else if is_string "done" value then FCompleted
  else FAll.

(** [isNumber(value) ? value : fallback] *)
Definition number_or (value : option JValue) (fallback : Z) : Z :=
  match value with
  | Some (JNum (Some n)) => n
  | _ => fallback
  end.

(** [raw && typeof raw === 'object']: an array is an object too. *)
Definition is_object (raw : JValue) : bool :=
  match raw with
  | JArr _ | JObj _ => true
  | _ => false
  end.

(** [now] is the reading of [Date.now()] the call would make. *)
Definition normalizeTask (now : Z) (raw : JValue) : option Task :=
  if negb (is_object raw) then None
  else
      match get "id" raw, get "title" raw with
      | Some (JStr id), Some (JStr title) =>
          match normalizeTaskStatus (get "status" raw) (get "done" raw) with
          | None => None
          | Some nextStatus =>
              let createdAt := number_or (get "createdAt" raw) now in
              let updatedAt := number_or (get "updatedAt" raw) createdAt in
              let description :=
                match get "description" raw with
                | Some (JStr d) => d
                | _ => lit ""
                end in
              Some (mkTask id title description nextStatus createdAt updatedAt)
          end
      | _, _ => None
      end.

(** What [loadState] finds under [STORAGE_KEY]. *)
Inductive Stored :=
  | NoWindow
  | Throws
  | Empty
  | Parsed (parsed : JValue).

(** The loop over [parsed.tasks]; [clock k] is the reading of [Date.now()]
    while the element at index [k] is normalized. *)
Fixpoint normalize_from (clock : nat → Z) (k : nat) (raws : list JValue)
    (tasks : list Task) : option (list Task) :=
  match raws with
  | [] => Some tasks
  | raw :: raws' =>
      match normalizeTask (clock k) raw with
      | None => None
      | Some normalized => normalize_from clock (S k) raws' (tasks ++ [normalized])
      end
  end.

Definition loadState (clock : nat → Z) (stored : Stored) : option State :=
  match stored with
  | Parsed parsed =>
      match get "tasks" parsed with
      | Some (JArr raws) =>
          match normalize_from clock 0 raws [] with
          | None => None
          | Some tasks => Some (mkState tasks (normalizeFilter (get "filter" parsed)))
          end
      | _ => None
      end
  | _ => None
  end.

(** What [JSON.stringify(state)], as [saveState] stores it, parses to. *)
Definition status_json (s : TaskStatus) : JValue :=
  JStr (match s with
        | Backlog => lit "backlog"
        | InProgress => lit "in_progress"
        | Done => lit "done"
        end).

Definition filter_json (f : Filter) : JValue :=
  JStr (match f with
        | FAll => lit "all"
        | FActive => lit "active"
        | FCompleted => lit "completed"
        end).

Definition task_json (t : Task) : JValue :=
  JObj [ (lit "id", JStr (id t)); (lit "title", JStr (title t));
         (lit "description", JStr (description t));
         (lit "status", status_json (status t));
         (lit "createdAt", JNum (Some (createdAt t)));
         (lit "updatedAt", JNum (Some (updatedAt t))) ].

Definition state_json (st : State) : JValue :=
  JObj [ (lit "tasks", JArr (task_json <$> tasks st));
         (lit "filter", filter_json (Todo.filter st)) ].

(** *** The author name

    [window.localStorage]: the items, and whether an access throws (privacy
    mode, quota). *)
Record LocalStorage := mkLocalStorage {
  items : gmap jsstring jsstring;
  throws : bool
}.

Definition AUTHOR_KEY : jsstring := lit "todo-state:author".
Definition STORAGE_KEY : jsstring := lit "todo-state:v1".

(** [window] is [None] when [typeof window === 'undefined']. *)
Definition loadAuthorName (window : option LocalStorage) : jsstring :=
  match window with
  | None => lit ""
  | Some localStorage =>
      if throws localStorage then lit ""
      else default (lit "") (items localStorage !! AUTHOR_KEY)
  end.

Definition saveAuthorName (name : jsstring) (window : option LocalStorage)
  : option LocalStorage :=
  match window with
  | None => None
  | Some localStorage =>
      if throws localStorage then Some localStorage
      else if negb (truthy name)
           then Some (mkLocalStorage (delete AUTHOR_KEY (items localStorage)) false)
           else Some (mkLocalStorage (<[AUTHOR_KEY := name]> (items localStorage)) false)
  end.

End Storage.

(* ===================================================================== *)
(** ** The language detection of the client *)
(* ===================================================================== *)

Module I18n.

Inductive SupportedLanguage := ru | en | es.

(** [SUPPORTED_LANGUAGES]: the tag of each language. *)
Definition tag (l : SupportedLanguage) : jsstring :=
  match l with ru => lit "ru" | en => lit "en" | es => lit "es" end.

(** [value.toLowerCase()], on the letters A to Z.  [normalizeLanguage] only
    looks at whether the result starts with "ru", "es" or "en", and no
    other character lowers to one of these letters. *)
Definition toLowerCase (value : jsstring) : jsstring := Stt.lower <$> value.

(** [lowered.startsWith(text)] *)
Definition startsWith (text : string) (lowered : jsstring) : bool :=
  bool_decide (lit text `prefix_of` lowered).

(** [None] is [null] or [undefined]. *)
Definition normalizeLanguage (value : option jsstring) : SupportedLanguage :=
  match value with
  | None => en
  | Some value =>
      if negb (truthy value) then en
      else
        let lowered := toLowerCase value in
        if startsWith "ru" lowered then ru
        else if startsWith "es" lowered then es
        else if startsWith "en" lowered then en
        else en
  end.

Definition STORAGE_KEY : jsstring := lit "todo-state:lang".

(** [window]: its [localStorage], with the items and whether an access
    throws, and [navigator?.language]. *)
Record Window := mkWindow {
  items : gmap jsstring jsstring;
  throws : bool;
  language : option jsstring
}.

Definition detectLanguage (window : option Window) : SupportedLanguage :=
  match window with
  | None => en
  | Some w =>
      let stored := if throws w then None else items w !! STORAGE_KEY in
      match stored with
      | Some stored =>
          if truthy stored then normalizeLanguage (Some stored)
          else normalizeLanguage (language w)
      | None => normalizeLanguage (language w)
      end
  end.

(** The [languageChanged] listener. *)
Definition languageChanged (lng : jsstring) (w : Window) : Window :=
  if throws w then w
  else mkWindow (<[STORAGE_KEY := lng]> (items w)) false (language w).

End I18n.

(* ===================================================================== *)
(** * Properties *)
(* ===================================================================== *)

Module ConvexFacts.
Import Convex.
Local Open Scope mutation_scope.

Section reorder_facts.
Context (now : Z).

Lemma placed_placed s i s' i' now' t :
  placed now s i (apply_patch (mkTaskPatch (Some s') (Some i') None (Some now')) t)
  = placed now s i t.
Proof. by destruct t. Qed.

Lemma indexed_cons i id ids : indexed i (id :: ids) = (i, id) :: indexed (i + 1) ids.
Proof. done. Qed.

Lemma indexed_app ids1 : ∀ i ids2,
  indexed i (ids1 ++ ids2)
  = indexed i ids1 ++ indexed (i + Z.of_nat (length ids1)) ids2.
Proof.
  induction ids1 as [|id ids1 IH]; intros i ids2.
  - cbn. by rewrite Z.add_0_r.
  - cbn [app indexed length]. rewrite IH. cbn. do 3 f_equal. lia.
Qed.

Lemma indexed_lookup ids : ∀ i k,
  indexed i ids !! k = (λ id, (i + Z.of_nat k, id)) <$> ids !! k.
Proof.
  induction ids as [|id ids IH]; intros i k; [done|].
  destruct k as [|k]; cbn [indexed].
  - cbn. by rewrite Z.add_0_r.
  - cbn [lookup list_lookup].
    change (indexed (i + 1) ids !! k
            = (λ id0, (i + Z.of_nat (S k), id0)) <$> ids !! k).
    rewrite IH. destruct (ids !! k); cbn; [|done]. do 2 f_equal. lia.
Qed.

Lemma indexed_snd i ids : (indexed i ids).*2 = ids.
Proof.
  revert i; induction ids as [|id ids IH]; intros i; [done|].
  rewrite indexed_cons. cbn. by rewrite IH.
Qed.

Lemma all_patches_fst cols : (all_patches cols).*1 = listed cols.
Proof.
  unfold all_patches, listed. induction cols as [|c cols IH]; [done|].
  cbn. rewrite fmap_app, IH. f_equal.
  unfold column_patches. rewrite <- list_fmap_compose.
  rewrite <- (indexed_snd 0 (orderedIds c)) at 2. done.
Qed.

Lemma ctx_eta (c : Ctx) :
  mkCtx (set_tasks (db c) (tasks (db c))) (journal c ++ []) = c.
Proof. destruct c as [[] ?]. cbn. by rewrite app_nil_r. Qed.

Lemma place_run s i id (c : Ctx) t :
  tasks (db c) !! id = Some t →
  place now s i id c
  = Some (tt, mkCtx (set_tasks (db c) (alter (placed now s i) id (tasks (db c))))
                    (journal c ++ [WPatch TTasks id])).
Proof.
  intros Ht. unfold place, db_patch, bind, get_db. cbn. rewrite Ht. cbn.
  unfold put_db. by rewrite (alter_alt_Some _ _ _ _ Ht).
Qed.

Lemma place_throws s i id (c : Ctx) :
  tasks (db c) !! id = None → place now s i id c = None.
Proof.
  intros Ht. unfold place, db_patch, bind, get_db. cbn. by rewrite Ht.
Qed.

Lemma for_index_place_run s ids : ∀ i (c : Ctx),
  (∀ id, id ∈ ids → is_Some (tasks (db c) !! id)) →
  for_index i ids (place now s) c
  = Some (tt, mkCtx (set_tasks (db c)
                       (patch_tasks now ((λ p, (p.2, (s, p.1))) <$> indexed i ids)
                                    (tasks (db c))))
                    (journal c ++ (WPatch TTasks <$> ids))).
Proof.
  induction ids as [|id ids IH]; intros i c Hex.
  - cbn. unfold ret. by rewrite ctx_eta.
  - destruct (Hex id) as [t Ht]; [left|].
    cbn [for_index]. unfold bind at 1. rewrite (place_run _ _ _ _ _ Ht).
    rewrite IH.
    + rewrite indexed_cons. cbn. rewrite <- app_assoc. done.
    + intros j Hj. cbn. apply lookup_alter_is_Some. apply Hex. by right.
Qed.

Lemma patch_tasks_app ps qs m :
  patch_tasks now (ps ++ qs) m = patch_tasks now qs (patch_tasks now ps m).
Proof. apply foldl_app. Qed.

Lemma patch_tasks_cons p ps m :
  patch_tasks now (p :: ps) m = patch_tasks now ps (alter (placed now p.2.1 p.2.2) p.1 m).
Proof. done. Qed.

Lemma patch_tasks_is_Some ps : ∀ m id,
  is_Some (patch_tasks now ps m !! id) ↔ is_Some (m !! id).
Proof.
  induction ps as [|p ps IH]; intros m id; [done|].
  rewrite patch_tasks_cons, IH. apply lookup_alter_is_Some.
Qed.

Lemma all_patches_cons c cols :
  all_patches (c :: cols) = column_patches c ++ all_patches cols.
Proof. done. Qed.

Lemma listed_cons c cols : listed (c :: cols) = orderedIds c ++ listed cols.
Proof. done. Qed.

Lemma rewrite_columns_run cols : ∀ (c : Ctx),
  (∀ id, id ∈ listed cols → is_Some (tasks (db c) !! id)) →
  rewrite_columns now cols c
  = Some (tt, mkCtx (set_tasks (db c) (patch_tasks now (all_patches cols) (tasks (db c))))
                    (journal c ++ (WPatch TTasks <$> listed cols))).
Proof.
  induction cols as [|col cols IH]; intros c Hex.
  - cbn. unfold ret. by rewrite ctx_eta.
  - unfold rewrite_columns in *. cbn [for_of]. unfold bind at 1.
    rewrite for_index_place_run.
    + rewrite IH.
      * rewrite all_patches_cons, listed_cons, patch_tasks_app, fmap_app.
        cbn [db journal set_tasks tasks messages task_events app_state].
        rewrite <- app_assoc. done.
      * intros id Hid. cbn [db set_tasks tasks]. apply patch_tasks_is_Some.
        apply Hex. rewrite listed_cons. apply elem_of_app. by right.
    + intros id Hid. apply Hex. rewrite listed_cons. apply elem_of_app. by left.
Qed.

(** A task that no column lists is left as it was. *)
Lemma patch_tasks_other ps : ∀ m id,
  id ∉ ps.*1 → patch_tasks now ps m !! id = m !! id.
Proof.
  induction ps as [|p ps IH]; intros m id Hid; [done|].
  rewrite fmap_cons in Hid. apply not_elem_of_cons in Hid as [Hne Hid].
  rewrite patch_tasks_cons, IH by done. by apply lookup_alter_ne.
Qed.

(** The last patch issued for an id decides where the task ends. *)
Lemma patch_tasks_last ps id s i qs m :
  id ∉ qs.*1 →
  patch_tasks now (ps ++ (id, (s, i)) :: qs) m !! id = placed now s i <$> m !! id.
Proof.
  intros Hid. rewrite patch_tasks_app, patch_tasks_cons.
  rewrite patch_tasks_other by done. cbn [fst snd]. rewrite lookup_alter_eq.
  assert (Hinv : ∀ m, ∃ f : Task → Task,
             patch_tasks now ps m !! id = f <$> m !! id ∧
             ∀ t, placed now s i (f t) = placed now s i t).
  { clear. induction ps as [|[j [s' i']] ps IH]; intros m.
    - exists (λ t, t). split; [|done].
      change (patch_tasks now [] m) with m. by destruct (m !! id).
    - rewrite patch_tasks_cons.
      cbn [fst snd].
      destruct (IH (alter (placed now s' i') j m)) as (f & Hf & Hp).
      destruct (decide (j = id)) as [->|Hne].
      + exists (λ t, f (placed now s' i' t)). split.
        * rewrite Hf, lookup_alter_eq. by destruct (m !! id).
        * intros t. rewrite Hp. apply placed_placed.
      + exists f. split; [|done]. by rewrite Hf, lookup_alter_ne. }
  destruct (Hinv m) as (f & -> & Hp).
  destruct (m !! id); cbn; [|done]. by rewrite Hp.
Qed.

Lemma column_patches_split c before id after :
  orderedIds c = before ++ id :: after →
  ∃ ps qs, column_patches c
           = ps ++ (id, (normalizeLegacyStatus (Some (col_status c)),
                         Z.of_nat (length before))) :: qs
           ∧ qs.*1 = after.
Proof.
  intros Hc. unfold column_patches. rewrite Hc, indexed_app, indexed_cons.
  rewrite fmap_app, fmap_cons. eexists _, _. split; [done|].
  rewrite <- list_fmap_compose. apply indexed_snd.
Qed.

Lemma all_patches_app cs1 cs2 :
  all_patches (cs1 ++ cs2) = all_patches cs1 ++ all_patches cs2.
Proof. unfold all_patches. by rewrite fmap_app, concat_app. Qed.

Lemma listed_app cs1 cs2 : listed (cs1 ++ cs2) = listed cs1 ++ listed cs2.
Proof. unfold listed. by rewrite fmap_app, concat_app. Qed.

Lemma all_patches_split pre col post before id after :
  orderedIds col = before ++ id :: after →
  ∃ ps qs, all_patches (pre ++ col :: post)
           = ps ++ (id, (normalizeLegacyStatus (Some (col_status col)),
                         Z.of_nat (length before))) :: qs
           ∧ qs.*1 = after ++ listed post.
Proof.
  intros Hc. destruct (column_patches_split _ _ _ _ Hc) as (ps & qs & Hps & Hqs).
  exists (all_patches pre ++ ps), (qs ++ all_patches post). split.
  - rewrite all_patches_app, all_patches_cons, Hps.
    by rewrite <- !app_assoc.
  - by rewrite fmap_app, Hqs, all_patches_fst.
Qed.

Lemma record_if_run e (c : Ctx) :
  ∃ c', record_if e c = Some (tt, c')
        ∧ tasks (db c') = tasks (db c)
        ∧ messages (db c') = messages (db c)
        ∧ app_state (db c') = app_state (db c)
        ∧ (task_events (db c')).*2 = (task_events (db c)).*2 ++ option_list e.
Proof.
  destruct e as [e|]; cbn.
  - eexists. split; [reflexivity|]. cbn. by rewrite fmap_app.
  - eexists. split; [reflexivity|]. by rewrite app_nil_r.
Qed.

Lemma reorder_run args d :
  Forall (λ id, is_Some (tasks d !! id)) (listed (columns args)) →
  ∃ d' w, run (reorder now args) d = Some (tt, d', w)
          ∧ tasks d' = patch_tasks now (all_patches (columns args)) (tasks d)
          ∧ messages d' = messages d
          ∧ app_state d' = app_state d
          ∧ (task_events d').*2
            = (task_events d).*2 ++ option_list (reordered_event now args)
                ++ option_list (status_event now args).
Proof.
  intros Hex. rewrite Forall_forall in Hex.
  unfold run, reorder. unfold bind at 1.
  rewrite rewrite_columns_run by done.
  unfold bind at 1.
  match goal with |- context [record_if ?e ?c] =>
    destruct (record_if_run e c) as (c1 & -> & Ht1 & Hm1 & Ha1 & He1) end.
  unfold bind at 1.
  destruct (record_if_run (status_event now args) c1)
    as (c2 & -> & Ht2 & Hm2 & Ha2 & He2).
  cbn. eexists _, _. split; [reflexivity|].
  rewrite Ht2, Ht1, Hm2, Hm1, Ha2, Ha1, He2, He1. cbn.
  by rewrite <- app_assoc.
Qed.

End reorder_facts.

Lemma normalize_canon s : normalizeLegacyStatus (Some (Canon s)) = s.
Proof. by destruct s. Qed.

Lemma in_column_placed now s s' i t : in_column s (placed now s' i t) ↔ s' = s.
Proof.
  unfold in_column. cbn [placed apply_patch status tp_status from_option].
  by rewrite normalize_canon.
Qed.

Section column_facts.
Context (now : Z).

Lemma elem_of_column_patches c id s i :
  (id, (s, i)) ∈ column_patches c
  ↔ ∃ k : nat, orderedIds c !! k = Some id
       ∧ s = normalizeLegacyStatus (Some (col_status c)) ∧ i = Z.of_nat k.
Proof.
  unfold column_patches. rewrite list_elem_of_fmap. split.
  - intros ([i' id'] & Heq & Hin). cbn in Heq. simplify_eq.
    apply list_elem_of_lookup in Hin as [k Hk].
    rewrite indexed_lookup in Hk.
    destruct (orderedIds c !! k) eqn:Hid; simplify_eq/=.
    exists k. split_and!; [done..|lia].
  - intros (k & Hk & -> & ->). exists (Z.of_nat k, id). split; [done|].
    apply list_elem_of_lookup. exists k. rewrite indexed_lookup, Hk. cbn.
    do 2 f_equal.
Qed.

Lemma elem_of_all_patches cols id s i :
  (id, (s, i)) ∈ all_patches cols
  ↔ ∃ c (k : nat), c ∈ cols ∧ orderedIds c !! k = Some id
       ∧ s = normalizeLegacyStatus (Some (col_status c)) ∧ i = Z.of_nat k.
Proof.
  induction cols as [|c cols IH].
  - split; [by intros ?%elem_of_nil|]. by intros (c & k & ?%elem_of_nil & _).
  - rewrite all_patches_cons, elem_of_app, IH, elem_of_column_patches. split.
    + intros [(k & ?)|(c' & k & ? & ?)].
      * exists c, k. split; [left|done].
      * exists c', k. split; [by right|done].
    + intros (c' & k & [->|Hin]%elem_of_cons & ?).
      * left. by exists k.
      * right. by exists c', k.
Qed.

(** When no id is listed twice, every listed task ends where its one
    occurrence says. *)
Lemma patch_tasks_listed ps id s i m :
  NoDup ps.*1 → (id, (s, i)) ∈ ps →
  patch_tasks now ps m !! id = placed now s i <$> m !! id.
Proof.
  intros Hnd (ps1 & ps2 & ->)%list_elem_of_split.
  apply patch_tasks_last.
  rewrite fmap_app, fmap_cons in Hnd.
  apply NoDup_app in Hnd as (_ & _ & Hnd). by apply NoDup_cons in Hnd as [? _].
Qed.

Lemma listed_has_patch cols id :
  id ∈ listed cols → ∃ s i, (id, (s, i)) ∈ all_patches cols.
Proof.
  rewrite <- all_patches_fst. intros ([id' [s i]] & -> & Hin)%list_elem_of_fmap.
  by exists s, i.
Qed.

Lemma NoDup_listed_column pre col post :
  NoDup (listed (pre ++ col :: post)) → NoDup (orderedIds col).
Proof.
  rewrite listed_app, listed_cons. intros (_ & _ & H)%NoDup_app.
  by apply NoDup_app in H as (? & _).
Qed.

End column_facts.

Lemma foldr_min_le o os : foldr Z.min o os ≤ o ∧ Forall (λ x, foldr Z.min o os ≤ x) os.
Proof.
  induction os as [|x os [IH1 IH2]]; cbn; [split; [lia|constructor]|].
  split; [lia|]. constructor; [lia|].
  eapply Forall_impl; [exact IH2|]. cbn. lia.
Qed.

Lemma foldr_min_elem o os : foldr Z.min o os ∈ o :: os.
Proof.
  induction os as [|x os IH]; cbn; [left|].
  destruct (Z.min_spec x (foldr Z.min o os)) as [[_ ->]|[_ ->]].
  - right. left.
  - apply elem_of_cons in IH as [->|IH]; [left|right; by right].
Qed.

Lemma min_order_None ts : min_order ts = None → ts = [].
Proof. by destruct ts. Qed.

Lemma min_order_Some ts o :
  min_order ts = Some o →
  (∀ u, u ∈ ts → o ≤ order u) ∧ ∃ u, u ∈ ts ∧ order u = o.
Proof.
  destruct ts as [|t ts]; [done|]. intros [= <-]. split.
  - intros u [->|Hu]%elem_of_cons.
    + apply foldr_min_le.
    + destruct (foldr_min_le (order t) (order <$> ts)) as [_ Hall].
      rewrite Forall_forall in Hall. apply Hall. by apply list_elem_of_fmap_2.
  - pose proof (foldr_min_elem (order t) (order <$> ts)) as Hin.
    apply elem_of_cons in Hin as [Heq|Hin].
    + exists t. split; [left|done].
    + apply list_elem_of_fmap in Hin as (u & Hu & Hin).
      exists u. split; [by right|done].
Qed.

Lemma elem_of_by_status s m u :
  u ∈ by_status s m ↔ ∃ j, m !! j = Some u ∧ status u = Canon s.
Proof.
  unfold by_status. rewrite list_elem_of_filter, list_elem_of_fmap. split.
  - intros (Hs & [j u'] & -> & Hin). exists j. split; [|done].
    by apply elem_of_map_to_list.
  - intros (j & Hj & Hs). split; [done|]. exists (j, u). split; [done|].
    by apply elem_of_map_to_list.
Qed.

(** A subtraction whose result is at most 2^53 in magnitude is exact. *)
Lemma number_sub_exact a b :
  - 2 ^ 53 ≤ a - b ≤ 2 ^ 53 → number_sub a b = a - b.
Proof.
  intros H. unfold number_sub, round_number.
  destruct (Z.abs (a - b) <=? 2 ^ 53) eqn:Habs; [done|].
  apply Z.leb_gt in Habs. lia.
Qed.

Lemma getNextOrder_run s (c : Ctx) :
  ∃ o, getNextOrder s c = Some (o, c) ∧ next_order s (tasks (db c)) o.
Proof.
  unfold getNextOrder, bind, get_db.
  destruct (min_order (by_status s (tasks (db c)))) as [o|] eqn:Hmin.
  - exists (number_sub o 1). split; [done|].
    apply min_order_Some in Hmin as [Hle (u & Hu & Ho)].
    left. apply elem_of_by_status in Hu as (j & Hj & Hs).
    exists j, u. split_and!; [done..| |by rewrite Ho].
    intros k v Hk Hv. rewrite Ho. apply Hle, elem_of_by_status. eauto.
  - exists 0. split; [done|]. apply min_order_None in Hmin.
    right. split; [|done]. intros j u Hj Hs.
    assert (u ∈ by_status s (tasks (db c))) as Hin
      by (apply elem_of_by_status; eauto).
    rewrite Hmin in Hin. by apply elem_of_nil in Hin.
Qed.

(** In a column of safe integers the rule puts the task in front. *)
Lemma next_order_prepend (s : TaskStatus) (m : gmap Id Task) (o : Z) :
  safe_column s m → next_order s m o → prepend_order s m o.
Proof.
  intros Hsafe [(j & u & Hj & Hs & Hmin & ->)|[Hnone ->]].
  - assert (Hu : is_safe_integer (order u)) by (by apply (Hsafe j u)).
    unfold is_safe_integer in Hu.
    rewrite number_sub_exact by lia. split.
    + intros k v Hk Hv. specialize (Hmin k v Hk Hv). lia.
    + left. exists j, u. split_and!; [done..|lia].
  - split; [|by right]. intros j u Hj Hs. by destruct (Hnone j u).
Qed.

Lemma setStatus_run now id target actor d t :
  tasks d !! id = Some t →
  let current := normalizeLegacyStatus (Some (status t)) in
  let tgt := normalizeLegacyStatus (Some target) in
  (current = tgt ∧ status t = Canon current →
     run (setStatus now id target actor) d = Some (Some current, d, []))
  ∧ (¬ (current = tgt ∧ status t = Canon current) →
     ∃ d' eid o,
       run (setStatus now id target actor) d
       = Some (Some tgt, d', [WPatch TTasks id; WInsert TTaskEvents eid])
       ∧ next_order tgt (tasks d) o
       ∧ tasks d' = <[id := mkTask (title t) (Canon tgt) (description t) o
                                   (createdAt t) now]> (tasks d)
       ∧ task_events d'
         = task_events d
           ++ [(eid, mkEvent id task_status_changed (normalizeActor actor)
                             (payload_status current tgt) now)]
       ∧ messages d' = messages d
       ∧ app_state d' = app_state d).
Proof.
  intros Ht current tgt. split.
  - intros [Hsame Hcanon].
    unfold run, setStatus, bind, db_get, get_db, ret. cbn. rewrite Ht.
    fold current tgt.
    rewrite (bool_decide_eq_true_2 _ Hsame).
    rewrite (bool_decide_eq_false_2 (status t ≠ Canon current)) by tauto.
    done.
  - intros Hdiff.
    unfold run, setStatus. unfold bind at 1. unfold db_get, bind, get_db, ret.
    cbn [db]. rewrite Ht. fold current tgt.
    match goal with |- context [if ?b then _ else _] =>
      assert (b = false) as -> end.
    { apply andb_false_iff.
      destruct (decide (current = tgt)) as [Heq|Hne].
      - right. apply negb_false_iff, bool_decide_eq_true_2. tauto.
      - left. by apply bool_decide_eq_false_2. }
    destruct (getNextOrder_run tgt (mkCtx d [])) as (o & -> & Ho).
    cbn. rewrite Ht. cbn.
    eexists _, _, o. split; [reflexivity|]. done.
Qed.

Lemma cycleStatus_run now id actor d t :
  tasks d !! id = Some t →
  let current := normalizeLegacyStatus (Some (status t)) in
  ∃ d' eid o,
    run (cycleStatus now id actor) d
    = Some (Some (nextStatus current), d',
            [WPatch TTasks id; WInsert TTaskEvents eid])
    ∧ tasks d' = <[id := mkTask (title t) (Canon (nextStatus current))
                                (description t) o (createdAt t) now]> (tasks d)
    ∧ task_events d'
      = task_events d
        ++ [(eid, mkEvent id task_status_changed (normalizeActor actor)
                          (payload_status current (nextStatus current)) now)].
Proof.
  intros Ht current.
  unfold run, cycleStatus. unfold bind at 1. unfold db_get, bind, get_db, ret.
  cbn [db]. rewrite Ht. fold current.
  destruct (getNextOrder_run (nextStatus current) (mkCtx d [])) as (o & -> & Ho).
  cbn. rewrite Ht. cbn.
  eexists _, _, o. split; [reflexivity|]. done.
Qed.

Lemma updateDescription_run now1 now2 id text actor d t :
  tasks d !! id = Some t →
  (description t ≠ text →
     ∃ d1 eid,
       run (updateDescription now1 id text actor) d
       = Some (tt, d1, [WPatch TTasks id; WInsert TTaskEvents eid])
       ∧ tasks d1 = <[id := mkTask (title t) (status t) text (order t)
                                   (createdAt t) now1]> (tasks d)
       ∧ task_events d1
         = task_events d
           ++ [(eid, mkEvent id task_description_updated (normalizeActor actor)
                             (payload_preview (take 80 (trim text))) now1)]
       ∧ run (updateDescription now2 id text actor) d1 = Some (tt, d1, []))
  ∧ (description t = text →
     run (updateDescription now1 id text actor) d = Some (tt, d, [])).
Proof.
  intros Ht. split.
  - intros Hne.
    set (d1 := mkDb (<[id := mkTask (title t) (status t) text (order t)
                                    (createdAt t) now1]> (tasks d))
                    (messages d)
                    (task_events d
                       ++ [(new_id (set_tasks d
                                      (<[id := mkTask (title t) (status t) text
                                               (order t) (createdAt t) now1]>
                                         (tasks d))),
                            mkEvent id task_description_updated
                                    (normalizeActor actor)
                                    (payload_preview (take 80 (trim text))) now1)])
                    (app_state d)).
    exists d1, (new_id (set_tasks d (tasks d1))).
    split_and!; try done.
    + unfold run, updateDescription, bind, db_get, get_db, ret. cbn.
      rewrite Ht. unfold Js.eqb. rewrite bool_decide_eq_false_2 by done.
      cbn. rewrite Ht. cbn.
      destruct t; reflexivity.
    + unfold run, updateDescription, bind, db_get, get_db, ret. cbn.
      rewrite lookup_insert_eq. cbn. unfold Js.eqb.
      by rewrite bool_decide_eq_true_2.
  - intros Heq.
    unfold run, updateDescription, bind, db_get, get_db, ret. cbn.
    rewrite Ht. unfold Js.eqb. by rewrite bool_decide_eq_true_2.
Qed.

(** [trim] *)

Lemma trimStart_no_lead s : no_lead (trimStart s).
Proof.
  induction s as [|c s IH]; [done|]. cbn.
  destruct (is_space c) eqn:Hc; [done|]. cbn. done.
Qed.

Lemma trimStart_id s : no_lead s → trimStart s = s.
Proof. destruct s as [|c s]; [done|]. cbn. by intros ->. Qed.

Lemma trimStart_split s :
  ∃ sp, s = sp ++ trimStart s ∧ Forall (λ c, is_space c = true) sp.
Proof.
  induction s as [|c s (sp & Hs & Hsp)]; [by exists []|]. cbn.
  destruct (is_space c) eqn:Hc.
  - exists (c :: sp). split; [by rewrite Hs at 1|by constructor].
  - by exists [].
Qed.

Lemma trimEnd_no_lead s : no_lead s → no_lead (trimEnd s).
Proof.
  intros Hs. unfold trimEnd.
  destruct (trimStart_split (rev s)) as (sp & Hrev & Hsp).
  assert (Hsplit : s = rev (trimStart (rev s)) ++ rev sp).
  { rewrite <- rev_app_distr, <- Hrev. by rewrite rev_involutive. }
  destruct (rev (trimStart (rev s))) as [|c r] eqn:Hr; [done|].
  rewrite Hsplit in Hs. done.
Qed.

Lemma trimEnd_id s : no_lead (rev s) → trimEnd s = s.
Proof. intros H. unfold trimEnd. by rewrite trimStart_id, rev_involutive. Qed.

Lemma trim_idem s : trim (trim s) = trim s.
Proof.
  unfold trim at 1.
  assert (H1 : no_lead (trim s)) by apply trimEnd_no_lead, trimStart_no_lead.
  rewrite (trimStart_id _ H1). apply trimEnd_id.
  unfold trim, trimEnd. rewrite rev_involutive. apply trimStart_no_lead.
Qed.

Lemma normalizeActor_allow a : normalizeActor a = allow_listed a.
Proof.
  unfold normalizeActor, allow_listed, Js.eqb.
  destruct a as [a|]; cbn; by case_bool_decide; case_decide.
Qed.

Lemma normalizeActor_trim a : normalizeActor (Some (trim a)) = normalizeActor (Some a).
Proof. unfold normalizeActor. cbn. by rewrite trim_idem. Qed.

Lemma records_nil d : records d d [].
Proof. unfold records. by rewrite app_nil_r. Qed.

Lemma records_one d d' eid e :
  task_events d' = task_events d ++ [(eid, e)] → records d d' [e].
Proof. unfold records. intros ->. by rewrite fmap_app. Qed.

Lemma truthy_false s : truthy s = false ↔ s = [].
Proof. by destruct s. Qed.

Lemma truthy_true s : truthy s = true ↔ s ≠ [].
Proof. by destruct s. Qed.

(** A task that is not there: nothing is written. *)
Lemma setStatus_missing now id target actor d :
  tasks d !! id = None →
  run (setStatus now id target actor) d = Some (None, d, []).
Proof. intros H. unfold run, setStatus, bind, db_get, get_db, ret. cbn. by rewrite H. Qed.

Lemma cycleStatus_missing now id actor d :
  tasks d !! id = None →
  run (cycleStatus now id actor) d = Some (None, d, []).
Proof. intros H. unfold run, cycleStatus, bind, db_get, get_db, ret. cbn. by rewrite H. Qed.

Lemma updateDescription_missing now id text actor d :
  tasks d !! id = None →
  run (updateDescription now id text actor) d = Some (tt, d, []).
Proof.
  intros H. unfold run, updateDescription, bind, db_get, get_db, ret. cbn.
  by rewrite H.
Qed.

Lemma create_run now args d :
  (trim (c_title args) = [] → run (create now args) d = Some (None, d, []))
  ∧ (trim (c_title args) ≠ [] →
     ∃ tid eid d',
       run (create now args) d
       = Some (Some tid, d', [WInsert TTasks tid; WInsert TTaskEvents eid])
       ∧ task_events d'
         = task_events d
           ++ [(eid, mkEvent tid task_created (normalizeActor (c_actor args))
                             payload_empty now)]).
Proof.
  split.
  - intros Ht. unfold run, create. by rewrite Ht.
  - intros Ht. unfold run, create.
    apply truthy_true in Ht. rewrite Ht. cbn [negb].
    unfold bind at 1.
    assert (∃ o, (match c_order args with
                  | Some o => ret o
                  | None => getNextOrder (normalizeLegacyStatus (c_status args))
                  end) (mkCtx d []) = Some (o, mkCtx d [])) as [o ->].
    { destruct (c_order args) as [o|]; [by exists o|].
      destruct (getNextOrder_run (normalizeLegacyStatus (c_status args))
                  (mkCtx d [])) as (o & Ho & _). by exists o. }
    cbn. eexists _, _, _. split; reflexivity.
Qed.

Lemma send_run now taskId text author d :
  (trim text = [] ∨ trim author = [] →
     run (send now taskId text author) d = Some (None, d, []))
  ∧ (trim text ≠ [] → trim author ≠ [] →
     ∃ mid eid d',
       run (send now taskId text author) d
       = Some (Some mid, d', [WInsert TMessages mid; WInsert TTaskEvents eid])
       ∧ tasks d' = tasks d
       ∧ messages d'
         = messages d ++ [(mid, mkMessage taskId (trim text) (trim author) now)]
       ∧ task_events d'
         = task_events d
           ++ [(eid, mkEvent taskId message_sent (normalizeActor (Some author))
                             (payload_preview (take 80 (trim text))) now)]).
Proof.
  split.
  - intros H. unfold run, send.
    assert (negb (truthy (trim text)) || negb (truthy (trim author)) = true) as ->; [|done].
    apply orb_true_iff. destruct H as [H|H]; [left|right];
      apply negb_true_iff; by apply truthy_false.
  - intros Ht Ha. unfold run, send.
    apply truthy_true in Ht, Ha. rewrite Ht, Ha. cbn.
    rewrite normalizeActor_trim.
    eexists _, _, _. split; [reflexivity|]. done.
Qed.

(** Freshness of allocated ids. *)
Lemma new_id_fresh d : new_id d ∉ db_ids d.
Proof.
  intros Hin. unfold new_id in Hin.
  assert (Hle : (length (replicate (S (max_list (length <$> db_ids d))) 107%N)
                 ≤ max_list (length <$> db_ids d))%nat).
  { apply max_list_elem_of_le. by apply list_elem_of_fmap_2. }
  rewrite length_replicate in Hle. lia.
Qed.

Lemma new_id_not_task d : tasks d !! new_id d = None.
Proof.
  destruct (tasks d !! new_id d) as [t|] eqn:Ht; [|done].
  destruct (new_id_fresh d). unfold db_ids. apply elem_of_app. left.
  apply list_elem_of_fmap. exists (new_id d, t). split; [done|].
  by apply elem_of_map_to_list.
Qed.

Lemma appended_refl c : appended c c 0 0.
Proof.
  split_and!; [done..| | |]; exists []; by rewrite app_nil_r.
Qed.

Lemma appended_trans c1 c2 c3 nm ne nm' ne' :
  appended c1 c2 nm ne → appended c2 c3 nm' ne' →
  appended c1 c3 (nm + nm') (ne + ne').
Proof.
  intros (Ht & Ha & (ms & Hm & Hlm) & (es & He & Hle) & (w & Hw & Hd))
         (Ht' & Ha' & (ms' & Hm' & Hlm') & (es' & He' & Hle') & (w' & Hw' & Hd')).
  split_and!; [congruence..| | |].
  - exists (ms ++ ms'). rewrite Hm', Hm, <- app_assoc, length_app. split; [done|lia].
  - exists (es ++ es'). rewrite He', He, <- app_assoc, length_app. split; [done|lia].
  - exists (w ++ w'). rewrite Hw', Hw, <- app_assoc. split; [done|].
    by apply Forall_app.
Qed.

Lemma insert_event_appended e c :
  ∃ i c', insert_event e c = Some (i, c') ∧ appended c c' 0 1.
Proof.
  eexists _, _. split.
  { unfold insert_event, bind, get_db, put_db, ret. reflexivity. }
  cbn. split_and!; [done..| | |].
  - exists []. by rewrite app_nil_r.
  - by eexists [_].
  - eexists [_]. split; [done|]. constructor; [|done]. by intros [].
Qed.

Lemma insert_message_appended m c :
  ∃ i c', insert_message m c = Some (i, c') ∧ appended c c' 1 0.
Proof.
  eexists _, _. split.
  { unfold insert_message, bind, get_db, put_db, ret. reflexivity. }
  cbn. split_and!; [done..| | |].
  - by eexists [_].
  - exists []. by rewrite app_nil_r.
  - eexists [_]. split; [done|]. constructor; [|done]. by intros [].
Qed.

Lemma total_ret {A} (P : Ctx → Prop) (a : A) (Q : A → Ctx → Prop) :
  (∀ c, P c → Q a c) → total P (ret a) Q.
Proof. intros H c Hc. exists a, c. split; [done|]. by apply H. Qed.

Lemma total_bind {A B} P (m : Mutation A) Q (k : A → Mutation B) R :
  total P m Q → (∀ a, total (Q a) (k a) R) → total P (bind m k) R.
Proof.
  intros Hm Hk c Hc. destruct (Hm c Hc) as (a & c1 & Hrun & Hq).
  destruct (Hk a c1 Hq) as (b & c2 & Hrun' & Hr).
  exists b, c2. split; [|done]. unfold bind. by rewrite Hrun.
Qed.

Lemma total_insert_event c0 nm ne e :
  total (λ c, appended c0 c nm ne) (insert_event e)
        (λ _ c, appended c0 c nm (S ne)).
Proof.
  intros c Hc. destruct (insert_event_appended e c) as (i & c' & Hrun & Happ).
  exists i, c'. split; [done|].
  pose proof (appended_trans _ _ _ _ _ _ _ Hc Happ) as H.
  by rewrite Nat.add_0_r, Nat.add_1_r in H.
Qed.

Lemma total_insert_message c0 nm ne m :
  total (λ c, appended c0 c nm ne) (insert_message m)
        (λ _ c, appended c0 c (S nm) ne).
Proof.
  intros c Hc. destruct (insert_message_appended m c) as (i & c' & Hrun & Happ).
  exists i, c'. split; [done|].
  pose proof (appended_trans _ _ _ _ _ _ _ Hc Happ) as H.
  by rewrite Nat.add_0_r, Nat.add_1_r in H.
Qed.

Lemma total_for_acc {A St} c0 (xs : list A) (body : St → A → Mutation St) :
  (∀ nm ne s x, total (λ c, appended c0 c nm ne) (body s x)
                      (λ _ c, appended c0 c (S nm) (S ne))) →
  ∀ nm ne s, total (λ c, appended c0 c nm ne) (for_acc xs s body)
                   (λ _ c, appended c0 c (nm + length xs) (ne + length xs)).
Proof.
  intros Hbody. induction xs as [|x xs IH]; intros nm ne s.
  - apply total_ret. intros c Hc. cbn. by rewrite !Nat.add_0_r.
  - cbn [for_acc length]. eapply total_bind; [apply Hbody|].
    intros s'. cbn beta.
    replace (nm + S (length xs))%nat with (S nm + length xs)%nat by lia.
    replace (ne + S (length xs))%nat with (S ne + length xs)%nat by lia.
    apply IH.
Qed.

Lemma db_patch_run i p (c : Ctx) t :
  tasks (db c) !! i = Some t →
  db_patch i p c
  = Some (tt, mkCtx (set_tasks (db c) (<[i := apply_patch p t]> (tasks (db c))))
                    (journal c ++ [WPatch TTasks i])).
Proof. intros Ht. unfold db_patch, bind, get_db. cbn. by rewrite Ht. Qed.

Lemma seed_task_run baseTime task c :
  ∃ c', seed_task baseTime task c = Some (tt, c') ∧ seeded_one task c c'.
Proof.
  unfold seed_task. unfold bind at 1.
  set (tid := new_id (db c)).
  set (T := mkTask _ _ _ _ _ _).
  assert (Hins : insert_task T c
                 = Some (tid, mkCtx (set_tasks (db c) (<[tid := T]> (tasks (db c))))
                                    (journal c ++ [WInsert TTasks tid]))) by done.
  rewrite Hins.
  set (c1 := mkCtx _ _).
  match goal with |- ∃ c', ?m c1 = _ ∧ _ =>
    assert (Htot : total (λ c', appended c1 c' 0 0) m
                     (λ _ c', seeded_one task c c')) end.
  { eapply total_bind; [apply total_insert_event|]. intros ?.
    eapply total_bind with
      (Q := λ _ c', appended c1 c' 0
              (1 + match st_statusFrom task, st_statusOffset task with
                   | Some _, Some _ => 1 | _, _ => 0 end)).
    { destruct (st_statusFrom task), (st_statusOffset task);
        try (apply total_ret; by intros).
      eapply total_bind; [apply total_insert_event|].
      intros ?. apply total_ret; by intros. }
    intros u1.
    eapply total_bind with
      (Q := λ _ c', appended c1 c' 0
              (1 + match st_statusFrom task, st_statusOffset task with
                   | Some _, Some _ => 1 | _, _ => 0 end
                 + match st_description task, st_descriptionOffset task with
                   | Some s, Some _ => if truthy s then 1 else 0 | _, _ => 0 end)).
    { destruct (st_description task) as [s|], (st_descriptionOffset task);
        try (apply total_ret; intros; by rewrite Nat.add_0_r).
      destruct (truthy s); [|apply total_ret; intros; by rewrite Nat.add_0_r].
      eapply total_bind; [apply total_insert_event|].
      intros ?. apply total_ret. intros c' Hc'. by rewrite Nat.add_1_r. }
    intros u2.
    eapply total_bind with
      (Q := λ _ c', appended c1 c' (length (seed_messages task))
                             (seed_event_count task)).
    { unfold seed_event_count, seed_messages.
      destruct (st_messages task) as [msgs|]; cbn [default].
      - apply (total_for_acc c1 msgs) with (nm := 0%nat).
        intros nm ne s x.
        eapply total_bind; [apply total_insert_message|]. intros ?.
        eapply total_bind; [apply total_insert_event|]. intros ?.
        apply total_ret; by intros.
      - apply total_ret. intros c' Hc'. cbn [length]. by rewrite Nat.add_0_r. }
    intros u3 c2 (Ht & Ha & Hm & He & (w & Hw & Hd)).
    assert (Htid : tasks (db c2) !! tid = Some T)
      by (rewrite Ht; apply lookup_insert_eq).
    case_bool_decide.
    - rewrite (db_patch_run _ _ _ _ Htid).
      eexists _, _. split; [reflexivity|]. cbn.
      split_and!; [|done..|].
      + eexists. rewrite Ht. cbn. by rewrite insert_insert_eq.
      + exists ([WInsert TTasks tid] ++ w ++ [WPatch TTasks tid]).
        rewrite Hw. cbn. rewrite <- !app_assoc. split; [done|].
        constructor; [by intros []|]. apply Forall_app. split; [done|].
        constructor; [by intros []|done].
    - exists tt, c2. split; [done|].
      split_and!; [|done..|].
      + exists T. by rewrite Ht.
      + exists ([WInsert TTasks tid] ++ w). rewrite Hw. cbn.
        rewrite <- !app_assoc. split; [done|].
        constructor; [by intros []|done]. }
  destruct (Htot c1 (appended_refl c1)) as ([] & c' & Hrun & Hs).
  by exists c'.
Qed.

Lemma seed_tasks_run baseTime ts : ∀ c,
  ∃ c', for_of ts (seed_task baseTime) c = Some (tt, c') ∧ seeded ts c c'.
Proof.
  induction ts as [|task ts IH]; intros c.
  - exists c. split; [done|].
    split_and!; [done|cbn; lia|done| | |]; exists []; by rewrite app_nil_r.
  - destruct (seed_task_run baseTime task c)
      as (c1 & Hrun1 & ([t' Ht] & Ha & (ms & Hm & Hlm) & (es & He & Hle)
                        & (w & Hw & Hd))).
    destruct (IH c1) as (c' & Hrun & (Hk & Hs & Ha' & (ms' & Hm' & Hlm')
                                     & (es' & He' & Hle') & (w' & Hw' & Hd'))).
    exists c'. split.
    { cbn [for_of]. unfold bind. by rewrite Hrun1. }
    split_and!.
    + intros i t Hi. apply Hk. rewrite Ht.
      rewrite lookup_insert_ne; [done|].
      intros <-. by rewrite new_id_not_task in Hi.
    + rewrite Hs, Ht, map_size_insert_None by apply new_id_not_task.
      cbn [length]. lia.
    + congruence.
    + exists (ms ++ ms'). rewrite Hm', Hm, <- app_assoc, length_app, Hlm, Hlm'.
      done.
    + exists (es ++ es'). rewrite He', He, <- app_assoc, length_app, Hle, Hle'.
      done.
    + exists (w ++ w'). rewrite Hw', Hw, <- app_assoc. split; [done|].
      by apply Forall_app.
Qed.

Lemma seeded_doc_elem d r : seeded_doc d = Some r → r ∈ app_state d.
Proof.
  unfold seeded_doc. destruct (list_find _ _) as [[k r']|] eqn:Hf; [|done].
  intros [= <-]. apply list_find_Some in Hf as (Hk & _).
  by eapply list_elem_of_lookup_2.
Qed.

Lemma template_counts language :
  length (demoSeedTemplates language) = 7%nat
  ∧ sum_list (length ∘ seed_messages <$> demoSeedTemplates language) = 4%nat
  ∧ sum_list (seed_event_count <$> demoSeedTemplates language) = 20%nat.
Proof. destruct language; compute_done. Qed.

(** The last step of [seedDemoData]: the flag row is patched or created. *)
Lemma set_flag_run now (r : option (Id * AppState)) (c : Ctx) :
  (∀ x, r = Some x → x.1 ∈ (app_state (db c)).*1) →
  ∃ c', (match r with
         | Some r => patch_app_state r.1 true now
         | None => insert_app_state (mkAppState DEMO_SEED_KEY true now now);; ret tt
         end) c = Some (tt, c')
        ∧ tasks (db c') = tasks (db c)
        ∧ messages (db c') = messages (db c)
        ∧ task_events (db c') = task_events (db c)
        ∧ ∃ w, journal c' = journal c ++ [w] ∧ ¬ is_delete w.
Proof.
  intros Hr. destruct r as [r|].
  - unfold patch_app_state, bind, get_db. cbn.
    rewrite bool_decide_eq_true_2 by (by apply Hr).
    eexists. split; [reflexivity|]. cbn. split_and!; [done..|].
    eexists. split; [done|]. by intros [].
  - eexists. split; [reflexivity|]. cbn. split_and!; [done..|].
    eexists. split; [done|]. by intros [].
Qed.

(** The bulk delete. *)
Lemma delete_tasks_run l : NoDup l → ∀ (c : Ctx),
  (∀ i, i ∈ l ↔ is_Some (tasks (db c) !! i)) →
  ∃ c', for_of l db_delete c = Some (tt, c')
        ∧ tasks (db c') = ∅
        ∧ messages (db c') = messages (db c)
        ∧ task_events (db c') = task_events (db c)
        ∧ app_state (db c') = app_state (db c)
        ∧ journal c' = journal c ++ (WDelete TTasks <$> l).
Proof.
  induction 1 as [|i l Hi Hnd IH]; intros c Hdom.
  - exists c. split; [done|]. split_and!; [|done..|by rewrite app_nil_r].
    apply map_empty. intros i. apply eq_None_not_Some. rewrite <- Hdom.
    apply not_elem_of_nil.
  - destruct (proj1 (Hdom i)) as [t Ht]; [left|].
    cbn [for_of]. unfold bind at 1.
    assert (Hdel : db_delete i c
                   = Some (tt, mkCtx (set_tasks (db c) (delete i (tasks (db c))))
                                     (journal c ++ [WDelete TTasks i]))).
    { unfold db_delete, bind, get_db. cbn. by rewrite Ht. }
    rewrite Hdel.
    destruct (IH (mkCtx (set_tasks (db c) (delete i (tasks (db c))))
                        (journal c ++ [WDelete TTasks i])))
      as (c' & Hrun & Ht' & Hm & He & Ha & Hj).
    { intros j. cbn. rewrite lookup_delete_is_Some, <- Hdom. split.
      - intros Hj. split; [by intros ->|by right].
      - intros [Hne [->|Hj]%elem_of_cons]; done. }
    exists c'. split; [done|]. split_and!; [done..|].
    rewrite Hj. cbn. by rewrite <- app_assoc.
Qed.

Lemma remove_row_head {A} i (x : A) rows :
  i ∉ rows.*1 → remove_row i ((i, x) :: rows) = rows.
Proof.
  intros Hi. unfold remove_row. rewrite filter_cons_False by (cbn; tauto).
  induction rows as [|[j y] rows IH]; [done|].
  rewrite fmap_cons in Hi. apply not_elem_of_cons in Hi as [Hne Hi].
  cbn in Hne. rewrite filter_cons_True by (cbn; intros ->; by apply Hne).
  by rewrite IH.
Qed.

Lemma delete_messages_run rows : NoDup rows.*1 → ∀ (c : Ctx),
  messages (db c) = rows →
  ∃ c', for_of rows.*1 delete_message c = Some (tt, c')
        ∧ tasks (db c') = tasks (db c)
        ∧ messages (db c') = []
        ∧ task_events (db c') = task_events (db c)
        ∧ app_state (db c') = app_state (db c)
        ∧ journal c' = journal c ++ (WDelete TMessages <$> rows.*1).
Proof.
  induction rows as [|[i x] rows IH]; intros Hnd c Hrows.
  - exists c. split; [done|]. split_and!; [done..|by rewrite app_nil_r].
  - rewrite fmap_cons in Hnd. apply NoDup_cons in Hnd as [Hi Hnd].
    cbn [fmap list_fmap for_of fst]. unfold bind at 1.
    assert (Hdel : delete_message i c
                   = Some (tt, mkCtx (set_messages (db c) rows)
                                     (journal c ++ [WDelete TMessages i]))).
    { unfold delete_message, bind, get_db. cbn. rewrite Hrows.
      rewrite bool_decide_eq_true_2 by (cbn; left).
      by rewrite remove_row_head. }
    rewrite Hdel.
    destruct (IH Hnd (mkCtx (set_messages (db c) rows)
                            (journal c ++ [WDelete TMessages i])))
      as (c' & Hrun & Ht' & Hm & He & Ha & Hj); [done|].
    exists c'. split; [done|]. split_and!; [done..|].
    rewrite Hj. cbn. by rewrite <- app_assoc.
Qed.

Lemma delete_events_run rows : NoDup rows.*1 → ∀ (c : Ctx),
  task_events (db c) = rows →
  ∃ c', for_of rows.*1 delete_event c = Some (tt, c')
        ∧ tasks (db c') = tasks (db c)
        ∧ messages (db c') = messages (db c)
        ∧ task_events (db c') = []
        ∧ app_state (db c') = app_state (db c)
        ∧ journal c' = journal c ++ (WDelete TTaskEvents <$> rows.*1).
Proof.
  induction rows as [|[i x] rows IH]; intros Hnd c Hrows.
  - exists c. split; [done|]. split_and!; [done..|by rewrite app_nil_r].
  - rewrite fmap_cons in Hnd. apply NoDup_cons in Hnd as [Hi Hnd].
    cbn [fmap list_fmap for_of fst]. unfold bind at 1.
    assert (Hdel : delete_event i c
                   = Some (tt, mkCtx (set_task_events (db c) rows)
                                     (journal c ++ [WDelete TTaskEvents i]))).
    { unfold delete_event, bind, get_db. cbn. rewrite Hrows.
      rewrite bool_decide_eq_true_2 by (cbn; left).
      by rewrite remove_row_head. }
    rewrite Hdel.
    destruct (IH Hnd (mkCtx (set_task_events (db c) rows)
                            (journal c ++ [WDelete TTaskEvents i])))
      as (c' & Hrun & Ht' & Hm & He & Ha & Hj); [done|].
    exists c'. split; [done|]. split_and!; [done..|].
    rewrite Hj. cbn. by rewrite <- app_assoc.
Qed.

Lemma wipe_run (c : Ctx) :
  NoDup (messages (db c)).*1 → NoDup (task_events (db c)).*1 →
  ∃ c', wipe c = Some (tt, c')
        ∧ tasks (db c') = ∅ ∧ messages (db c') = [] ∧ task_events (db c') = []
        ∧ app_state (db c') = app_state (db c)
        ∧ journal c'
          = journal c ++ (WDelete TTasks <$> (map_to_list (tasks (db c))).*1)
              ++ (WDelete TMessages <$> (messages (db c)).*1)
              ++ (WDelete TTaskEvents <$> (task_events (db c)).*1).
Proof.
  intros Hm He. unfold wipe. unfold bind at 1. unfold get_db at 1.
  unfold bind at 1.
  destruct (delete_tasks_run (map_to_list (tasks (db c))).*1
              (NoDup_fst_map_to_list _) c)
    as (c1 & -> & Ht1 & Hm1 & He1 & Ha1 & Hj1).
  { intros i. rewrite list_elem_of_fmap. split.
    - intros ([j t] & -> & Hin). exists t. by apply elem_of_map_to_list.
    - intros [t Ht]. exists (i, t). split; [done|]. by apply elem_of_map_to_list. }
  unfold bind at 1. unfold get_db at 1. unfold bind at 1.
  destruct (delete_messages_run (messages (db c1)) (ltac:(by rewrite Hm1)) c1 eq_refl)
    as (c2 & -> & Ht2 & Hm2 & He2 & Ha2 & Hj2).
  unfold bind at 1. unfold get_db at 1.
  destruct (delete_events_run (task_events (db c2))
              (ltac:(by rewrite He2, He1)) c2 eq_refl)
    as (c3 & -> & Ht3 & Hm3 & He3 & Ha3 & Hj3).
  exists c3. split; [done|]. split_and!; try congruence.
  rewrite Hj3, Hj2, Hj1, He2, He1, Hm1. by rewrite <- !app_assoc.
Qed.

Lemma seedDemoData_unfold now language (c : Ctx) :
  seedDemoData now language c
  = ((if seeded_flag (db c) then wipe else ret tt);;
     for_of (demoSeedTemplates language) (seed_task (now - minutes 85));;
     match seeded_doc (db c) with
     | Some r => patch_app_state r.1 true now
     | None => insert_app_state (mkAppState DEMO_SEED_KEY true now now);; ret tt
     end) c.
Proof. done. Qed.

(** ** The claims about the backend *)

(** Claim C1 (as amended).  When [reorder] is given columns whose listed
    ids all name existing tasks, the call completes and a listed task ends
    where its last occurrence among the columns puts it: its order is the
    0-based index of that occurrence in the column's [orderedIds], its
    status is the column's normalized status and [updatedAt] is the time of
    the call, whatever status and order the task had before; title,
    description and [createdAt] are kept.  When an id is listed once, that
    occurrence is the last. *)
Theorem reorder_places_last_occurrence now args d pre col post before id after t :
  columns args = pre ++ col :: post →
  orderedIds col = before ++ id :: after →
  id ∉ after ++ listed post →
  Forall (λ j, is_Some (tasks d !! j)) (listed (columns args)) →
  tasks d !! id = Some t →
  ∃ d' w, run (reorder now args) d = Some (tt, d', w)
          ∧ tasks d' !! id
            = Some (mkTask (title t)
                           (Canon (normalizeLegacyStatus (Some (col_status col))))
                           (description t)
                           (Z.of_nat (length before))
                           (createdAt t)
                           now).
Proof.
  intros Hcols Hcol Hlast Hex Ht.
  destruct (reorder_run now args d Hex) as (d' & w & Hrun & Htasks & _).
  exists d', w. split; [done|].
  rewrite Htasks, Hcols.
  destruct (all_patches_split pre col post _ _ _ Hcol) as (ps & qs & -> & Hqs).
  rewrite patch_tasks_last by (by rewrite Hqs).
  by rewrite Ht.
Qed.

(** [reorder] with columns [[{status: done, orderedIds: [B, A]}]]: task A,
    a backlog task before the call, ends with order 1 and status done. *)
Lemma reorder_places_last_occurrence_witness :
  ∃ d' w, run (reorder 50 (no_meta [mkColumn (Canon Done) [id_B; id_A]])) board
          = Some (tt, d', w)
          ∧ tasks d' !! id_A
            = Some (mkTask (lit "Write") (Canon Done) (lit "") 1 1 50).
Proof.
  apply (reorder_places_last_occurrence 50
           (no_meta [mkColumn (Canon Done) [id_B; id_A]]) board
           [] (mkColumn (Canon Done) [id_B; id_A]) [] [id_B] id_A [] task_A).
  - reflexivity.
  - reflexivity.
  - compute_done.
  - compute_done.
  - compute_done.
Defined.

(** Claim C1 as stated fails when an id is listed twice: with columns
    [[{backlog, [A]}; {done, [A]}]] task A is listed at index 0 of the
    backlog column, yet it ends in the done column. *)
Lemma reorder_listed_twice :
  ∃ d' w, run (reorder 50 (no_meta [mkColumn (Canon Backlog) [id_A];
                                    mkColumn (Canon Done) [id_A]])) board
          = Some (tt, d', w)
          ∧ tasks d' !! id_A
            = Some (mkTask (lit "Write") (Canon Done) (lit "") 0 1 50).
Proof. eexists _, _. split; compute_done. Qed.

(** Claim C2 (as amended).  Let a call to [reorder] list existing tasks, no
    id twice, and let [col] be the only supplied column with its normalized
    status [s].  If every task that has status [s] before the call is
    listed in some supplied column, then after the call the orders of the
    tasks with status [s] are exactly 0, 1, ..., n-1, each once, where n is
    the number of ids listed in [col]. *)
Theorem reorder_complete_column_contiguous now args d pre col post :
  let s := normalizeLegacyStatus (Some (col_status col)) in
  columns args = pre ++ col :: post →
  NoDup (listed (columns args)) →
  Forall (λ j, is_Some (tasks d !! j)) (listed (columns args)) →
  Forall (λ c', normalizeLegacyStatus (Some (col_status c')) ≠ s) (pre ++ post) →
  map_Forall (λ j t, in_column s t → j ∈ listed (columns args)) (tasks d) →
  ∃ d' w, run (reorder now args) d = Some (tt, d', w)
          ∧ column_orders s d' ≡ₚ seqZ 0 (Z.of_nat (length (orderedIds col))).
Proof.
  intros s Hcols Hnd Hex Hother Hcomplete.
  destruct (reorder_run now args d Hex) as (d' & w & Hrun & Htasks & _).
  exists d', w. split; [done|].
  set (ps := all_patches (columns args)) in *.
  assert (Hps : NoDup ps.*1) by (unfold ps; by rewrite all_patches_fst).
  rewrite Forall_forall in Hex. rewrite Forall_forall in Hother.
  (* where a task listed in [col] ends *)
  assert (Hcolumn : ∀ (k : nat) id, orderedIds col !! k = Some id →
            ∃ t, tasks d !! id = Some t
                 ∧ tasks d' !! id = Some (placed now s (Z.of_nat k) t)).
  { intros k id Hk.
    assert (Hin : (id, (s, Z.of_nat k)) ∈ ps).
    { apply elem_of_all_patches. exists col, k. split_and!; try done.
      rewrite Hcols. apply elem_of_app. right. left. }
    destruct (Hex id) as [t Ht].
    { rewrite <- all_patches_fst. apply list_elem_of_fmap.
      by exists (id, (s, Z.of_nat k)). }
    exists t. split; [done|].
    by rewrite Htasks, (patch_tasks_listed now ps id s _ _ Hps Hin), Ht. }
  (* the tasks with status [s] are the tasks listed in [col] *)
  assert (Hmem : ∀ id, id ∈ (column s (tasks d')).*1 ↔ id ∈ orderedIds col).
  { intros id. unfold column. rewrite list_elem_of_fmap. split.
    - intros ([id' t'] & -> & [Hs Hin]%list_elem_of_filter). cbn in *.
      apply elem_of_map_to_list in Hin.
      destruct (decide (id' ∈ listed (columns args))) as [Hl|Hl].
      + destruct (listed_has_patch _ _ Hl) as (s' & i & Hp).
        fold ps in Hp.
        rewrite Htasks, (patch_tasks_listed now ps id' s' i _ Hps Hp) in Hin.
        destruct (tasks d !! id') as [t|]; simplify_eq/=.
        apply in_column_placed in Hs.
        apply elem_of_all_patches in Hp as (c & k & Hc & Hk & -> & ->).
        rewrite Hcols in Hc.
        apply elem_of_app in Hc as [Hc|[->|Hc]%elem_of_cons].
        * exfalso. apply (Hother c); [apply elem_of_app; by left|done].
        * by eapply list_elem_of_lookup_2.
        * exfalso. apply (Hother c); [apply elem_of_app; by right|done].
      + rewrite Htasks, patch_tasks_other in Hin
          by (unfold ps; by rewrite all_patches_fst).
        exfalso. apply Hl. by apply (Hcomplete id' t').
    - intros [k Hk]%list_elem_of_lookup.
      destruct (Hcolumn k id Hk) as (t & _ & Ht').
      exists (id, placed now s (Z.of_nat k) t). split; [done|].
      apply list_elem_of_filter. split.
      + by apply in_column_placed.
      + by apply elem_of_map_to_list. }
  assert (Hperm : (column s (tasks d')).*1 ≡ₚ orderedIds col).
  { apply NoDup_Permutation; [|by eapply NoDup_listed_column; rewrite <- Hcols|done].
    eapply sublist_NoDup; [apply (NoDup_fst_map_to_list (tasks d'))|].
    apply fmap_sublist. apply sublist_filter. }
  set (ord := λ id : Id, from_option order 0 (tasks d' !! id)).
  assert (Hord : column_orders s d' = ord <$> (column s (tasks d')).*1).
  { unfold column_orders. rewrite <- list_fmap_compose.
    apply list_fmap_ext. intros i [id t] Hi. cbn. unfold ord.
    apply list_elem_of_lookup_2, list_elem_of_filter in Hi as [_ Hi].
    apply elem_of_map_to_list in Hi. by rewrite Hi. }
  rewrite Hord, Hperm.
  assert (Hseq : ord <$> orderedIds col = seqZ 0 (Z.of_nat (length (orderedIds col)))).
  { apply list_eq. intros k. rewrite list_lookup_fmap.
    destruct (orderedIds col !! k) as [id|] eqn:Hk; cbn.
    - destruct (Hcolumn k id Hk) as (t & _ & Ht').
      unfold ord. rewrite Ht'. cbn.
      apply lookup_lt_Some in Hk.
      rewrite lookup_seqZ_lt by lia. f_equal; lia.
    - apply lookup_ge_None in Hk. rewrite lookup_seqZ_ge; [done|lia]. }
  by rewrite Hseq.
Qed.

(** The three columns of a board, sent in full. *)
Lemma reorder_complete_column_contiguous_witness :
  ∃ d' w, run (reorder 50 (no_meta [mkColumn (Canon Backlog) [];
                                    mkColumn InDashProgress [id_B];
                                    mkColumn (Canon Done) [id_A; id_C]])) board
          = Some (tt, d', w)
          ∧ column_orders Done d' ≡ₚ seqZ 0 2.
Proof.
  apply (reorder_complete_column_contiguous 50
           (no_meta [mkColumn (Canon Backlog) [];
                     mkColumn InDashProgress [id_B];
                     mkColumn (Canon Done) [id_A; id_C]]) board
           [mkColumn (Canon Backlog) []; mkColumn InDashProgress [id_B]]
           (mkColumn (Canon Done) [id_A; id_C]) []).
  - reflexivity.
  - compute_done.
  - compute_done.
  - compute_done.
  - compute_done.
Defined.

(** Claim C2 as stated fails when a column is sent in part: task C is in
    the done column with order 0 and is not listed; moving A into the done
    column at index 0 leaves two done tasks with order 0. *)
Lemma reorder_partial_column_collides :
  ∃ d' w, run (reorder 50 (no_meta [mkColumn (Canon Done) [id_A]])) board
          = Some (tt, d', w)
          ∧ column_orders Done d' ≡ₚ [0; 0]
          ∧ ¬ NoDup (column_orders Done d').
Proof.
  eexists _, _. split; [compute_done|]. split.
  - vm_compute. apply Permutation_refl || apply perm_swap.
  - compute_done.
Qed.

(** Claim C3 (as amended).  A call to [reorder] whose listed ids all name
    existing tasks records, after the events already there: one
    [task_reordered] event carrying [fromIndex] and [toIndex] exactly when
    [movedTaskId], [fromIndex] and [toIndex] are given and the two indices
    differ; then one [task_status_changed] event exactly when [movedTaskId],
    [fromStatus] and [toStatus] are given and the two statuses normalize to
    different values; and nothing else.  The tasks after the call depend on
    the columns alone: any other metadata gives the same tasks. *)
Theorem reorder_audit_events now args d :
  Forall (λ j, is_Some (tasks d !! j)) (listed (columns args)) →
  (∀ m, movedTaskId args = Some m → valid_id m) →
  ∃ d' w,
    run (reorder now args) d = Some (tt, d', w)
    ∧ (task_events d').*2
      = (task_events d).*2
        ++ match movedTaskId args, fromIndex args, toIndex args with
           | Some m, Some fi, Some ti =>
               if decide (fi = ti) then []
               else [mkEvent m task_reordered (normalizeActor (r_actor args))
                             (payload_index fi ti) now]
           | _, _, _ => []
           end
        ++ match movedTaskId args, fromStatus args, toStatus args with
           | Some m, Some fs, Some ts =>
               let nf := normalizeLegacyStatus (Some fs) in
               let nt := normalizeLegacyStatus (Some ts) in
               if decide (nf = nt) then []
               else [mkEvent m task_status_changed (normalizeActor (r_actor args))
                             (payload_status nf nt) now]
           | _, _, _ => []
           end
    ∧ ∀ args', columns args' = columns args →
        ∃ d'' w', run (reorder now args') d = Some (tt, d'', w')
                  ∧ tasks d'' = tasks d'.
Proof.
  intros Hex Hid.
  destruct (reorder_run now args d Hex) as (d' & w & Hrun & Htasks & _ & _ & Hev).
  exists d', w. split; [done|]. split.
  - rewrite Hev. f_equal. f_equal.
    + unfold reordered_event.
      destruct (movedTaskId args) as [m|] eqn:Hm; [|done].
      destruct (fromIndex args) as [fi|]; [|done].
      destruct (toIndex args) as [ti|]; [|done].
      assert (truthy m = true) as -> by (specialize (Hid m eq_refl); by destruct m).
      cbn. destruct (Z.eqb_spec fi ti); by case_decide.
    + unfold status_event.
      destruct (movedTaskId args) as [m|] eqn:Hm; [|done].
      destruct (fromStatus args) as [fs|]; [|done].
      destruct (toStatus args) as [ts|]; [|done].
      assert (truthy m = true) as -> by (specialize (Hid m eq_refl); by destruct m).
      cbn. repeat case_decide; try done;
        by rewrite ?bool_decide_eq_true_2, ?bool_decide_eq_false_2 by done.
  - intros args' Hcols.
    destruct (reorder_run now args' d) as (d'' & w' & Hrun' & Htasks' & _).
    { by rewrite Hcols. }
    exists d'', w'. split; [done|]. by rewrite Htasks', Htasks, Hcols.
Qed.

(** A move from index 0 of the backlog column to index 1 of the done
    column records both events. *)
Lemma reorder_audit_events_witness :
  ∃ d' w,
    run (reorder 50 (mkReorderArgs [mkColumn (Canon Done) [id_A; id_C]]
                       (Some id_A) (Some Active) (Some Completed) (Some 0) (Some 1)
                       (Some (lit "demo-user")))) board
    = Some (tt, d', w)
    ∧ (task_events d').*2
      = [mkEvent id_A task_reordered (lit "demo-user") (payload_index 0 1) 50;
         mkEvent id_A task_status_changed (lit "demo-user")
                 (payload_status Backlog Done) 50].
Proof.
  destruct (reorder_audit_events 50
              (mkReorderArgs [mkColumn (Canon Done) [id_A; id_C]]
                 (Some id_A) (Some Active) (Some Completed) (Some 0) (Some 1)
                 (Some (lit "demo-user"))) board)
    as (d' & w & Hrun & Hev & _).
  - compute_done.
  - intros m [= <-]. compute_done.
  - exists d', w. split; [exact Hrun|]. rewrite Hev. reflexivity.
Defined.

(** Claim C3 as stated fails without [movedTaskId]: [fromStatus] and
    [toStatus] are given and normalize to backlog and done, and no event is
    recorded. *)
Lemma reorder_status_event_without_moved_task :
  ∃ d' w, run (reorder 50 (mkReorderArgs [] None (Some (Canon Backlog))
                                         (Some (Canon Done)) None None None)) board
          = Some (tt, d', w)
          ∧ task_events d' = [].
Proof. eexists _, _. split; compute_done. Qed.

(** Claim C4 (as amended).  For an existing task, [setStatus] is a no-op
    when the target normalizes to the task's normalized status and the
    stored status is canonical: it returns the current status, issues no
    write and leaves the database as it was.  Otherwise it returns the
    target status after exactly one patch and one inserted event: the task
    gets the target status, [updatedAt] of the call and the order of the
    prepend rule, which is the smallest order stored under the target
    status less one, computed as a number, and 0 when there is none; the
    event is a [task_status_changed] with the normalized [from] and [to].
    When the orders stored under the target status are safe integers, the
    new order is one below the smallest of them, so the task comes first. *)
Theorem setStatus_noop_or_prepend now id target actor d t :
  tasks d !! id = Some t →
  let current := normalizeLegacyStatus (Some (status t)) in
  let tgt := normalizeLegacyStatus (Some target) in
  (current = tgt ∧ status t = Canon current →
     run (setStatus now id target actor) d = Some (Some current, d, []))
  ∧ (¬ (current = tgt ∧ status t = Canon current) →
     ∃ d' eid o,
       run (setStatus now id target actor) d
       = Some (Some tgt, d', [WPatch TTasks id; WInsert TTaskEvents eid])
       ∧ next_order tgt (tasks d) o
       ∧ (safe_column tgt (tasks d) → prepend_order tgt (tasks d) o)
       ∧ tasks d' = <[id := mkTask (title t) (Canon tgt) (description t) o
                                   (createdAt t) now]> (tasks d)
       ∧ task_events d'
         = task_events d
           ++ [(eid, mkEvent id task_status_changed (normalizeActor actor)
                             (payload_status current tgt) now)]
       ∧ messages d' = messages d
       ∧ app_state d' = app_state d).
Proof.
  intros Ht current tgt.
  destruct (setStatus_run now id target actor d t Ht) as [Hnoop Hpatch].
  split; [exact Hnoop|]. intros Hdiff.
  destruct (Hpatch Hdiff) as (d' & eid & o & Hrun & Ho & Hrest).
  exists d', eid, o. split; [exact Hrun|]. split; [exact Ho|].
  split; [|exact Hrest]. intros Hsafe. by apply next_order_prepend.
Qed.

(** A canonical backlog task set to backlog is left alone; a task stored
    as active set to backlog is patched and moves in front of the backlog
    task of order 2. *)
Lemma setStatus_noop_or_prepend_witness :
  run (setStatus 50 id_B (Canon Backlog) None) legacy_board
  = Some (Some Backlog, legacy_board, [])
  ∧ ∃ d' eid,
      run (setStatus 50 id_A (Canon Backlog) None) legacy_board
      = Some (Some Backlog, d', [WPatch TTasks id_A; WInsert TTaskEvents eid])
      ∧ tasks d' !! id_A
        = Some (mkTask (lit "Write") (Canon Backlog) (lit "") 1 1 50).
Proof.
  split.
  - apply (setStatus_noop_or_prepend 50 id_B (Canon Backlog) None legacy_board
             (mkTask (lit "Review") (Canon Backlog) (lit "notes") 2 2 2));
      [reflexivity|]. split; reflexivity.
  - destruct (setStatus_noop_or_prepend 50 id_A (Canon Backlog) None legacy_board
                (mkTask (lit "Write") Active (lit "") 4 1 1) eq_refl)
      as [_ Hpatch].
    destruct Hpatch as (d' & eid & o & Hrun & _ & Hpre & Ht & _).
    + intros [_ H]. discriminate H.
    + exists d', eid. split; [exact Hrun|].
      rewrite Ht, lookup_insert_eq. do 2 f_equal.
      assert (Hsafe : safe_column Backlog (tasks legacy_board)) by compute_done.
      destruct (Hpre Hsafe) as [Hlt [(j & u & Hj & Hs & Hu)|[Hnone _]]].
      * destruct (decide (j = id_B)) as [->|Hne].
        -- vm_compute in Hj. injection Hj as <-. cbn in Hu. lia.
        -- destruct (decide (j = id_A)) as [->|Hne'].
           ++ vm_compute in Hj. injection Hj as <-. discriminate Hs.
           ++ unfold legacy_board in Hj. cbn [tasks] in Hj.
              rewrite !lookup_insert_ne, lookup_empty in Hj by done. discriminate Hj.
      * destruct (Hnone id_B (mkTask (lit "Review") (Canon Backlog) (lit "notes") 2 2 2));
          reflexivity.
Defined.

(** The prepend rule at the edge of the safe integers: the done column
    starts at the order -2^53, and a task set to done gets that same order,
    1 being lost in the subtraction; it ties with the first task instead of
    coming before it. *)
Lemma setStatus_at_the_precision_limit :
  ∃ d' w t',
    run (setStatus 50 id_A (Canon Done) None) limit_board
    = Some (Some Done, d', w)
    ∧ tasks d' !! id_A = Some t'
    ∧ status t' = Canon Done
    ∧ order t' = -9007199254740992
    ∧ tasks d' !! id_C
      = Some (mkTask (lit "Ship") (Canon Done) (lit "") (-9007199254740992) 3 3)
    ∧ ¬ prepend_order Done (tasks limit_board) (order t').
Proof.
  eexists _, _, _. split; [vm_compute; reflexivity|].
  split; [vm_compute; reflexivity|].
  split_and!; [reflexivity|reflexivity|vm_compute; reflexivity|].
  intros [Hlt _].
  specialize (Hlt id_C
                (mkTask (lit "Ship") (Canon Done) (lit "") (-9007199254740992) 3 3)
                eq_refl eq_refl).
  cbn in Hlt. lia.
Qed.

(** Claim C5 (as amended).  For a task whose normalized status is backlog,
    three calls to [cycleStatus] return in_progress, done and backlog and
    store those statuses, and each call stores the clock reading it was
    given in [updatedAt]; so [updatedAt] increases strictly over the three
    calls whenever the clock readings do. *)
Theorem cycleStatus_three_times now1 now2 now3 id actor d t :
  tasks d !! id = Some t →
  normalizeLegacyStatus (Some (status t)) = Backlog →
  ∃ d1 d2 d3 w1 w2 w3 t1 t2 t3,
    run (cycleStatus now1 id actor) d = Some (Some InProgress, d1, w1)
    ∧ run (cycleStatus now2 id actor) d1 = Some (Some Done, d2, w2)
    ∧ run (cycleStatus now3 id actor) d2 = Some (Some Backlog, d3, w3)
    ∧ tasks d1 !! id = Some t1 ∧ tasks d2 !! id = Some t2
    ∧ tasks d3 !! id = Some t3
    ∧ status t1 = Canon InProgress ∧ status t2 = Canon Done
    ∧ status t3 = Canon Backlog
    ∧ updatedAt t1 = now1 ∧ updatedAt t2 = now2 ∧ updatedAt t3 = now3
    ∧ (updatedAt t < now1 → now1 < now2 → now2 < now3 →
       updatedAt t < updatedAt t1 < updatedAt t2 ∧ updatedAt t2 < updatedAt t3).
Proof.
  intros Ht Hback.
  destruct (cycleStatus_run now1 id actor d t Ht) as (d1 & e1 & o1 & Hr1 & Ht1 & _).
  rewrite Hback in Hr1, Ht1. cbn [nextStatus] in Hr1, Ht1.
  assert (Hl1 : tasks d1 !! id = Some (mkTask (title t) (Canon InProgress)
                  (description t) o1 (createdAt t) now1))
    by (rewrite Ht1; apply lookup_insert_eq).
  destruct (cycleStatus_run now2 id actor d1 _ Hl1) as (d2 & e2 & o2 & Hr2 & Ht2 & _).
  cbn [status normalizeLegacyStatus nextStatus title description createdAt] in Hr2, Ht2.
  assert (Hl2 : tasks d2 !! id = Some (mkTask (title t) (Canon Done)
                  (description t) o2 (createdAt t) now2))
    by (rewrite Ht2; apply lookup_insert_eq).
  destruct (cycleStatus_run now3 id actor d2 _ Hl2) as (d3 & e3 & o3 & Hr3 & Ht3 & _).
  cbn [status normalizeLegacyStatus nextStatus title description createdAt] in Hr3, Ht3.
  assert (Hl3 : tasks d3 !! id = Some (mkTask (title t) (Canon Backlog)
                  (description t) o3 (createdAt t) now3))
    by (rewrite Ht3; apply lookup_insert_eq).
  eexists d1, d2, d3, _, _, _, _, _, _.
  split_and!; try done; cbn; lia.
Qed.

(** Three calls at times 10, 20 and 30. *)
Lemma cycleStatus_three_times_witness :
  ∃ d1 d2 d3 w1 w2 w3 t1 t2 t3,
    run (cycleStatus 10 id_A None) board = Some (Some InProgress, d1, w1)
    ∧ run (cycleStatus 20 id_A None) d1 = Some (Some Done, d2, w2)
    ∧ run (cycleStatus 30 id_A None) d2 = Some (Some Backlog, d3, w3)
    ∧ tasks d1 !! id_A = Some t1 ∧ tasks d2 !! id_A = Some t2
    ∧ tasks d3 !! id_A = Some t3
    ∧ updatedAt t1 = 10 ∧ updatedAt t2 = 20 ∧ updatedAt t3 = 30.
Proof.
  destruct (cycleStatus_three_times 10 20 30 id_A None board task_A)
    as (d1 & d2 & d3 & w1 & w2 & w3 & t1 & t2 & t3 & H1 & H2 & H3 & L1 & L2 & L3
        & _ & _ & _ & U1 & U2 & U3 & _).
  - reflexivity.
  - reflexivity.
  - exists d1, d2, d3, w1, w2, w3, t1, t2, t3.
    split_and!; [exact H1|exact H2|exact H3|exact L1|exact L2|exact L3
                |exact U1|exact U2|exact U3].
Defined.

(** Claim C5 as stated fails when two calls read the same clock value:
    both change the status and [updatedAt] stays at 100. *)
Lemma cycleStatus_same_clock_reading :
  ∃ d1 d2 w1 w2 t1 t2,
    run (cycleStatus 100 id_A None) board = Some (Some InProgress, d1, w1)
    ∧ run (cycleStatus 100 id_A None) d1 = Some (Some Done, d2, w2)
    ∧ tasks d1 !! id_A = Some t1 ∧ tasks d2 !! id_A = Some t2
    ∧ ¬ (updatedAt t1 < updatedAt t2).
Proof.
  eexists _, _, _, _, _, _.
  split_and!; [vm_compute; reflexivity..|]. vm_compute. by intros [=].
Qed.

(** Claim C6 (as amended).  For an existing task and a description that
    differs from the stored one, the first [updateDescription] issues one
    patch (description and [updatedAt]) and inserts one
    [task_description_updated] event whose preview is the first 80
    characters of the trimmed text, and a second call with the same text is
    a no-op: one patch and one event in total.  When the description
    equals the stored one, the call is a no-op from the start. *)
Theorem updateDescription_twice now1 now2 id text actor d t :
  tasks d !! id = Some t →
  (description t ≠ text →
     ∃ d1 eid,
       run (updateDescription now1 id text actor) d
       = Some (tt, d1, [WPatch TTasks id; WInsert TTaskEvents eid])
       ∧ tasks d1 = <[id := mkTask (title t) (status t) text (order t)
                                   (createdAt t) now1]> (tasks d)
       ∧ task_events d1
         = task_events d
           ++ [(eid, mkEvent id task_description_updated (normalizeActor actor)
                             (payload_preview (take 80 (trim text))) now1)]
       ∧ run (updateDescription now2 id text actor) d1 = Some (tt, d1, []))
  ∧ (description t = text →
     run (updateDescription now1 id text actor) d = Some (tt, d, [])).
Proof. apply updateDescription_run. Qed.

(** A new description, sent twice. *)
Lemma updateDescription_twice_witness :
  ∃ d1 eid,
    run (updateDescription 50 id_A (lit "  draft the outline ") None) board
    = Some (tt, d1, [WPatch TTasks id_A; WInsert TTaskEvents eid])
    ∧ task_events d1
      = [(eid, mkEvent id_A task_description_updated (lit "anonymous")
                       (payload_preview (lit "draft the outline")) 50)]
    ∧ run (updateDescription 60 id_A (lit "  draft the outline ") None) d1
      = Some (tt, d1, []).
Proof.
  destruct (updateDescription_twice 50 60 id_A (lit "  draft the outline ") None
              board task_A eq_refl) as [Hfirst _].
  destruct Hfirst as (d1 & eid & Hrun & _ & Hev & Hagain); [compute_done|].
  exists d1, eid. split_and!; [exact Hrun|exact Hev|exact Hagain].
Defined.

(** Claim C6 as stated fails for the stored description: task B has the
    description notes, and sending it twice issues no patch and records no
    event at all. *)
Lemma updateDescription_same_as_stored :
  run (updateDescription 50 id_B (lit "notes") None) board = Some (tt, board, [])
  ∧ run (updateDescription 60 id_B (lit "notes") None) board = Some (tt, board, []).
Proof. split; reflexivity. Qed.

(** Claim C7 (as amended).  Every event recorded by [create], [setStatus],
    [cycleStatus], [updateDescription], [reorder] and [send] has the actor
    demo-user when the supplied actor (for [send], the author), with
    surrounding white space removed, is demo-user, and anonymous otherwise,
    an absent actor included.  [send] stores the trimmed author itself in
    the message. *)
Theorem event_actor_allow_list now d :
  (∀ args, ∃ r d' w new,
      run (create now args) d = Some (r, d', w) ∧ records d d' new
      ∧ Forall (λ e, e_actor e = allow_listed (c_actor args)) new
      ∧ (trim (c_title args) ≠ [] → length new = 1%nat))
  ∧ (∀ id target actor, ∃ r d' w new,
      run (setStatus now id target actor) d = Some (r, d', w) ∧ records d d' new
      ∧ Forall (λ e, e_actor e = allow_listed actor) new)
  ∧ (∀ id actor, ∃ r d' w new,
      run (cycleStatus now id actor) d = Some (r, d', w) ∧ records d d' new
      ∧ Forall (λ e, e_actor e = allow_listed actor) new
      ∧ (is_Some (tasks d !! id) → length new = 1%nat))
  ∧ (∀ id text actor, ∃ r d' w new,
      run (updateDescription now id text actor) d = Some (r, d', w)
      ∧ records d d' new
      ∧ Forall (λ e, e_actor e = allow_listed actor) new)
  ∧ (∀ args, Forall (λ j, is_Some (tasks d !! j)) (listed (columns args)) →
      ∃ r d' w new,
        run (reorder now args) d = Some (r, d', w) ∧ records d d' new
        ∧ Forall (λ e, e_actor e = allow_listed (r_actor args)) new)
  ∧ (∀ taskId text author, ∃ r d' w new,
      run (send now taskId text author) d = Some (r, d', w) ∧ records d d' new
      ∧ Forall (λ e, e_actor e = allow_listed (Some author)) new
      ∧ (trim text ≠ [] → trim author ≠ [] →
         length new = 1%nat
         ∧ ∃ mid, messages d'
                  = messages d
                    ++ [(mid, mkMessage taskId (trim text) (trim author) now)])).
Proof.
  split_and!.
  - intros args. destruct (create_run now args d) as [Hno Hyes].
    destruct (decide (trim (c_title args) = [])) as [He|Hne].
    + exists None, d, [], []. split_and!; [by apply Hno|apply records_nil|done..].
    + destruct (Hyes Hne) as (tid & eid & d' & Hrun & Hev).
      eexists _, d', _, [_]. split_and!; [exact Hrun|by eapply records_one| |done].
      constructor; [|done]. cbn. apply normalizeActor_allow.
  - intros id target actor.
    destruct (tasks d !! id) as [t|] eqn:Ht; [|
      exists None, d, [], []; split_and!;
        [by apply setStatus_missing|apply records_nil|done]].
    destruct (setStatus_run now id target actor d t Ht) as [Hno Hyes].
    destruct (decide (normalizeLegacyStatus (Some (status t))
                      = normalizeLegacyStatus (Some target)
                      ∧ status t = Canon (normalizeLegacyStatus (Some (status t)))))
      as [Hc|Hc].
    + eexists _, d, [], []. split_and!; [by apply Hno|apply records_nil|done].
    + destruct (Hyes Hc) as (d' & eid & o & Hrun & _ & _ & Hev & _).
      eexists _, d', _, [_]. split_and!; [exact Hrun|by eapply records_one|].
      constructor; [|done]. cbn. apply normalizeActor_allow.
  - intros id actor.
    destruct (tasks d !! id) as [t|] eqn:Ht; [|
      exists None, d, [], []; split_and!;
        [by apply cycleStatus_missing|apply records_nil|done|by intros [? [=]]]].
    destruct (cycleStatus_run now id actor d t Ht) as (d' & eid & o & Hrun & _ & Hev).
    eexists _, d', _, [_]. split_and!; [exact Hrun|by eapply records_one| |done].
    constructor; [|done]. cbn. apply normalizeActor_allow.
  - intros id text actor.
    destruct (tasks d !! id) as [t|] eqn:Ht; [|
      exists tt, d, [], []; split_and!;
        [by apply updateDescription_missing|apply records_nil|done]].
    destruct (updateDescription_run now now id text actor d t Ht) as [Hyes Hno].
    destruct (decide (description t = text)) as [He|Hne].
    + eexists _, d, [], []. split_and!; [by apply Hno|apply records_nil|done].
    + destruct (Hyes Hne) as (d' & eid & Hrun & _ & Hev & _).
      eexists _, d', _, [_]. split_and!; [exact Hrun|by eapply records_one|].
      constructor; [|done]. cbn. apply normalizeActor_allow.
  - intros args Hex.
    destruct (reorder_run now args d Hex) as (d' & w & Hrun & _ & _ & _ & Hev).
    eexists _, d', w, _. split_and!; [exact Hrun|exact Hev|].
    apply Forall_app. split.
    + unfold reordered_event.
      destruct (movedTaskId args), (fromIndex args), (toIndex args); try done.
      case_match; [|done]. constructor; [|done]. apply normalizeActor_allow.
    + unfold status_event.
      destruct (movedTaskId args), (fromStatus args), (toStatus args); try done.
      cbn zeta. case_match; [|done]. constructor; [|done]. apply normalizeActor_allow.
  - intros taskId text author.
    destruct (send_run now taskId text author d) as [Hno Hyes].
    destruct (decide (trim text = [])) as [Het|Hnt].
    { eexists _, d, [], []. split_and!; [apply Hno; by left|apply records_nil|done..]. }
    destruct (decide (trim author = [])) as [Hea|Hna].
    { eexists _, d, [], []. split_and!; [apply Hno; by right|apply records_nil|done..]. }
    destruct (Hyes Hnt Hna) as (mid & eid & d' & Hrun & _ & Hmsg & Hev).
    eexists _, d', _, [_]. split_and!; [exact Hrun|by eapply records_one| |].
    + constructor; [|done]. cbn. apply normalizeActor_allow.
    + intros _ _. split; [done|]. by exists mid.
Qed.

(** Message hi by author Bob: the message keeps the author Bob, the event
    has the actor anonymous. *)
Lemma event_actor_allow_list_witness :
  ∃ r d' w new,
    run (send 5 (lit "task-1") (lit "hi") (lit "Bob")) db_empty = Some (r, d', w)
    ∧ records db_empty d' new
    ∧ Forall (λ e, e_actor e = lit "anonymous") new
    ∧ length new = 1%nat
    ∧ ∃ mid, messages d' = [(mid, mkMessage (lit "task-1") (lit "hi") (lit "Bob") 5)].
Proof.
  destruct (event_actor_allow_list 5 db_empty) as (_ & _ & _ & _ & _ & Hsend).
  destruct (Hsend (lit "task-1") (lit "hi") (lit "Bob"))
    as (r & d' & w & new & Hrun & Hrec & Hact & Hone).
  destruct Hone as [Hlen Hmsg]; [compute_done..|].
  exists r, d', w, new. split_and!; [exact Hrun|exact Hrec|exact Hact|exact Hlen|exact Hmsg].
Defined.

(** Claim C7 as stated fails for a padded actor: demo-user with a space on
    each side is not the literal demo-user, and the event is recorded with
    actor demo-user. *)
Lemma padded_actor_is_allow_listed :
  lit " demo-user " ≠ lit "demo-user"
  ∧ ∃ tid eid d' w,
      run (create 5 (mkCreateArgs (lit "Buy milk") None None None
                                  (Some (lit " demo-user ")))) db_empty
      = Some (Some tid, d', w)
      ∧ task_events d' = [(eid, mkEvent tid task_created (lit "demo-user")
                                        payload_empty 5)].
Proof.
  split; [compute_done|]. eexists _, _, _, _.
  split; vm_compute; reflexivity.
Qed.

(** Claim C10.  When the [demo_seeded] flag is absent or false,
    [seedDemoData] completes without issuing a delete: every task is still
    there unchanged, the messages and the events start with the rows that
    were there, and 7 tasks, 4 messages and 20 events are added.  When the
    flag is true (and the ids within a table are distinct, as the database
    keeps them), every task, message and event that was there is deleted
    before the demo rows are inserted. *)
Theorem seedDemoData_deletes_only_when_seeded now language d :
  (seeded_flag d = false →
     ∃ d' w, run (seedDemoData now language) d = Some (tt, d', w)
       ∧ (∀ i t, tasks d !! i = Some t → tasks d' !! i = Some t)
       ∧ messages d `prefix_of` messages d'
       ∧ task_events d `prefix_of` task_events d'
       ∧ Forall (λ x, ¬ is_delete x) w
       ∧ size (tasks d') = (size (tasks d) + 7)%nat
       ∧ length (messages d') = (length (messages d) + 4)%nat
       ∧ length (task_events d') = (length (task_events d) + 20)%nat)
  ∧ (seeded_flag d = true →
     NoDup (messages d).*1 → NoDup (task_events d).*1 →
     ∃ d' w, run (seedDemoData now language) d = Some (tt, d', w)
       ∧ (∀ i, is_Some (tasks d !! i) → WDelete TTasks i ∈ w)
       ∧ (∀ i, i ∈ (messages d).*1 → WDelete TMessages i ∈ w)
       ∧ (∀ i, i ∈ (task_events d).*1 → WDelete TTaskEvents i ∈ w)
       ∧ size (tasks d') = 7%nat
       ∧ length (messages d') = 4%nat
       ∧ length (task_events d') = 20%nat).
Proof.
  destruct (template_counts language) as (Hn & Hnm & Hne).
  split.
  - intros Hflag. unfold run. rewrite seedDemoData_unfold. cbn [db].
    rewrite Hflag. unfold bind at 1. unfold ret at 1. unfold bind at 1.
    destruct (seed_tasks_run (now - minutes 85) (demoSeedTemplates language)
                (mkCtx d []))
      as (c1 & -> & Hk & Hs & Ha & (ms & Hm & Hlm) & (es & He & Hle)
          & (w & Hw & Hd)).
    destruct (set_flag_run now (seeded_doc d) c1)
      as (c2 & -> & Ht2 & Hm2 & He2 & (w2 & Hw2 & Hd2)).
    { intros r Hr. rewrite Ha. cbn. apply list_elem_of_fmap_2.
      by apply seeded_doc_elem. }
    cbn in *. exists (db c2), (journal c2). split; [done|].
    rewrite Ht2, Hm2, He2, Hw2, Hw, Hm, He, Hs, !length_app, Hlm, Hle, Hn, Hnm, Hne.
    split_and!; try done.
    + by eexists.
    + by eexists.
    + apply Forall_app. split; [done|]. by constructor.
  - intros Hflag Hndm Hnde. unfold run. rewrite seedDemoData_unfold. cbn [db].
    rewrite Hflag. unfold bind at 1.
    destruct (wipe_run (mkCtx d []) Hndm Hnde)
      as (c0 & -> & Ht0 & Hm0 & He0 & Ha0 & Hj0).
    unfold bind at 1.
    destruct (seed_tasks_run (now - minutes 85) (demoSeedTemplates language) c0)
      as (c1 & -> & Hk & Hs & Ha & (ms & Hm & Hlm) & (es & He & Hle)
          & (w & Hw & Hd)).
    destruct (set_flag_run now (seeded_doc d) c1)
      as (c2 & -> & Ht2 & Hm2 & He2 & (w2 & Hw2 & Hd2)).
    { intros r Hr. rewrite Ha, Ha0. cbn. apply list_elem_of_fmap_2.
      by apply seeded_doc_elem. }
    cbn in *. exists (db c2), (journal c2). split; [done|].
    rewrite Ht2, Hm2, He2, Hw2, Hw, Hj0, Hm, He, Hs, Hm0, He0, Ht0.
    cbn [app]. rewrite map_size_empty, Hlm, Hle, Hn, Hnm, Hne.
    split_and!; try done.
    + intros i [t Ht]. rewrite !elem_of_app. left. left. left.
      apply list_elem_of_fmap_2, list_elem_of_fmap. exists (i, t).
      split; [done|]. by apply elem_of_map_to_list.
    + intros i Hi. rewrite !elem_of_app. left. left. right. left.
      by apply list_elem_of_fmap_2.
    + intros i Hi. rewrite !elem_of_app. left. left. right. right.
      by apply list_elem_of_fmap_2.
Qed.

(** A database whose flag row says false. *)
Lemma seedDemoData_deletes_only_when_seeded_witness :
  seeded_flag unseeded_board = false
  ∧ ∃ d' w, run (seedDemoData 100000000 en) unseeded_board = Some (tt, d', w)
      ∧ tasks d' !! lit "A"
        = Some (mkTask (lit "Write") (Canon Backlog) (lit "") 0 1 1)
      ∧ messages unseeded_board `prefix_of` messages d'
      ∧ task_events unseeded_board `prefix_of` task_events d'
      ∧ Forall (λ x, ¬ is_delete x) w
      ∧ size (tasks d') = 8%nat.
Proof.
  split; [reflexivity|].
  destruct (seedDemoData_deletes_only_when_seeded 100000000 en unseeded_board)
    as [Hkeep _].
  destruct Hkeep as (d' & w & Hrun & Ht & Hm & He & Hw & Hs & _);
    [reflexivity|].
  exists d', w. split_and!; [exact Hrun| |exact Hm|exact He|exact Hw|exact Hs].
  apply Ht. reflexivity.
Defined.

End ConvexFacts.

Module TodoFacts.

Section reducer_reorder.
Implicit Types (ts : list Todo.Task) (ids : list jsstring)
  (M : gmap jsstring Todo.Task).

Lemma new_Map_fold_other ts : ∀ (m : gmap jsstring Todo.Task) i,
  i ∉ Todo.id <$> ts →
  foldl (λ m t, <[Todo.id t := t]> m) m ts !! i = m !! i.
Proof.
  induction ts as [|x ts IH]; intros m i Hi; [done|].
  rewrite fmap_cons in Hi. apply not_elem_of_cons in Hi as [Hne Hi].
  cbn. rewrite IH by done. by rewrite lookup_insert_ne.
Qed.

Lemma new_Map_fold_elem ts : ∀ (m : gmap jsstring Todo.Task) t,
  NoDup (Todo.id <$> ts) → t ∈ ts →
  foldl (λ m t, <[Todo.id t := t]> m) m ts !! Todo.id t = Some t.
Proof.
  induction ts as [|x ts IH]; intros m t Hnd Hin; [by apply elem_of_nil in Hin|].
  rewrite fmap_cons in Hnd. apply NoDup_cons in Hnd as [Hx Hnd].
  cbn. apply elem_of_cons in Hin as [->|Hin].
  - rewrite new_Map_fold_other by done. apply lookup_insert_eq.
  - by apply IH.
Qed.

Lemma new_Map_lookup ts i t :
  NoDup (Todo.id <$> ts) →
  Todo.new_Map ts !! i = Some t ↔ t ∈ ts ∧ Todo.id t = i.
Proof.
  intros Hnd. unfold Todo.new_Map. split.
  - intros Hl. destruct (decide (i ∈ Todo.id <$> ts)) as [Hi|Hi].
    + apply list_elem_of_fmap in Hi as (t' & -> & Hin).
      rewrite new_Map_fold_elem in Hl by done. by simplify_eq.
    + rewrite new_Map_fold_other in Hl by done. by rewrite lookup_empty in Hl.
  - intros [Hin <-]. by apply new_Map_fold_elem.
Qed.

Lemma foldl_pick M ids : ∀ acc,
  (foldl (Todo.pick M) acc ids).1 = acc.1 ++ omap (λ i, M !! i) ids
  ∧ ∀ j, j ∈ (foldl (Todo.pick M) acc ids).2
         ↔ j ∈ acc.2 ∨ (j ∈ ids ∧ is_Some (M !! j)).
Proof.
  induction ids as [|i ids IH]; intros acc.
  - cbn. rewrite app_nil_r. split; [done|]. intros j. split; [by left|].
    intros [?|[?%elem_of_nil _]]; done.
  - cbn [foldl]. destruct (IH (Todo.pick M acc i)) as [H1 H2]. split.
    + rewrite H1. unfold Todo.pick. cbn [omap list_omap].
      destruct (M !! i) as [t|]; cbn; [|done]. by rewrite <- app_assoc.
    + intros j. rewrite H2. unfold Todo.pick.
      destruct (M !! i) as [t|] eqn:Hi; cbn.
      * rewrite elem_of_union, elem_of_singleton, elem_of_cons. split.
        -- intros [[->|?]|[? ?]]; [right; split; [by left|by rewrite Hi] |by left|].
           right. split; [by right|done].
        -- intros [?|[[->|?] ?]]; [left; by right|left; by left|by right].
      * rewrite elem_of_cons. split.
        -- intros [?|[? ?]]; [by left|]. right. split; [by right|done].
        -- intros [?|[[->|?] Hs]]; [by left| |by right].
           rewrite Hi in Hs. by destruct Hs.
Qed.

Lemma known_ids M ts ids :
  (∀ i t, M !! i = Some t ↔ t ∈ ts ∧ Todo.id t = i) →
  Todo.id <$> omap (λ i, M !! i) ids
  = filter (λ i, i ∈ Todo.id <$> ts) ids.
Proof.
  intros HM. induction ids as [|i ids IH]; [done|].
  cbn [omap list_omap]. destruct (M !! i) as [t|] eqn:Hi.
  - apply HM in Hi as [Hin <-].
    rewrite filter_cons_True by (by apply list_elem_of_fmap_2).
    rewrite fmap_cons. by f_equal.
  - rewrite filter_cons_False; [done|].
    intros (t & -> & Hin)%list_elem_of_fmap.
    assert (M !! Todo.id t = Some t) as Hs by (by apply HM). congruence.
Qed.

Lemma filter_ext_elem {A} (P Q : A → Prop) `{!∀ x, Decision (P x)}
    `{!∀ x, Decision (Q x)} (l : list A) :
  (∀ x, x ∈ l → P x ↔ Q x) → filter P l = filter Q l.
Proof.
  induction l as [|a l IH]; intros Hext; [done|].
  assert (filter P l = filter Q l) as IH'
    by (apply IH; intros; apply Hext; by right).
  assert (P a ↔ Q a) as Ha by (apply Hext; left).
  destruct (decide (P a)) as [Hp|Hp].
  - rewrite !filter_cons_True by tauto. by rewrite IH'.
  - rewrite !filter_cons_False by tauto. done.
Qed.

End reducer_reorder.

(** ** The claim about the client reducer *)

(** Claim C9.  For a state whose tasks have distinct ids and a non-empty
    duplicate-free [orderedIds] that names at least one task, the [reorder]
    action returns the tasks permuted: first the tasks named by the known
    ids, in the order of [orderedIds] (unknown ids are skipped), then every
    task that is not listed, in its original order; every task is one of
    the original records, and the filter is kept. *)
Theorem reducer_reorder_permutes now (st : Todo.State) ids :
  NoDup (Todo.id <$> Todo.tasks st) →
  ids ≠ [] → NoDup ids →
  (∃ i, i ∈ ids ∧ i ∈ Todo.id <$> Todo.tasks st) →
  let st' := Todo.reducer now st (Todo.Reorder ids) in
  ∃ known,
    Todo.tasks st'
    = known ++ filter (λ t, Todo.id t ∉ ids) (Todo.tasks st)
    ∧ Todo.id <$> known = filter (λ i, i ∈ Todo.id <$> Todo.tasks st) ids
    ∧ (∀ t, t ∈ known → t ∈ Todo.tasks st)
    ∧ Todo.tasks st' ≡ₚ Todo.tasks st
    ∧ Todo.filter st' = Todo.filter st.
Proof.
  intros Hnd Hne Hids (i0 & Hi0 & Hk0) st'.
  set (ts := Todo.tasks st) in *.
  set (M := Todo.new_Map ts).
  assert (HM : ∀ i t, M !! i = Some t ↔ t ∈ ts ∧ Todo.id t = i)
    by (intros; by apply new_Map_lookup).
  destruct (foldl_pick M ids ([], ∅)) as [Hnext Hused].
  cbn [fst snd app] in Hnext, Hused.
  set (known := omap (λ i, M !! i) ids) in *.
  assert (Hknown : ∀ t, t ∈ known ↔ t ∈ ts ∧ Todo.id t ∈ ids).
  { intros t. unfold known. rewrite list_elem_of_omap. split.
    - intros (i & Hi & Hl). apply HM in Hl as [? <-]. done.
    - intros [Hin Hi]. exists (Todo.id t). split; [done|]. by apply HM. }
  assert (Hlen : length known ≠ 0%nat).
  { apply list_elem_of_fmap in Hk0 as (t0 & -> & Hin0).
    assert (t0 ∈ known) as Hin by (by apply Hknown).
    destruct known; [by apply elem_of_nil in Hin|done]. }
  assert (Hst' : st' = Todo.with_tasks st
                   (known ++ filter (λ t, Todo.id t ∉ ids) ts)).
  { unfold st', Todo.reducer, Todo.reorder.
    rewrite bool_decide_eq_false_2 by (by destruct ids).
    fold ts. fold M. rewrite Hnext.
    rewrite bool_decide_eq_false_2 by done.
    f_equal. f_equal. apply filter_ext_elem. intros t Hin.
    rewrite Hused, elem_of_empty. split.
    - intros Hn Hi. apply Hn. right. split; [done|]. exists t. by apply HM.
    - intros Hn [[]|[Hi _]]. by apply Hn. }
  exists known. rewrite Hst'. cbn [Todo.tasks Todo.filter Todo.with_tasks].
  split_and!; [done| |by intros t [? _]%Hknown| |done].
  - by apply known_ids.
  - assert (Hperm : known ≡ₚ filter (λ t, Todo.id t ∈ ids) ts).
    { apply NoDup_Permutation.
      - apply (NoDup_fmap_1 Todo.id). unfold known.
        rewrite (known_ids M ts ids HM). by apply NoDup_filter.
      - apply NoDup_filter. by apply (NoDup_fmap_1 Todo.id).
      - intros t. rewrite Hknown, list_elem_of_filter. tauto. }
    rewrite Hperm. apply filter_app_complement.
Qed.

(** [reorder] with ids t-3, t-9, t-1 on tasks t-1, t-2, t-3. *)
Lemma reducer_reorder_permutes_witness :
  ∃ known,
    Todo.tasks (Todo.reducer 9 Todo.three (Todo.Reorder [lit "t-3"; lit "t-9"; lit "t-1"]))
    = known ++ [Todo.mkTask (lit "t-2") (lit "B") (lit "") Todo.Done 2 2]
    ∧ Todo.id <$> known = [lit "t-3"; lit "t-1"]
    ∧ Todo.tasks (Todo.reducer 9 Todo.three
                    (Todo.Reorder [lit "t-3"; lit "t-9"; lit "t-1"]))
      ≡ₚ Todo.tasks Todo.three.
Proof.
  destruct (reducer_reorder_permutes 9 Todo.three [lit "t-3"; lit "t-9"; lit "t-1"])
    as (known & Htasks & Hids & _ & Hperm & _).
  - compute_done.
  - done.
  - compute_done.
  - exists (lit "t-3"). split; compute_done.
  - exists known. split_and!; [exact Htasks|exact Hids|exact Hperm].
Defined.

End TodoFacts.

Module SttFacts.
Import Stt.

Section handler_facts.
Context (e : Env).

Lemma eqb_true s t : Js.eqb s t = true ↔ s = t.
Proof. unfold Js.eqb. apply bool_decide_eq_true. Qed.

Lemma eqb_false s t : Js.eqb s t = false ↔ s ≠ t.
Proof. unfold Js.eqb. apply bool_decide_eq_false. Qed.

Lemma not_terminal_eqb s :
  ¬ terminal s →
  Js.eqb s (lit "completed") || Js.eqb s (lit "failed") = false.
Proof.
  intros H. apply orb_false_iff. split; apply eqb_false; intros ->; apply H.
  - by left.
  - by right.
Qed.

(** Polls that leave the loop running only add status requests. *)
Lemma poll_loop_waiting call waiting : ∀ status rest,
  ¬ terminal status →
  Forall (still_waiting e) waiting →
  ∃ status', ¬ terminal status'
    ∧ poll_loop call (startedAt e) status (waiting ++ rest)
      = (λ r, (r.1, replicate (length waiting) call ++ r.2))
          <$> poll_loop call (startedAt e) status' rest.
Proof.
  induction waiting as [|p waiting IH]; intros status rest Hs Hw.
  - exists status. split; [done|]. cbn.
    by destruct (poll_loop _ _ _ _) as [[? ?]|].
  - apply Forall_cons in Hw as [[Htime (st & Hst & Hnt)] Hw].
    unfold poll_status in Hst.
    destruct (poll_fetch p) as [|r] eqn:Hf; [done|].
    destruct (ok r) eqn:Hok; [|done]. injection Hst as <-.
    set (status1 := default status (j_status (raw_of r))).
    assert (Hs1 : ¬ terminal status1).
    { unfold status1. destruct (j_status (raw_of r)) as [s|]; cbn; [by apply Hnt|done]. }
    destruct (IH status1 rest Hs1 Hw) as (status' & Hs' & Hloop).
    exists status'. split; [done|].
    cbn [app poll_loop]. unfold in_time in Htime.
    rewrite (proj2 (Z.ltb_lt _ _) Htime), Hf, Hok. cbn [negb].
    fold status1. rewrite (not_terminal_eqb _ Hs1), Hloop.
    by destruct (poll_loop _ _ _ rest) as [[? ?]|].
Qed.

Lemma poll_loop_reports call status p rest s :
  reports e p s → terminal s →
  poll_loop call (startedAt e) status (p :: rest) = Some (LoopExit s, [call]).
Proof.
  intros [Htime Hst] Hterm. unfold poll_status in Hst.
  destruct (poll_fetch p) as [|r] eqn:Hf; [done|].
  destruct (ok r) eqn:Hok; [|done]. injection Hst as Hst.
  cbn [poll_loop]. unfold in_time in Htime.
  rewrite (proj2 (Z.ltb_lt _ _) Htime), Hf, Hok, Hst. cbn [negb].
  change (default status (Some s)) with s.
  assert (Js.eqb s (lit "completed") || Js.eqb s (lit "failed") = true) as ->; [|done].
  apply orb_true_iff. destruct Hterm as [-> | ->]; [left|right]; by apply eqb_true.
Qed.

Lemma poll_loop_late call status p rest :
  ¬ in_time e p →
  poll_loop call (startedAt e) status (p :: rest) = Some (LoopExit status, []).
Proof.
  intros Htime. cbn [poll_loop]. unfold in_time in Htime.
  by rewrite (proj2 (Z.ltb_ge _ _)) by lia.
Qed.

Lemma poll_loop_throws call status p rest m :
  in_time e p → poll_fetch p = FetchThrows m →
  poll_loop call (startedAt e) status (p :: rest)
  = Some (LoopOutcome (Thrown m), [call]).
Proof.
  intros Htime Hf. cbn [poll_loop]. unfold in_time in Htime.
  by rewrite (proj2 (Z.ltb_lt _ _) Htime), Hf.
Qed.

(** An accepted request reaches the poll loop. *)
Lemma accepted_handler taskId :
  accepted e taskId →
  ∃ token,
    handler e
    = match conclude e (call e token) taskId
              <$> poll_loop (call e token (StatusOf taskId)) (startedAt e)
                    (lit "pending") (polls e) with
      | None => None
      | Some (Responded code b, calls) => Some (code, b, calls)
      | Some (Thrown m, calls) => Some (500, error_body m, calls)
      end.
Proof.
  intros (Hm & (token & Htok & Htne) & Hinc & (b & Hb & Hbne) & (file & Hbody)
          & (r & Hup & Hok & Htid) & Hne).
  unfold handler. rewrite bool_decide_eq_true_2 by done. cbn [negb].
  rewrite Htok. change (default (lit "") (Some token)) with token.
  assert (truthy token = true) as -> by (by destruct token).
  cbn [negb]. unfold handler_try.
  rewrite Hinc, Hb. cbn [negb].
  change (default [] (strip_quotes <$> Some b)) with (strip_quotes b).
  assert (truthy (strip_quotes b) = true) as -> by (by destruct (strip_quotes b)).
  cbn [negb]. rewrite Hbody, Hup, Hok, Htid. cbn [negb].
  change (default (lit "") (Some taskId)) with taskId.
  assert (truthy taskId = true) as -> by (by destruct taskId).
  cbn [negb]. by exists token.
Qed.

End handler_facts.

(** ** The claim about the proxy *)

(** Claim C8.  The proxy answers 405 to a method other than POST and 400
    to a POST without API token, in both cases before any upstream request.
    Once the request is accepted and the upload has returned a task id,
    after any number of polls that leave the transcription running: a poll
    reporting failed gives 502, a deadline reached without a terminal
    status gives 504, a poll reporting completed followed by a successful
    transcription request gives 200 with [text] and [task_id], and an
    exception (here from the status or the transcription request) gives
    500.  Every exception thrown inside the [try] block gives 500. *)
Theorem handler_status_taxonomy (e : Env) :
  (method e ≠ Some (lit "POST") →
     handler e = Some (405, error_body (lit "Method not allowed"), []))
  ∧ (method e = Some (lit "POST") →
     SPEECHCORE_API_TOKEN e = None ∨ SPEECHCORE_API_TOKEN e = Some (lit "") →
     handler e
     = Some (400, error_body (lit "Missing SPEECHCORE_API_TOKEN in environment"), []))
  ∧ (∀ taskId waiting p rest,
       accepted e taskId → polls e = waiting ++ p :: rest →
       Forall (still_waiting e) waiting →
       (reports e p (lit "failed") →
          ∃ b calls, handler e = Some (502, b, calls)
                     ∧ b_task_id b = Some taskId)
       ∧ (¬ in_time e p →
          ∃ b calls, handler e = Some (504, b, calls)
                     ∧ b_task_id b = Some taskId)
       ∧ (reports e p (lit "completed") →
          ∀ r, transcription e = Fetched r → ok r = true →
          ∃ calls, handler e
                   = Some (200, mkResBody None (Some (transcript_text (raw_of r)))
                                          (Some taskId) None, calls))
       ∧ (in_time e p → ∀ m, poll_fetch p = FetchThrows m →
          ∃ calls, handler e = Some (500, error_body m, calls))
       ∧ (reports e p (lit "completed") →
          ∀ m, transcription e = FetchThrows m →
          ∃ calls, handler e = Some (500, error_body m, calls)))
  ∧ (method e = Some (lit "POST") →
     ∀ token m calls,
       SPEECHCORE_API_TOKEN e = Some token → token ≠ [] →
       handler_try e token = Some (Thrown m, calls) →
       handler e = Some (500, error_body m, calls)).
Proof.
  split_and!.
  - intros Hm. unfold handler. by rewrite bool_decide_eq_false_2.
  - intros Hm Htok. unfold handler. rewrite bool_decide_eq_true_2 by done.
    by destruct Htok as [-> | ->].
  - intros taskId waiting p rest Hacc Hpolls Hwait.
    destruct (accepted_handler e taskId Hacc) as (token & Hh).
    assert (Hpending : ¬ terminal (lit "pending")).
    { intros [H|H]; by vm_compute in H. }
    destruct (poll_loop_waiting e (call e token (StatusOf taskId)) waiting
                (lit "pending") (p :: rest) Hpending Hwait)
      as (status' & Hs' & Hloop).
    rewrite Hpolls, Hloop in Hh. split_and!.
    + intros Hrep.
      rewrite (poll_loop_reports e _ status' p rest (lit "failed") Hrep) in Hh
        by (by right).
      eexists _, _. split; [exact Hh|done].
    + intros Hlate. rewrite (poll_loop_late e _ status' p rest Hlate) in Hh.
      cbn [fmap option_fmap option_map conclude fst snd] in Hh.
      assert (Js.eqb status' (lit "completed") = false) as Hc
        by (apply eqb_false; intros ->; apply Hs'; by left).
      assert (Js.eqb status' (lit "failed") = false) as Hf
        by (apply eqb_false; intros ->; apply Hs'; by right).
      rewrite Hc, Hf in Hh. cbn [negb] in Hh.
      eexists _, _. split; [exact Hh|done].
    + intros Hrep r Htr Hok.
      rewrite (poll_loop_reports e _ status' p rest (lit "completed") Hrep) in Hh
        by (by left).
      cbn [fmap option_fmap option_map conclude fst snd] in Hh.
      change (Js.eqb (lit "completed") (lit "completed")) with true in Hh.
      cbn [negb] in Hh. rewrite Htr, Hok in Hh. cbn [negb] in Hh.
      eexists. exact Hh.
    + intros Htime m Hf.
      rewrite (poll_loop_throws e _ status' p rest m Htime Hf) in Hh.
      eexists. exact Hh.
    + intros Hrep m Htr.
      rewrite (poll_loop_reports e _ status' p rest (lit "completed") Hrep) in Hh
        by (by left).
      cbn [fmap option_fmap option_map conclude fst snd] in Hh.
      change (Js.eqb (lit "completed") (lit "completed")) with true in Hh.
      cbn [negb] in Hh. rewrite Htr in Hh.
      eexists. exact Hh.
  - intros Hm token m calls Htok Hne Htry.
    unfold handler. rewrite bool_decide_eq_true_2 by done. cbn [negb].
    rewrite Htok. change (default (lit "") (Some token)) with token.
    assert (truthy token = true) as -> by (by destruct token).
    cbn [negb]. by rewrite Htry.
Qed.

(** A dictation that completes at the second poll. *)
Lemma handler_status_taxonomy_witness :
  ∃ calls,
    handler dictation
    = Some (200, mkResBody None (Some (lit "hello" ++ [10%N] ++ lit "world"))
                           (Some (lit "task-7")) None, calls).
Proof.
  destruct (handler_status_taxonomy dictation) as (_ & _ & Hpoll & _).
  destruct (Hpoll (lit "task-7")
              [mkPoll 1000 (answer "{...}" (json_status "processing"))]
              (mkPoll 2500 (answer "{...}" (json_status "completed"))) [])
    as (_ & _ & Hok & _).
  - unfold accepted. split_and!; try compute_done.
    + by exists (lit "secret").
    + exists (lit "----form"). split; compute_done.
    + by eexists.
    + eexists. split_and!; reflexivity.
  - reflexivity.
  - constructor; [|constructor]. split; [compute_done|].
    exists (Some (lit "processing")). split; [reflexivity|].
    intros s [= <-]. intros [H|H]; by vm_compute in H.
  - assert (Hrep : reports dictation
                     (mkPoll 2500 (answer "{...}" (json_status "completed")))
                     (lit "completed"))
      by (split; [compute_done|reflexivity]).
    destruct (Hok Hrep _ eq_refl eq_refl) as (calls & Hh).
    exists calls. exact Hh.
Defined.

End SttFacts.

(* ===================================================================== *)
(** * Further properties *)
(* ===================================================================== *)

(** ** The backend *)

Module BackendFacts.
Import Convex Migrations ConvexFacts.
Local Open Scope mutation_scope.

(** [create] *)
Lemma create_full now args d :
  trim (c_title args) ≠ [] →
  ∃ o,
    (match c_order args with
     | Some o' => o = o'
     | None => next_order (normalizeLegacyStatus (c_status args)) (tasks d) o
     end)
    ∧ run (create now args) d
      = Some (Some (new_id d),
              mkDb (<[new_id d := mkTask (trim (c_title args))
                                   (Canon (normalizeLegacyStatus (c_status args)))
                                   (default [] (c_description args)) o now now]>
                      (tasks d))
                   (messages d)
                   (task_events d
                    ++ [(new_id (set_tasks d
                                   (<[new_id d := mkTask (trim (c_title args))
                                       (Canon (normalizeLegacyStatus (c_status args)))
                                       (default [] (c_description args)) o now now]>
                                      (tasks d))),
                         mkEvent (new_id d) task_created
                                 (normalizeActor (c_actor args)) payload_empty now)])
                   (app_state d),
              [WInsert TTasks (new_id d);
               WInsert TTaskEvents
                 (new_id (set_tasks d
                            (<[new_id d := mkTask (trim (c_title args))
                                (Canon (normalizeLegacyStatus (c_status args)))
                                (default [] (c_description args)) o now now]>
                               (tasks d))))]).
Proof.
  intros Ht. unfold run, create.
  apply truthy_true in Ht. rewrite Ht. cbn [negb].
  unfold bind at 1.
  assert (∃ o, (match c_order args with
                | Some o' => o = o'
                | None => next_order (normalizeLegacyStatus (c_status args))
                            (tasks d) o
                end)
               ∧ (match c_order args with
                  | Some o => ret o
                  | None => getNextOrder (normalizeLegacyStatus (c_status args))
                  end) (mkCtx d []) = Some (o, mkCtx d [])) as (o & Ho & ->).
  { destruct (c_order args) as [o|]; [by exists o|].
    destruct (getNextOrder_run (normalizeLegacyStatus (c_status args))
                (mkCtx d [])) as (o & Hrun & Ho). by exists o. }
  exists o. split; [done|]. reflexivity.
Qed.

(** Property X1: [create] with a title that is blank after trimming
    returns null and writes nothing.  Otherwise it stores one task under an
    id no task had, with the trimmed title, the normalized status, the given
    description or the empty one, the given order when there is one, and
    both timestamps at the time of the call; no other task and no message
    changes, and the writes are the insert of the task and of one event. *)
Theorem create_stores_task now args d :
  (trim (c_title args) = [] → run (create now args) d = Some (None, d, []))
  ∧ (trim (c_title args) ≠ [] →
     ∃ tid d' w t',
       run (create now args) d = Some (Some tid, d', w)
       ∧ tasks d !! tid = None
       ∧ tasks d' !! tid = Some t'
       ∧ title t' = trim (c_title args)
       ∧ status t' = Canon (normalizeLegacyStatus (c_status args))
       ∧ description t' = default [] (c_description args)
       ∧ (∀ o, c_order args = Some o → order t' = o)
       ∧ createdAt t' = now ∧ updatedAt t' = now
       ∧ (∀ j, j ≠ tid → tasks d' !! j = tasks d !! j)
       ∧ messages d' = messages d
       ∧ w = [WInsert TTasks tid;
              WInsert TTaskEvents (new_id (set_tasks d (tasks d')))]).
Proof.
  split.
  - intros Ht. by apply create_run.
  - intros Ht. destruct (create_full now args d Ht) as (o & Ho & Hrun).
    eexists _, _, _, _. split; [exact Hrun|]. cbn [tasks messages].
    split_and!; [apply new_id_not_task|apply lookup_insert_eq|done..| |done|done| |done|done].
    + intros o' Ho'. rewrite Ho' in Ho. by cbn.
    + intros j Hj. by rewrite lookup_insert_ne.
Qed.

(** Property X2: [create] without an order gives the new task the order
    of the prepend rule: the smallest order stored under its status less
    one, computed as a number, and 0 when there is none.  When the orders
    stored under that status are safe integers, the new order is below
    every one of them, so the task comes first in its column; when the
    smallest of them is -2^53, the new order is that same number. *)
Theorem create_prepends now args d :
  trim (c_title args) ≠ [] → c_order args = None →
  ∃ tid d' w t',
    run (create now args) d = Some (Some tid, d', w)
    ∧ tasks d' !! tid = Some t'
    ∧ status t' = Canon (normalizeLegacyStatus (c_status args))
    ∧ next_order (normalizeLegacyStatus (c_status args)) (tasks d) (order t')
    ∧ (safe_column (normalizeLegacyStatus (c_status args)) (tasks d) →
       ∀ j u, tasks d !! j = Some u → status u = status t' →
              order t' < order u)
    ∧ (∀ j u, tasks d !! j = Some u → status u = status t' →
         (∀ k v, tasks d !! k = Some v → status v = status t' →
                 order u ≤ order v) →
         order u = - 2 ^ 53 → order t' = order u).
Proof.
  intros Ht Hord. destruct (create_full now args d Ht) as (o & Ho & Hrun).
  rewrite Hord in Ho.
  eexists _, _, _, _. split; [exact Hrun|]. cbn [tasks].
  split; [apply lookup_insert_eq|]. cbn [status order].
  split; [done|]. split; [exact Ho|]. split.
  - intros Hsafe j u Hu Hs.
    destruct (next_order_prepend _ _ _ Hsafe Ho) as [Hlt _]. by eapply Hlt.
  - intros j u Hu Hs Hmin Hedge.
    destruct Ho as [(j' & u' & Hj' & Hs' & Hmin' & ->)|[Hnone _]].
    + assert (order u' = order u) as ->.
      { specialize (Hmin j' u' Hj' Hs'). specialize (Hmin' j u Hu Hs). lia. }
      rewrite Hedge. reflexivity.
    + by destruct (Hnone j u).
Qed.

Lemma create_stores_task_witness :
  ∃ tid d' w t',
    run (create 7 buy_milk) board = Some (Some tid, d', w)
    ∧ tasks d' !! tid = Some t'
    ∧ title t' = lit "Buy milk" ∧ status t' = Canon Done.
Proof.
  destruct (create_stores_task 7 buy_milk board) as [_ H].
  destruct H as (tid & d' & w & t' & Hrun & _ & Ht & Hti & Hst & _);
    [compute_done|].
  exists tid, d', w, t'. split_and!; [exact Hrun|exact Ht|exact Hti|exact Hst].
Defined.

Lemma create_prepends_witness :
  ∃ tid d' w t',
    run (create 7 buy_milk) board = Some (Some tid, d', w)
    ∧ tasks d' !! tid = Some t'
    ∧ order t' < order task_C.
Proof.
  destruct (create_prepends 7 buy_milk board)
    as (tid & d' & w & t' & Hrun & Ht & Hst & _ & Hlt & _);
    [compute_done|reflexivity|].
  exists tid, d', w, t'. split_and!; [exact Hrun|exact Ht|].
  apply (Hlt ltac:(compute_done) id_C task_C); [reflexivity|]. by rewrite Hst.
Defined.

(** Property X3: [remove] of an existing task issues one delete
    and removes that task only: the other tasks, the messages, the events
    and [app_state] stay as they are, and no event is recorded.  Afterwards
    [setStatus], [cycleStatus] and [updateDescription] on that id return
    without writing.  [remove] of an id that names no task throws. *)
Theorem remove_deletes_one_task now id target text actor d :
  (∀ t, tasks d !! id = Some t →
     ∃ d', run (remove id) d = Some (tt, d', [WDelete TTasks id])
       ∧ tasks d' = delete id (tasks d)
       ∧ messages d' = messages d
       ∧ task_events d' = task_events d
       ∧ app_state d' = app_state d
       ∧ run (setStatus now id target actor) d' = Some (None, d', [])
       ∧ run (cycleStatus now id actor) d' = Some (None, d', [])
       ∧ run (updateDescription now id text actor) d' = Some (tt, d', []))
  ∧ (tasks d !! id = None → run (remove id) d = None).
Proof.
  split.
  - intros t Ht. exists (set_tasks d (delete id (tasks d))).
    assert (Hgone : tasks (set_tasks d (delete id (tasks d))) !! id = None)
      by apply lookup_delete_eq.
    split_and!; try done.
    + unfold run, remove, db_delete, bind, get_db. cbn. by rewrite Ht.
    + by apply setStatus_missing.
    + by apply cycleStatus_missing.
    + by apply updateDescription_missing.
  - intros Ht. unfold run, remove, db_delete, bind, get_db. cbn. by rewrite Ht.
Qed.

Lemma remove_deletes_one_task_witness :
  ∃ d', run (remove id_B) board = Some (tt, d', [WDelete TTasks id_B])
    ∧ tasks d' !! id_B = None
    ∧ tasks d' !! id_A = Some task_A
    ∧ run (cycleStatus 9 id_B None) d' = Some (None, d', []).
Proof.
  destruct (remove_deletes_one_task 9 id_B (Canon Done) (lit "x") None board)
    as [H _].
  destruct (H task_B eq_refl) as (d' & Hrun & Ht & _ & _ & _ & _ & Hc & _).
  exists d'. split_and!; [exact Hrun| | |exact Hc].
  - rewrite Ht. apply lookup_delete_eq.
  - rewrite Ht. reflexivity.
Defined.

(** [reorder] with an id that names no task *)
Lemma for_index_place_throws now s ids : ∀ i (c : Ctx),
  (∃ id, id ∈ ids ∧ tasks (db c) !! id = None) →
  for_index i ids (place now s) c = None.
Proof.
  induction ids as [|id ids IH]; intros i c (j & Hj & Hnone).
  - by apply elem_of_nil in Hj.
  - cbn [for_index]. unfold bind.
    destruct (tasks (db c) !! id) as [t|] eqn:Ht.
    + rewrite (place_run now s i id c t Ht). apply IH.
      apply elem_of_cons in Hj as [->|Hj]; [congruence|].
      exists j. split; [done|]. cbn. by rewrite lookup_alter_None.
    + by rewrite place_throws.
Qed.

Lemma rewrite_columns_throws now cols : ∀ (c : Ctx),
  (∃ id, id ∈ listed cols ∧ tasks (db c) !! id = None) →
  rewrite_columns now cols c = None.
Proof.
  induction cols as [|col cols IH]; intros c (j & Hj & Hnone).
  - by apply elem_of_nil in Hj.
  - unfold rewrite_columns in *. cbn [for_of]. unfold bind at 1.
    destruct (decide (Exists (λ id, tasks (db c) !! id = None) (orderedIds col)))
      as [Hhere|Hhere].
    + rewrite for_index_place_throws; [done|]. by apply Exists_exists.
    + assert (Hall : ∀ id, id ∈ orderedIds col → is_Some (tasks (db c) !! id)).
      { intros id Hid. destruct (tasks (db c) !! id) eqn:Hl; [done|].
        destruct Hhere. apply Exists_exists. by exists id. }
      rewrite for_index_place_run by done. apply IH.
      rewrite listed_cons in Hj. apply elem_of_app in Hj as [Hj|Hj].
      { destruct (Hall j Hj) as [? ?]. congruence. }
      exists j. split; [done|]. cbn.
      apply eq_None_not_Some. rewrite patch_tasks_is_Some.
      by rewrite Hnone; intros [? ?].
Qed.

(** Property X5: [reorder] throws when a listed id names
    no task, wherever the id stands in the columns, so nothing is
    committed. *)
Theorem reorder_missing_task_throws now args d id :
  id ∈ listed (columns args) → tasks d !! id = None →
  run (reorder now args) d = None.
Proof.
  intros Hin Hnone. unfold run, reorder. unfold bind at 1.
  rewrite rewrite_columns_throws; [done|]. by exists id.
Qed.

Lemma reorder_missing_task_throws_witness :
  run (reorder 9 (no_meta [mkColumn (Canon Done) [id_A; lit "gone"; id_B]])) board
  = None.
Proof.
  apply (reorder_missing_task_throws 9 _ board (lit "gone")); compute_done.
Defined.

(** Property X4: [setStatus] called again with the same target is a
    no-op: after a first call on an existing task, a second call returns
    the same status, writes nothing and leaves the database as it is,
    whatever the clock and the actor. *)
Theorem setStatus_twice now1 now2 id target actor1 actor2 d t :
  tasks d !! id = Some t →
  ∃ d1 w,
    run (setStatus now1 id target actor1) d
    = Some (Some (normalizeLegacyStatus (Some target)), d1, w)
    ∧ run (setStatus now2 id target actor2) d1
      = Some (Some (normalizeLegacyStatus (Some target)), d1, []).
Proof.
  intros Ht. destruct (setStatus_run now1 id target actor1 d t Ht) as [Hno Hyes].
  destruct (decide (normalizeLegacyStatus (Some (status t))
                    = normalizeLegacyStatus (Some target)
                    ∧ status t = Canon (normalizeLegacyStatus (Some (status t)))))
    as [Hc|Hc].
  - exists d, []. pose proof Hc as [Hc1 Hc2]. rewrite <- Hc1.
    split; [by apply Hno|].
    by apply (setStatus_run now2 id target actor2 d t Ht).
  - destruct (Hyes Hc) as (d1 & eid & o & Hrun & _ & Ht1 & _).
    exists d1, [WPatch TTasks id; WInsert TTaskEvents eid]. split; [exact Hrun|].
    set (t1 := mkTask _ _ _ _ _ _) in Ht1.
    assert (Hl : tasks d1 !! id = Some t1) by (rewrite Ht1; apply lookup_insert_eq).
    destruct (setStatus_run now2 id target actor2 d1 t1 Hl) as [Hno1 _].
    cbn [status t1] in Hno1. rewrite normalize_canon in Hno1.
    by apply Hno1.
Qed.

Lemma setStatus_twice_witness :
  ∃ d1 w,
    run (setStatus 5 id_A Completed None) board = Some (Some Done, d1, w)
    ∧ run (setStatus 6 id_A Completed None) d1 = Some (Some Done, d1, []).
Proof.
  apply (setStatus_twice 5 6 id_A Completed None None board task_A). reflexivity.
Defined.

Lemma record_if_journal e (c : Ctx) :
  ∃ c' w, record_if e c = Some (tt, c')
          ∧ tasks (db c') = tasks (db c)
          ∧ messages (db c') = messages (db c)
          ∧ app_state (db c') = app_state (db c)
          ∧ journal c' = journal c ++ w
          ∧ (length w ≤ 1)%nat ∧ Forall is_event_insert w.
Proof.
  destruct e as [e|]; cbn.
  - eexists _, [_]. split; [reflexivity|]. cbn. split_and!; try done.
    by constructor.
  - exists c, []. split; [done|]. rewrite app_nil_r. split_and!; try done.
    cbn. lia.
Qed.

(** A patch of [reorder] keeps the title, the description and the creation
    time. *)
Lemma patch_tasks_kept now ps : ∀ m j,
  ∃ f : Task → Task,
    patch_tasks now ps m !! j = f <$> m !! j
    ∧ ∀ t, title (f t) = title t ∧ description (f t) = description t
           ∧ createdAt (f t) = createdAt t.
Proof.
  induction ps as [|[i [s k]] ps IH]; intros m j.
  - exists (λ t, t). split; [|done].
    change (patch_tasks now [] m) with m. by destruct (m !! j).
  - rewrite patch_tasks_cons. cbn [fst snd].
    destruct (IH (alter (placed now s k) i m) j) as (f & Hf & Hk).
    destruct (decide (i = j)) as [->|Hne].
    + exists (λ t, f (placed now s k t)). split.
      * rewrite Hf, lookup_alter_eq. by destruct (m !! j).
      * intros t. destruct (Hk (placed now s k t)) as (-> & -> & ->). by destruct t.
    + exists f. split; [|done]. by rewrite Hf, lookup_alter_ne.
Qed.

(** Property X6: [reorder] on existing tasks writes one patch for each
    listed id, in the order listed, then at most two event inserts.  Tasks
    that are not listed are unchanged, no task appears or disappears, every
    task keeps its title, description and [createdAt], and the messages
    and [app_state] are untouched. *)
Theorem reorder_frame now args d :
  Forall (λ j, is_Some (tasks d !! j)) (listed (columns args)) →
  ∃ d' w ev,
    run (reorder now args) d = Some (tt, d', w)
    ∧ w = (WPatch TTasks <$> listed (columns args)) ++ ev
    ∧ (length ev ≤ 2)%nat ∧ Forall is_event_insert ev
    ∧ (∀ j, j ∉ listed (columns args) → tasks d' !! j = tasks d !! j)
    ∧ (∀ j, is_Some (tasks d' !! j) ↔ is_Some (tasks d !! j))
    ∧ (∀ j t t', tasks d !! j = Some t → tasks d' !! j = Some t' →
         title t' = title t ∧ description t' = description t
         ∧ createdAt t' = createdAt t)
    ∧ messages d' = messages d
    ∧ app_state d' = app_state d.
Proof.
  intros Hex. rewrite Forall_forall in Hex.
  unfold run, reorder. unfold bind at 1.
  rewrite rewrite_columns_run by done.
  unfold bind at 1.
  match goal with |- context [record_if ?e ?c] =>
    destruct (record_if_journal e c)
      as (c1 & w1 & -> & Ht1 & Hm1 & Ha1 & Hj1 & Hl1 & Hw1) end.
  unfold bind at 1.
  destruct (record_if_journal (status_event now args) c1)
    as (c2 & w2 & -> & Ht2 & Hm2 & Ha2 & Hj2 & Hl2 & Hw2).
  cbn [ret]. exists (db c2), (journal c2), (w1 ++ w2). split; [done|].
  cbn in Ht1, Hm1, Ha1, Hj1.
  rewrite Ht2, Ht1, Hm2, Hm1, Ha2, Ha1, Hj2, Hj1.
  split_and!; try done.
  - by rewrite <- app_assoc.
  - rewrite length_app. lia.
  - by apply Forall_app.
  - intros j Hj. apply patch_tasks_other. by rewrite all_patches_fst.
  - intros j. apply patch_tasks_is_Some.
  - intros j t t' Ht Ht'.
    destruct (patch_tasks_kept now (all_patches (columns args)) (tasks d) j)
      as (f & Hf & Hk).
    rewrite Hf, Ht in Ht'. injection Ht' as <-. apply Hk.
Qed.

Lemma reorder_frame_witness :
  ∃ d' w ev,
    run (reorder 9 (no_meta [mkColumn (Canon Done) [id_A]])) board = Some (tt, d', w)
    ∧ w = (WPatch TTasks <$> [id_A]) ++ ev
    ∧ (length ev ≤ 2)%nat ∧ Forall is_event_insert ev
    ∧ (∀ j, j ∉ [id_A] → tasks d' !! j = tasks board !! j)
    ∧ (∀ j, is_Some (tasks d' !! j) ↔ is_Some (tasks board !! j))
    ∧ (∀ j t t', tasks board !! j = Some t → tasks d' !! j = Some t' →
         title t' = title t ∧ description t' = description t
         ∧ createdAt t' = createdAt t)
    ∧ messages d' = messages board
    ∧ app_state d' = app_state board.
Proof.
  apply (reorder_frame 9 (no_meta [mkColumn (Canon Done) [id_A]]) board).
  compute_done.
Defined.

(** The patches of a list of columns, applied after any earlier patches of
    the same ids, give the same tasks as applied alone. *)
Lemma patch_tasks_last_wins ps id :
  id ∈ ps.*1 →
  ∃ s i, ∀ now (m : gmap Id Task),
    patch_tasks now ps m !! id = placed now s i <$> m !! id.
Proof.
  induction ps as [|[j [s k]] ps IH]; intros Hin; [by apply elem_of_nil in Hin|].
  destruct (decide (id ∈ ps.*1)) as [Hlater|Hlater].
  - destruct (IH Hlater) as (s' & i' & Hlast). exists s', i'. intros now m.
    rewrite patch_tasks_cons, Hlast. cbn [fst snd].
    destruct (decide (j = id)) as [->|Hne].
    + rewrite lookup_alter_eq. destruct (m !! id) as [t|]; [|done].
      reflexivity.
    + by rewrite lookup_alter_ne.
  - rewrite fmap_cons in Hin. apply elem_of_cons in Hin as [Heq|Hin]; [|done].
    cbn in Heq. subst j. exists s, k. intros now m.
    rewrite patch_tasks_cons, patch_tasks_other by done. cbn [fst snd].
    apply lookup_alter_eq.
Qed.

(** Property X7: the tasks after a [reorder] do not depend on an
    earlier [reorder] with the same columns: sending the columns twice
    leaves the tasks as the later call alone would. *)
Theorem reorder_again now1 now2 args1 args2 d :
  Forall (λ j, is_Some (tasks d !! j)) (listed (columns args1)) →
  columns args2 = columns args1 →
  ∃ d1 w1 d2 w2 d2' w2',
    run (reorder now1 args1) d = Some (tt, d1, w1)
    ∧ run (reorder now2 args2) d1 = Some (tt, d2, w2)
    ∧ run (reorder now2 args2) d = Some (tt, d2', w2')
    ∧ tasks d2 = tasks d2'.
Proof.
  intros Hex Hcols.
  destruct (reorder_run now1 args1 d Hex) as (d1 & w1 & Hr1 & Ht1 & _).
  assert (Hex1 : Forall (λ j, is_Some (tasks d1 !! j)) (listed (columns args2))).
  { rewrite Hcols. eapply Forall_impl; [exact Hex|]. cbn. intros j Hj.
    rewrite Ht1. by apply patch_tasks_is_Some. }
  destruct (reorder_run now2 args2 d1 Hex1) as (d2 & w2 & Hr2 & Ht2 & _).
  assert (Hex2 : Forall (λ j, is_Some (tasks d !! j)) (listed (columns args2)))
    by (by rewrite Hcols).
  destruct (reorder_run now2 args2 d Hex2) as (d2' & w2' & Hr2' & Ht2' & _).
  exists d1, w1, d2, w2, d2', w2'. split_and!; try done.
  rewrite Ht2, Ht2', Ht1, Hcols. apply map_eq. intros id.
  set (ps := all_patches (columns args1)).
  destruct (decide (id ∈ ps.*1)) as [Hin|Hin].
  - destruct (patch_tasks_last_wins ps id Hin) as (s & i & Hlast).
    rewrite !Hlast. destruct (tasks d !! id) as [t|]; [|done].
    reflexivity.
  - by rewrite !patch_tasks_other.
Qed.

Lemma reorder_again_witness :
  ∃ d1 w1 d2 w2 d2' w2',
    run (reorder 5 (no_meta [mkColumn (Canon Done) [id_B; id_A]])) board
    = Some (tt, d1, w1)
    ∧ run (reorder 9 (no_meta [mkColumn (Canon Done) [id_B; id_A]])) d1
      = Some (tt, d2, w2)
    ∧ run (reorder 9 (no_meta [mkColumn (Canon Done) [id_B; id_A]])) board
      = Some (tt, d2', w2')
    ∧ tasks d2 = tasks d2'.
Proof.
  apply (reorder_again 5 9 (no_meta [mkColumn (Canon Done) [id_B; id_A]])
           (no_meta [mkColumn (Canon Done) [id_B; id_A]]) board);
    [compute_done|reflexivity].
Defined.

(** Property X8: [send] writes nothing for a text or an author
    that is blank after trimming.  Otherwise it stores the trimmed message
    under a fresh id, whether or not [taskId] names a task, leaves the tasks
    alone, and records one event whose preview is the first 80 code units
    of the stored text. *)
Theorem send_stores_message now taskId text author d :
  (trim text = [] ∨ trim author = [] →
     run (send now taskId text author) d = Some (None, d, []))
  ∧ (trim text ≠ [] → trim author ≠ [] →
     ∃ mid eid d' e preview,
       run (send now taskId text author) d
       = Some (Some mid, d', [WInsert TMessages mid; WInsert TTaskEvents eid])
       ∧ (mid ∉ db_ids d)
       ∧ tasks d' = tasks d
       ∧ app_state d' = app_state d
       ∧ messages d'
         = messages d ++ [(mid, mkMessage taskId (trim text) (trim author) now)]
       ∧ task_events d' = task_events d ++ [(eid, e)]
       ∧ e_taskId e = taskId ∧ e_type e = message_sent ∧ e_createdAt e = now
       ∧ e_payload e = payload_preview preview
       ∧ preview `prefix_of` trim text
       ∧ length preview = (length (trim text) `min` 80)%nat).
Proof.
  split; [apply send_run|]. intros Ht Ha. unfold run, send.
  apply truthy_true in Ht, Ha. rewrite Ht, Ha. cbn [negb orb].
  eexists (new_id d), _, _, _, (take 80 (trim text)).
  split; [reflexivity|]. cbn [db tasks messages task_events app_state set_messages
                              set_task_events e_taskId e_type e_createdAt e_payload].
  split_and!; try done.
  - apply new_id_fresh.
  - apply prefix_take.
  - rewrite length_take. lia.
Qed.

Lemma send_stores_message_witness :
  ∃ mid eid d' e preview,
    run (send 7 (lit "no-such-task") (lit " hello ") (lit "Bob")) board
    = Some (Some mid, d', [WInsert TMessages mid; WInsert TTaskEvents eid])
    ∧ (mid ∉ db_ids board)
    ∧ tasks d' = tasks board
    ∧ app_state d' = app_state board
    ∧ messages d'
      = messages board
        ++ [(mid, mkMessage (lit "no-such-task") (trim (lit " hello "))
                            (trim (lit "Bob")) 7)]
    ∧ task_events d' = task_events board ++ [(eid, e)]
    ∧ e_taskId e = lit "no-such-task" ∧ e_type e = message_sent ∧ e_createdAt e = 7
    ∧ e_payload e = payload_preview preview
    ∧ preview `prefix_of` trim (lit " hello ")
    ∧ length preview = (length (trim (lit " hello ")) `min` 80)%nat.
Proof.
  apply (send_stores_message 7 (lit "no-such-task") (lit " hello ") (lit "Bob") board);
    compute_done.
Defined.

Lemma fix_status_run now n i t (c : Ctx) u :
  tasks (db c) !! i = Some u →
  fix_status now n (i, t) c
  = if decide (legacy t)
    then Some (n + 1,
               mkCtx (set_tasks (db c)
                        (<[i := apply_patch
                                  (mkTaskPatch (Some (normalizeLegacyStatus (Some (status t))))
                                               None None (Some now)) u]> (tasks (db c))))
                     (journal c ++ [WPatch TTasks i]))
    else Some (n, c).
Proof.
  intros Hu. unfold fix_status. cbn [fst snd].
  destruct (decide (legacy t)) as [Hl|Hl].
  - rewrite bool_decide_eq_false_2 by exact Hl.
    unfold bind at 1. by rewrite (db_patch_run _ _ _ _ Hu).
  - rewrite bool_decide_eq_true_2; [done|].
    unfold legacy in Hl. by destruct (decide (status t = Canon (normalizeLegacyStatus (Some (status t))))).
Qed.

(** The loop of [fixTaskStatuses] over rows with distinct ids that are still
    stored as they were read. *)
Lemma fix_loop now rows : NoDup rows.*1 → ∀ (c : Ctx) n,
  (∀ i t, (i, t) ∈ rows → tasks (db c) !! i = Some t) →
  ∃ c', for_acc rows n (fix_status now) c
        = Some (n + Z.of_nat (length (filter (λ r, legacy r.2) rows)), c')
    ∧ (∀ i, i ∉ rows.*1 → tasks (db c') !! i = tasks (db c) !! i)
    ∧ (∀ i t, (i, t) ∈ rows →
         tasks (db c') !! i
         = Some (if decide (legacy t)
                 then apply_patch
                        (mkTaskPatch (Some (normalizeLegacyStatus (Some (status t))))
                                     None None (Some now)) t
                 else t))
    ∧ messages (db c') = messages (db c)
    ∧ task_events (db c') = task_events (db c)
    ∧ app_state (db c') = app_state (db c)
    ∧ journal c' = journal c ++ (WPatch TTasks <$> (filter (λ r, legacy r.2) rows).*1).
Proof.
  induction rows as [|[i t] rows IH]; intros Hnd c n Hrows.
  - exists c. cbn. rewrite Z.add_0_r, app_nil_r. split_and!; try done.
    intros i t Hin. by apply elem_of_nil in Hin.
  - rewrite fmap_cons in Hnd. apply NoDup_cons in Hnd as [Hi Hnd]. cbn [fst] in Hi.
    cbn [for_acc]. unfold bind at 1.
    rewrite (fix_status_run now n i t c t) by (apply Hrows; left).
    rewrite filter_cons. cbn [snd].
    destruct (decide (legacy t)) as [Hl|Hl].
    + set (c1 := mkCtx _ _).
      destruct (IH Hnd c1 (n + 1)) as (c' & Hrun & Hout & Hin & Hm & He & Ha & Hj).
      { intros j u Hju. subst c1. cbn. rewrite lookup_insert_ne.
        - apply Hrows. by right.
        - intros ->. apply Hi. apply list_elem_of_fmap. by exists (j, u). }
      exists c'. rewrite Hrun, Hm, He, Ha, Hj. subst c1. cbn.
      split_and!; try done.
      * cbn [length]. do 2 f_equal. lia.
      * intros j Hj'. apply not_elem_of_cons in Hj' as [Hne Hj'].
        rewrite Hout by done. cbn. by rewrite lookup_insert_ne.
      * intros j u Hju. apply elem_of_cons in Hju as [Heq|Hju].
        -- injection Heq as -> ->. rewrite Hout by done. cbn.
           rewrite lookup_insert_eq. by destruct (decide (legacy t)).
        -- by apply Hin.
      * by rewrite <- app_assoc.
    + destruct (IH Hnd c n) as (c' & Hrun & Hout & Hin & Hm & He & Ha & Hj).
      { intros j u Hju. apply Hrows. by right. }
      exists c'. rewrite Hrun, Hm, He, Ha, Hj. split_and!; try done.
      * intros j Hj'. apply not_elem_of_cons in Hj' as [Hne Hj']. by apply Hout.
      * intros j u Hju. apply elem_of_cons in Hju as [Heq|Hju].
        -- injection Heq as -> ->. rewrite Hout by done.
           destruct (decide (legacy t)); [done|]. apply Hrows. left.
        -- by apply Hin.
Qed.

Lemma fixTaskStatuses_run now d :
  ∃ d' w,
    run (fixTaskStatuses now) d
    = Some (Z.of_nat (length (filter (λ r, legacy r.2) (map_to_list (tasks d)))), d', w)
    ∧ (∀ i, tasks d' !! i
            = (λ t, if decide (legacy t)
                    then apply_patch
                           (mkTaskPatch (Some (normalizeLegacyStatus (Some (status t))))
                                        None None (Some now)) t
                    else t) <$> tasks d !! i)
    ∧ messages d' = messages d
    ∧ task_events d' = task_events d
    ∧ app_state d' = app_state d
    ∧ w = WPatch TTasks <$> (filter (λ r, legacy r.2) (map_to_list (tasks d))).*1.
Proof.
  unfold run, fixTaskStatuses. unfold bind at 1. cbn [get_db db].
  destruct (fix_loop now (map_to_list (tasks d)) (NoDup_fst_map_to_list _)
              (mkCtx d []) 0)
    as (c' & -> & Hout & Hin & Hm & He & Ha & Hj).
  { intros i t Hit. cbn. by apply elem_of_map_to_list. }
  exists (db c'), (journal c'). cbn in *. rewrite Hj. split_and!; try done.
  intros i. destruct (tasks d !! i) as [t|] eqn:Ht.
  - cbn. apply Hin. by apply elem_of_map_to_list.
  - cbn. rewrite Hout, Ht; [done|]. intros Hi.
    apply list_elem_of_fmap in Hi as ([j u] & -> & Hju).
    apply elem_of_map_to_list in Hju. cbn in Ht. congruence.
Qed.

Lemma legacy_canon t s : status t = Canon s → ¬ legacy t.
Proof. unfold legacy. intros ->. by destruct s; intros []. Qed.

(** Property X9: [fixTaskStatuses] always completes; it
    patches exactly the tasks stored under a status outside the strict
    schema and returns their number.  Afterwards every status is strict and
    is the normalized form of the old one; title, description, order and
    [createdAt] are kept; a task that was strict already is unchanged, a
    migrated one has [updatedAt] at the time of the call; no task appears
    or disappears and the other tables are untouched. *)
Theorem fixTaskStatuses_migrates now d :
  ∃ n d' w,
    run (fixTaskStatuses now) d = Some (n, d', w)
    ∧ n = Z.of_nat (length (filter (λ r, legacy r.2) (map_to_list (tasks d))))
    ∧ length w = Z.to_nat n
    ∧ Forall (λ x, ∃ i t, x = WPatch TTasks i ∧ tasks d !! i = Some t ∧ legacy t) w
    ∧ canonical d'
    ∧ (∀ i, tasks d !! i = None → tasks d' !! i = None)
    ∧ (∀ i t, tasks d !! i = Some t →
         ∃ t', tasks d' !! i = Some t'
           ∧ status t' = Canon (normalizeLegacyStatus (Some (status t)))
           ∧ title t' = title t ∧ description t' = description t
           ∧ order t' = order t ∧ createdAt t' = createdAt t
           ∧ (¬ legacy t → t' = t)
           ∧ (legacy t → updatedAt t' = now))
    ∧ messages d' = messages d
    ∧ task_events d' = task_events d
    ∧ app_state d' = app_state d.
Proof.
  destruct (fixTaskStatuses_run now d) as (d' & w & Hrun & Ht & Hm & He & Ha & Hw).
  eexists _, d', w. split; [exact Hrun|]. split_and!; try done.
  - rewrite Nat2Z.id, Hw. by rewrite !length_fmap.
  - rewrite Hw. apply Forall_forall. intros x Hx.
    apply list_elem_of_fmap in Hx as (i & -> & Hi).
    apply list_elem_of_fmap in Hi as ([j t] & -> & Hjt).
    apply list_elem_of_filter in Hjt as [Hl Hjt]. apply elem_of_map_to_list in Hjt.
    by exists j, t.
  - intros i t' Hi. rewrite Ht in Hi.
    destruct (tasks d !! i) as [t|]; [|done]. cbn in Hi. injection Hi as <-.
    destruct (decide (legacy t)) as [Hl|Hl]; [|done].
    eapply legacy_canon. reflexivity.
  - intros i Hi. by rewrite Ht, Hi.
  - intros i t Hi. rewrite Ht, Hi. cbn. eexists. split; [done|].
    destruct (decide (legacy t)) as [Hl|Hl]; cbn; split_and!; try done.
    unfold legacy in Hl. by destruct (decide (status t = Canon (normalizeLegacyStatus (Some (status t))))).
Qed.

Lemma filter_none {A} (P : A → Prop) `{!∀ x, Decision (P x)} (l : list A) :
  (∀ x, x ∈ l → ¬ P x) → filter P l = [].
Proof.
  induction l as [|x l IH]; intros Hl; [done|].
  rewrite filter_cons_False by (apply Hl; left). apply IH.
  intros y Hy. apply Hl. by right.
Qed.

Lemma fixTaskStatuses_canonical now d :
  canonical d → run (fixTaskStatuses now) d = Some (0, d, []).
Proof.
  intros Hc.
  destruct (fixTaskStatuses_run now d) as (d2 & w2 & Hrun2 & Ht2 & Hm & He & Ha & Hw).
  assert (Hnone : filter (λ r : Id * Task, legacy r.2) (map_to_list (tasks d)) = []).
  { apply filter_none. intros [i t] Hit. apply elem_of_map_to_list in Hit.
    cbn. by apply (Hc i). }
  rewrite Hnone in Hrun2, Hw. rewrite Hrun2. cbn in Hw. subst w2.
  do 3 f_equal. destruct d as [t m e a], d2 as [t2 m2 e2 a2]. cbn in *.
  subst. f_equal. apply map_eq. intros i. rewrite Ht2.
  destruct (t !! i) as [u|] eqn:Hu; [|done]. cbn.
  destruct (decide (legacy u)) as [Hl|Hl]; [|done]. by destruct (Hc i u).
Qed.

(** Property X10: run a second time, [fixTaskStatuses] returns
    0, writes nothing and leaves the database as it is. *)
Theorem fixTaskStatuses_twice now1 now2 d :
  ∃ n d' w,
    run (fixTaskStatuses now1) d = Some (n, d', w)
    ∧ run (fixTaskStatuses now2) d' = Some (0, d', []).
Proof.
  destruct (fixTaskStatuses_run now1 d) as (d' & w & Hrun & Ht & _).
  eexists _, d', w. split; [exact Hrun|].
  apply fixTaskStatuses_canonical. intros i t' Hi. rewrite Ht in Hi.
  destruct (tasks d !! i) as [t|]; [|done]. cbn in Hi. injection Hi as <-.
  destruct (decide (legacy t)) as [Hl|Hl]; [|done].
  eapply legacy_canon. reflexivity.
Qed.

Section keeps_facts.
Context (I : Db → Prop) (HI : closed I).

Lemma keeps_ret {A} (a : A) : keeps I (ret a).
Proof. intros c a' c' Hc [= <- <-]. exact Hc. Qed.

Lemma keeps_throw {A} : keeps I (@throw A).
Proof. by intros c a' c' Hc. Qed.

Lemma keeps_bind {A B} (m : Mutation A) (k : A → Mutation B) :
  keeps I m → (∀ a, keeps I (k a)) → keeps I (bind m k).
Proof.
  intros Hm Hk c b c' Hc. unfold bind.
  destruct (m c) as [[a c1]|] eqn:Hmc; [|done].
  intros Hkc. eapply Hk; [|exact Hkc]. eapply Hm; [exact Hc|exact Hmc].
Qed.

Lemma keeps_get_db : keeps I get_db.
Proof. intros c a c' Hc [= <- <-]. exact Hc. Qed.

Lemma keeps_for_of {A} (xs : list A) body :
  (∀ x, keeps I (body x)) → keeps I (for_of xs body).
Proof.
  intros Hb. induction xs as [|x xs IH]; cbn [for_of].
  - apply keeps_ret.
  - apply keeps_bind; [apply Hb|]. intros _. exact IH.
Qed.

Lemma keeps_for_index {A} (xs : list A) body : ∀ i,
  (∀ i x, keeps I (body i x)) → keeps I (for_index i xs body).
Proof.
  induction xs as [|x xs IH]; intros i Hb; cbn [for_index].
  - apply keeps_ret.
  - apply keeps_bind; [apply Hb|]. intros _. by apply IH.
Qed.

Lemma keeps_for_acc {A St} (xs : list A) (body : St → A → Mutation St) : ∀ s,
  (∀ s x, keeps I (body s x)) → keeps I (for_acc xs s body).
Proof.
  induction xs as [|x xs IH]; intros s Hb; cbn [for_acc].
  - apply keeps_ret.
  - apply keeps_bind; [apply Hb|]. intros s'. by apply IH.
Qed.

Lemma keeps_db_get i : keeps I (db_get i).
Proof. intros c a c' Hc [= <- <-]. exact Hc. Qed.

Lemma keeps_getNextOrder s : keeps I (getNextOrder s).
Proof.
  intros c a c' Hc. unfold getNextOrder, bind, get_db.
  destruct (min_order _); intros [= <- <-]; exact Hc.
Qed.

Lemma keeps_db_patch i p : keeps I (db_patch i p).
Proof using HI.
  intros c a c' Hc. unfold db_patch, bind, get_db.
  destruct (tasks (db c) !! i) as [t|] eqn:Ht; [|done].
  intros [= <- <-]. cbn. by apply closed_patch.
Qed.

Lemma keeps_db_delete i : keeps I (db_delete i).
Proof using HI.
  intros c a c' Hc. unfold db_delete, bind, get_db.
  destruct (tasks (db c) !! i) as [t|] eqn:Ht; [|done].
  intros [= <- <-]. cbn. by apply closed_delete.
Qed.

Lemma keeps_insert_task t s : status t = Canon s → keeps I (insert_task t).
Proof using HI.
  intros Hs c a c' Hc [= <- <-]. cbn. by eapply closed_insert_task.
Qed.

Lemma keeps_insert_message m : keeps I (insert_message m).
Proof using HI. intros c a c' Hc [= <- <-]. cbn. by apply closed_insert_message. Qed.

Lemma keeps_insert_event e : keeps I (insert_event e).
Proof using HI. intros c a c' Hc [= <- <-]. cbn. by apply closed_insert_event. Qed.

Lemma keeps_insert_app_state a : keeps I (insert_app_state a).
Proof using HI. intros c a' c' Hc [= <- <-]. cbn. by apply closed_insert_app_state. Qed.

Lemma keeps_delete_message i : keeps I (delete_message i).
Proof using HI.
  intros c a c' Hc. unfold delete_message, bind, get_db.
  case_bool_decide; [|done]. intros [= <- <-]. cbn. by apply closed_delete_message.
Qed.

Lemma keeps_delete_event i : keeps I (delete_event i).
Proof using HI.
  intros c a c' Hc. unfold delete_event, bind, get_db.
  case_bool_decide; [|done]. intros [= <- <-]. cbn. by apply closed_delete_event.
Qed.

Lemma keeps_patch_app_state i v at_ : keeps I (patch_app_state i v at_).
Proof using HI.
  intros c a c' Hc. unfold patch_app_state, bind, get_db.
  case_bool_decide; [|done]. intros [= <- <-]. cbn.
  by apply closed_patch_app_state.
Qed.

Lemma keeps_record_if e : keeps I (record_if e).
Proof using HI.
  destruct e as [e|]; cbn [record_if]; [|apply keeps_ret].
  apply keeps_bind; [apply keeps_insert_event|]. intros _. apply keeps_ret.
Qed.

Ltac keeps_step :=
  first
    [ apply keeps_ret | apply keeps_throw | apply keeps_get_db | apply keeps_db_get
    | apply keeps_getNextOrder | apply keeps_db_patch | apply keeps_db_delete
    | apply keeps_insert_message | apply keeps_insert_event
    | apply keeps_insert_app_state | apply keeps_delete_message
    | apply keeps_delete_event | apply keeps_patch_app_state | apply keeps_record_if
    | (eapply keeps_insert_task; reflexivity)
    | (apply keeps_for_of; intros ?) | (apply keeps_for_index; intros ? ?)
    | (apply keeps_for_acc; intros ? ?)
    | (apply keeps_bind; [|intros ?]) ].

Lemma keeps_create now args : keeps I (create now args).
Proof using HI.
  unfold create. destruct (negb _); [apply keeps_ret|].
  apply keeps_bind; [destruct (c_order args); keeps_step|]. intros o.
  repeat keeps_step.
Qed.

Lemma keeps_setStatus now id target actor : keeps I (setStatus now id target actor).
Proof using HI.
  unfold setStatus. apply keeps_bind; [keeps_step|]. intros [t|]; [|keeps_step].
  destruct (_ && _); repeat keeps_step.
Qed.

Lemma keeps_cycleStatus now id actor : keeps I (cycleStatus now id actor).
Proof using HI.
  unfold cycleStatus. apply keeps_bind; [keeps_step|]. intros [t|]; repeat keeps_step.
Qed.

Lemma keeps_remove id : keeps I (remove id).
Proof using HI. apply keeps_db_delete. Qed.

Lemma keeps_updateDescription now id text actor :
  keeps I (updateDescription now id text actor).
Proof using HI.
  unfold updateDescription. apply keeps_bind; [keeps_step|].
  intros [t|]; [|keeps_step]. destruct (Js.eqb _ _); repeat keeps_step.
Qed.

Lemma keeps_reorder now args : keeps I (reorder now args).
Proof using HI. unfold reorder, rewrite_columns, place. repeat keeps_step. Qed.

Lemma keeps_send now taskId text author : keeps I (send now taskId text author).
Proof using HI. unfold send. destruct (_ || _); repeat keeps_step. Qed.

Lemma keeps_seed_task baseTime task : keeps I (seed_task baseTime task).
Proof using HI.
  unfold seed_task. apply keeps_bind; [keeps_step|]. intros taskId.
  apply keeps_bind; [keeps_step|]. intros _.
  apply keeps_bind.
  { destruct (st_statusFrom task), (st_statusOffset task); repeat keeps_step. }
  intros u1. apply keeps_bind.
  { destruct (st_description task) as [s|], (st_descriptionOffset task);
      try keeps_step. destruct (truthy s); repeat keeps_step. }
  intros u2. apply keeps_bind.
  { destruct (st_messages task); repeat keeps_step. }
  intros u3. case_bool_decide; keeps_step.
Qed.

Lemma keeps_wipe : keeps I wipe.
Proof using HI. unfold wipe. repeat keeps_step. Qed.

Lemma keeps_seedDemoData now language : keeps I (seedDemoData now language).
Proof using HI.
  unfold seedDemoData. apply keeps_bind; [keeps_step|]. intros d.
  apply keeps_bind; [destruct (seeded_flag d); [apply keeps_wipe|keeps_step]|].
  intros _. apply keeps_bind; [apply keeps_for_of; intros t; apply keeps_seed_task|].
  intros _. destruct (seeded_doc d); repeat keeps_step.
Qed.

Lemma keeps_fixTaskStatuses now : keeps I (fixTaskStatuses now).
Proof using HI.
  unfold fixTaskStatuses, fix_status. apply keeps_bind; [keeps_step|]. intros d.
  apply keeps_for_acc. intros n [i t]. case_bool_decide; repeat keeps_step.
Qed.

Lemma keeps_run {A} (m : Mutation A) d r d' w :
  keeps I m → I d → run m d = Some (r, d', w) → I d'.
Proof.
  intros Hm Hd. unfold run. destruct (m (mkCtx d [])) as [[a c]|] eqn:Hmc; [|done].
  intros [= <- <- <-]. eapply (Hm (mkCtx d [])); [exact Hd|exact Hmc].
Qed.

End keeps_facts.

Lemma closed_canonical : closed canonical.
Proof.
  split; try (intros; assumption).
  - intros d i t p Hd Hi j u. cbn. destruct (decide (i = j)) as [->|Hne].
    + rewrite lookup_insert_eq. intros [= <-].
      unfold legacy, apply_patch. cbn [status].
      destruct (tp_status p) as [s|]; cbn.
      * by destruct s; intros [].
      * by apply (Hd j).
    + rewrite lookup_insert_ne by done. apply Hd.
  - intros d i Hd j u. cbn. intros Hj. apply lookup_delete_Some in Hj as [_ Hj].
    by apply (Hd j).
  - intros d t s Hd Hs j u. cbn [tasks set_tasks]. destruct (decide (new_id d = j)) as [->|Hne].
    + rewrite lookup_insert_eq. intros [= <-]. by eapply legacy_canon.
    + rewrite lookup_insert_ne by done. apply Hd.
Qed.

Lemma keys_subseteq (m1 m2 : gmap Id Task) rest :
  (∀ i, is_Some (m1 !! i) → is_Some (m2 !! i)) →
  NoDup ((map_to_list m2).*1 ++ rest) → NoDup ((map_to_list m1).*1 ++ rest).
Proof.
  intros Hsub Hnd. apply NoDup_app in Hnd as (_ & Hdisj & Hrest).
  apply NoDup_app. split_and!; [apply NoDup_fst_map_to_list| |done].
  intros i Hi. apply Hdisj.
  apply list_elem_of_fmap in Hi as ([j t] & -> & Hjt).
  apply elem_of_map_to_list in Hjt.
  destruct (Hsub j) as [u Hu]; [by eexists|].
  apply list_elem_of_fmap. exists (j, u). split; [done|].
  by apply elem_of_map_to_list.
Qed.

Lemma remove_row_sublist {A} i (rows : list (Id * A)) :
  (remove_row i rows).*1 `sublist_of` rows.*1.
Proof. unfold remove_row. apply fmap_sublist, sublist_filter. Qed.

Lemma closed_distinct_ids : closed distinct_ids.
Proof.
  unfold distinct_ids, db_ids. split;
    cbn [tasks messages task_events app_state set_tasks set_messages
         set_task_events set_app_state].
  - intros d i t p Hd Hi. eapply keys_subseteq; [|exact Hd].
    intros j. destruct (decide (i = j)) as [->|Hne].
    + by rewrite Hi.
    + by rewrite lookup_insert_ne.
  - intros d i Hd. eapply keys_subseteq; [|exact Hd].
    intros j [u Hu]. apply lookup_delete_Some in Hu as [_ Hu]. by eexists.
  - intros d t s Hd _.
    rewrite map_to_list_insert by apply new_id_not_task.
    cbn. apply NoDup_cons. split; [apply new_id_fresh|exact Hd].
  - intros d m Hd. pose proof (new_id_fresh d) as Hf. unfold db_ids in Hf.
    rewrite fmap_app. cbn [fmap list_fmap fst].
    rewrite <- !app_assoc. cbn [app]. rewrite <- !Permutation_middle.
    apply NoDup_cons. split; [exact Hf|exact Hd].
  - intros d e Hd. pose proof (new_id_fresh d) as Hf. unfold db_ids in Hf.
    rewrite fmap_app. cbn [fmap list_fmap fst].
    rewrite <- !app_assoc. cbn [app]. rewrite <- !Permutation_middle.
    apply NoDup_cons. split; [exact Hf|exact Hd].
  - intros d a Hd. pose proof (new_id_fresh d) as Hf. unfold db_ids in Hf.
    rewrite fmap_app. cbn [fmap list_fmap fst].
    rewrite !app_assoc, <- Permutation_cons_append, <- !app_assoc.
    apply NoDup_cons. split; [exact Hf|exact Hd].
  - intros d i Hd. eapply sublist_NoDup; [exact Hd|]. apply sublist_app; [done|].
    apply sublist_app; [apply remove_row_sublist|done].
  - intros d i Hd. eapply sublist_NoDup; [exact Hd|]. apply sublist_app; [done|].
    apply sublist_app; [done|]. apply sublist_app; [apply remove_row_sublist|done].
  - intros d i v at_ Hd.
    rewrite <- list_fmap_compose.
    erewrite (list_fmap_ext _ fst (app_state d)); [exact Hd|].
    intros k [j a] _. cbn. by case_bool_decide.
Qed.

(** Property X11: once every stored status is of the strict schema,
    no mutation of the backend stores a legacy status again: whatever a run
    of [create], [setStatus], [cycleStatus], [remove], [updateDescription],
    [reorder], [send], [seedDemoData] or [fixTaskStatuses] commits has
    strict statuses only. *)
Theorem canonical_kept now d :
  canonical d →
  (∀ args, stays canonical d (create now args))
  ∧ (∀ id target actor, stays canonical d (setStatus now id target actor))
  ∧ (∀ id actor, stays canonical d (cycleStatus now id actor))
  ∧ (∀ id, stays canonical d (remove id))
  ∧ (∀ id text actor, stays canonical d (updateDescription now id text actor))
  ∧ (∀ args, stays canonical d (reorder now args))
  ∧ (∀ taskId text author, stays canonical d (send now taskId text author))
  ∧ (∀ language, stays canonical d (seedDemoData now language))
  ∧ stays canonical d (fixTaskStatuses now).
Proof.
  intros Hd. pose proof closed_canonical as HI.
  split_and!; intros; intros r d' w Hrun;
    (eapply keeps_run; [|exact Hd|exact Hrun]).
  - by apply keeps_create.
  - by apply keeps_setStatus.
  - by apply keeps_cycleStatus.
  - by apply keeps_remove.
  - by apply keeps_updateDescription.
  - by apply keeps_reorder.
  - by apply keeps_send.
  - by apply keeps_seedDemoData.
  - by apply keeps_fixTaskStatuses.
Qed.

Lemma canonical_kept_witness :
  canonical board
  ∧ (∀ args, stays canonical board (create 9 args))
  ∧ (∀ id target actor, stays canonical board (setStatus 9 id target actor))
  ∧ (∀ id actor, stays canonical board (cycleStatus 9 id actor))
  ∧ (∀ id, stays canonical board (remove id))
  ∧ (∀ id text actor, stays canonical board (updateDescription 9 id text actor))
  ∧ (∀ args, stays canonical board (reorder 9 args))
  ∧ (∀ taskId text author, stays canonical board (send 9 taskId text author))
  ∧ (∀ language, stays canonical board (seedDemoData 9 language))
  ∧ stays canonical board (fixTaskStatuses 9).
Proof. split; [compute_done|]. apply (canonical_kept 9 board). compute_done. Defined.

Lemma distinct_rows d :
  distinct_ids d → NoDup (messages d).*1 ∧ NoDup (task_events d).*1
                   ∧ NoDup (app_state d).*1.
Proof.
  unfold distinct_ids, db_ids. intros Hd.
  apply NoDup_app in Hd as (_ & _ & Hd). apply NoDup_app in Hd as (Hm & _ & Hd).
  apply NoDup_app in Hd as (He & _ & Ha). done.
Qed.

(** The last step of [seedDemoData] leaves the flag at true. *)
Lemma set_flag_seeded now (c0 c : Ctx) :
  app_state (db c) = app_state (db c0) →
  ∃ c', (match seeded_doc (db c0) with
         | Some r => patch_app_state r.1 true now
         | None => insert_app_state (mkAppState DEMO_SEED_KEY true now now);; ret tt
         end) c = Some (tt, c')
        ∧ tasks (db c') = tasks (db c)
        ∧ messages (db c') = messages (db c)
        ∧ task_events (db c') = task_events (db c)
        ∧ seeded_flag (db c') = true
        ∧ length (app_state (db c'))
          = match seeded_doc (db c0) with
            | Some _ => length (app_state (db c0))
            | None => S (length (app_state (db c0)))
            end.
Proof.
  intros Ha. unfold seeded_flag, seeded_doc.
  generalize DEMO_SEED_KEY. intros key.
  destruct (list_find _ (app_state (db c0))) as [[k [i a]]|] eqn:Hfind;
    cbn [fmap option_fmap option_map snd fst].
  - unfold patch_app_state, bind, get_db. rewrite Ha.
    rewrite bool_decide_eq_true_2.
    2:{ apply list_find_Some in Hfind as (Hk & _).
        apply list_elem_of_fmap. exists (i, a). split; [done|].
        by eapply list_elem_of_lookup_2. }
    eexists. split; [reflexivity|].
    cbn [db tasks messages task_events app_state set_app_state].
    split_and!; try done.
    + rewrite list_find_fmap.
      erewrite list_find_ext; [rewrite Hfind|].
      * cbn [fmap option_fmap option_map prod_map snd fst from_option id].
        by rewrite bool_decide_eq_true_2.
      * intros [j b]. unfold compose. cbn [fst snd].
        by case_bool_decide.
    + by rewrite length_fmap.
  - eexists. split; [reflexivity|].
    cbn [db tasks messages task_events app_state set_app_state].
    split_and!; try done.
    + rewrite Ha. rewrite list_find_app_r by done.
      cbn [list_find fmap option_fmap option_map snd a_key].
      rewrite decide_True by done. done.
    + rewrite Ha, length_app. cbn [length]. lia.
Qed.

Lemma seedDemoData_run now language d :
  NoDup (messages d).*1 → NoDup (task_events d).*1 →
  ∃ d' w, run (seedDemoData now language) d = Some (tt, d', w)
    ∧ seeded_flag d' = true
    ∧ size (tasks d') = ((if seeded_flag d then 0 else size (tasks d)) + 7)%nat
    ∧ length (messages d') = ((if seeded_flag d then 0 else length (messages d)) + 4)%nat
    ∧ length (task_events d')
      = ((if seeded_flag d then 0 else length (task_events d)) + 20)%nat
    ∧ length (app_state d')
      = match seeded_doc d with
        | Some _ => length (app_state d)
        | None => S (length (app_state d))
        end.
Proof.
  intros Hndm Hnde. destruct (template_counts language) as (Hn & Hnm & Hne).
  unfold run. rewrite seedDemoData_unfold. cbn [db].
  assert (Hfirst : ∃ c0, (if seeded_flag d then wipe else ret tt) (mkCtx d [])
                         = Some (tt, c0)
            ∧ app_state (db c0) = app_state d
            ∧ size (tasks (db c0)) = (if seeded_flag d then 0 else size (tasks d))%nat
            ∧ length (messages (db c0))
              = (if seeded_flag d then 0 else length (messages d))%nat
            ∧ length (task_events (db c0))
              = (if seeded_flag d then 0 else length (task_events d))%nat).
  { destruct (seeded_flag d).
    - destruct (wipe_run (mkCtx d []) Hndm Hnde)
        as (c0 & Hw & Ht0 & Hm0 & He0 & Ha0 & Hj0).
      exists c0. rewrite Ht0, Hm0, He0. by split_and!.
    - by exists (mkCtx d []). }
  destruct Hfirst as (c0 & Hrun0 & Ha0 & Hs0 & Hm0 & He0).
  unfold bind at 1. rewrite Hrun0. unfold bind at 1.
  destruct (seed_tasks_run (now - minutes 85) (demoSeedTemplates language) c0)
    as (c1 & -> & Hk & Hs & Ha & (ms & Hm & Hlm) & (es & He & Hle) & _).
  destruct (set_flag_seeded now (mkCtx d []) c1)
    as (c2 & Hrun2 & Ht2 & Hm2 & He2 & Hflag & Hla); [by rewrite Ha, Ha0|].
  cbn [db] in Hrun2, Hla. rewrite Hrun2.
  exists (db c2), (journal c2). split; [done|].
  rewrite Ht2, Hm2, He2, Hm, He, Hs, !length_app, Hlm, Hle, Hn, Hnm, Hne, Hs0, Hm0, He0.
  by split_and!.
Qed.

(** Property X13: on a database with distinct ids
    [seedDemoData] completes and leaves the [demo_seeded] flag at true;
    [app_state] gains a row only when it had no flag row, and the ids stay
    distinct. *)
Theorem seedDemoData_sets_flag now language d :
  distinct_ids d →
  ∃ d' w, run (seedDemoData now language) d = Some (tt, d', w)
    ∧ seeded_flag d' = true
    ∧ length (app_state d')
      = match seeded_doc d with
        | Some _ => length (app_state d)
        | None => S (length (app_state d))
        end
    ∧ distinct_ids d'.
Proof.
  intros Hd. destruct (distinct_rows d Hd) as (Hm & He & _).
  destruct (seedDemoData_run now language d Hm He)
    as (d' & w & Hrun & Hflag & _ & _ & _ & Hla).
  exists d', w. split_and!; try done.
  eapply keeps_run; [|exact Hd|exact Hrun].
  apply keeps_seedDemoData, closed_distinct_ids.
Qed.

Lemma seedDemoData_sets_flag_witness :
  ∃ d' w, run (seedDemoData 100000000 ru) unseeded_board = Some (tt, d', w)
    ∧ seeded_flag d' = true
    ∧ length (app_state d') = 1%nat
    ∧ distinct_ids d'.
Proof. apply (seedDemoData_sets_flag 100000000 ru unseeded_board). compute_done. Defined.

Lemma grown_refl c : grown c c [] [].
Proof. unfold grown. by rewrite !app_nil_r. Qed.

Lemma total_grown_event c0 ms es e :
  total (λ c, grown c0 c ms es) (insert_event e)
        (λ _ c, grown c0 c ms (es ++ [e])).
Proof.
  intros c (Ht & Ha & Hm & He). eexists _, _. split.
  { unfold insert_event, bind, get_db, put_db, ret. reflexivity. }
  unfold grown. cbn [db tasks app_state messages task_events set_task_events].
  split_and!; [done..|]. rewrite fmap_app, He, <- app_assoc. done.
Qed.

Lemma total_grown_message c0 ms es m :
  total (λ c, grown c0 c ms es) (insert_message m)
        (λ _ c, grown c0 c (ms ++ [m]) es).
Proof.
  intros c (Ht & Ha & Hm & He). eexists _, _. split.
  { unfold insert_message, bind, get_db, put_db, ret. reflexivity. }
  unfold grown. cbn [db tasks app_state messages task_events set_messages].
  split_and!; [done..| |done]. rewrite fmap_app, Hm, <- app_assoc. done.
Qed.

(** The loop over the messages of a demo task. *)
Lemma total_grown_messages c0 baseTime taskId (msgs : list SeedMessage) :
  ∀ ms es u,
    total (λ c, grown c0 c ms es)
      (for_acc msgs u (λ updatedAt message,
         let messageAt := baseTime + minutes (sm_offset message) in
         insert_message (mkMessage taskId (sm_text message)
                                   (author_name (sm_author message)) messageAt);;
         insert_event (mkEvent taskId message_sent (lit "demo-user")
                               (payload_preview (buildPreview (sm_text message)))
                               messageAt);;
         ret (Z.max updatedAt messageAt)))
      (λ u' c,
         grown c0 c
           (ms ++ ((λ message, mkMessage taskId (sm_text message)
                                 (author_name (sm_author message))
                                 (baseTime + minutes (sm_offset message)))
                     <$> msgs))
           (es ++ ((λ message, mkEvent taskId message_sent (lit "demo-user")
                                 (payload_preview (buildPreview (sm_text message)))
                                 (baseTime + minutes (sm_offset message)))
                     <$> msgs))
         ∧ u' = foldl Z.max u
                  ((λ message, baseTime + minutes (sm_offset message)) <$> msgs)).
Proof.
  induction msgs as [|m msgs IH]; intros ms es u.
  - apply total_ret. intros c Hc. cbn. by rewrite !app_nil_r.
  - cbn [for_acc]. eapply total_bind.
    { eapply total_bind; [apply total_grown_message|]. intros ?.
      eapply total_bind; [apply total_grown_event|]. intros ?.
      apply total_ret with (Q := λ u' c,
        grown c0 c (ms ++ [mkMessage taskId (sm_text m)
                             (author_name (sm_author m))
                             (baseTime + minutes (sm_offset m))])
                   (es ++ [mkEvent taskId message_sent (lit "demo-user")
                             (payload_preview (buildPreview (sm_text m)))
                             (baseTime + minutes (sm_offset m))])
        ∧ u' = Z.max u (baseTime + minutes (sm_offset m))).
      by intros. }
    intros u1 c [Hc ->].
    destruct (IH _ _ (Z.max u (baseTime + minutes (sm_offset m))) c Hc)
      as (u' & c' & Hrun & Hg & Hu).
    exists u', c'. split; [exact Hrun|].
    rewrite !fmap_cons. cbn [foldl].
    rewrite <- !app_assoc in Hg. done.
Qed.

Lemma seed_task_rows baseTime task c :
  ∃ c', seed_task baseTime task c = Some (tt, c')
    ∧ tasks (db c') = <[new_id (db c) := seed_row baseTime task]> (tasks (db c))
    ∧ app_state (db c') = app_state (db c)
    ∧ (messages (db c')).*2
      = (messages (db c)).*2 ++ seed_message_rows baseTime (new_id (db c)) task
    ∧ (task_events (db c')).*2
      = (task_events (db c)).*2 ++ seed_event_rows baseTime (new_id (db c)) task.
Proof.
  unfold seed_task. unfold bind at 1.
  set (tid := new_id (db c)).
  set (createdAt := baseTime + minutes (st_createdOffset task)).
  set (T := mkTask _ _ _ _ _ _).
  assert (Hins : insert_task T c
                 = Some (tid, mkCtx (set_tasks (db c) (<[tid := T]> (tasks (db c))))
                                    (journal c ++ [WInsert TTasks tid]))) by done.
  rewrite Hins.
  set (c1 := mkCtx _ _).
  match goal with |- ∃ c', ?m c1 = _ ∧ _ =>
    assert (Htot : total (λ c', grown c1 c' [] []) m
                     (λ _ c',
                        tasks (db c') = <[tid := seed_row baseTime task]> (tasks (db c))
                        ∧ app_state (db c') = app_state (db c1)
                        ∧ (messages (db c')).*2
                          = (messages (db c1)).*2
                              ++ seed_message_rows baseTime tid task
                        ∧ (task_events (db c')).*2
                          = (task_events (db c1)).*2
                              ++ seed_event_rows baseTime tid task)) end.
  { eapply total_bind; [apply total_grown_event|]. intros ?.
    eapply total_bind with
      (Q := λ u c',
         grown c1 c' []
           ([mkEvent tid task_created (lit "demo-user") payload_empty createdAt]
            ++ match seed_status_at baseTime task with
               | Some (statusFrom, statusAt) =>
                   [mkEvent tid task_status_changed (lit "demo-user")
                            (payload_status statusFrom (st_status task)) statusAt]
               | None => []
               end)
         ∧ u = foldl Z.max createdAt
                 (option_list (snd <$> seed_status_at baseTime task))).
    { unfold seed_status_at.
      destruct (st_statusFrom task), (st_statusOffset task);
        try (apply total_ret; intros c' Hc'; by rewrite app_nil_r).
      eapply total_bind; [apply total_grown_event|].
      intros ?. apply total_ret; by intros. }
    intros u1.
    eapply total_bind with
      (Q := λ u c',
         grown c1 c' []
           ([mkEvent tid task_created (lit "demo-user") payload_empty createdAt]
            ++ match seed_status_at baseTime task with
               | Some (statusFrom, statusAt) =>
                   [mkEvent tid task_status_changed (lit "demo-user")
                            (payload_status statusFrom (st_status task)) statusAt]
               | None => []
               end
            ++ match seed_description_at baseTime task with
               | Some (description, descriptionAt) =>
                   [mkEvent tid task_description_updated (lit "demo-user")
                            (payload_preview (buildPreview description))
                            descriptionAt]
               | None => []
               end)
         ∧ u = foldl Z.max createdAt
                 (option_list (snd <$> seed_status_at baseTime task)
                  ++ option_list (snd <$> seed_description_at baseTime task))).
    { unfold seed_description_at.
      destruct (st_description task) as [s|], (st_descriptionOffset task);
        try (apply total_ret; intros c' [Hc' ->]; by rewrite !app_nil_r).
      destruct (truthy s);
        [|apply total_ret; intros c' [Hc' ->]; by rewrite !app_nil_r].
      intros c' [Hc' ->].
      destruct (total_grown_event c1 _ _
                  (mkEvent tid task_description_updated (lit "demo-user")
                           (payload_preview (buildPreview s))
                           (baseTime + minutes z)) c' Hc')
        as (i & c2 & Hrun & Hg).
      eexists _, c2. split.
      { unfold bind. rewrite Hrun. reflexivity. }
      split; [rewrite <- !app_assoc in Hg; exact Hg|].
      by rewrite foldl_app. }
    intros u2.
    eapply total_bind with
      (Q := λ u c',
         grown c1 c' (seed_message_rows baseTime tid task)
                     (seed_event_rows baseTime tid task)
         ∧ u = foldl Z.max createdAt (seed_times baseTime task)).
    { unfold seed_message_rows, seed_event_rows, seed_times, seed_messages.
      destruct (st_messages task) as [msgs|]; cbn [default from_option id].
      - intros c' [Hc' Hu2].
        destruct (total_grown_messages c1 baseTime tid msgs _ _ u2 c' Hc')
          as (u' & c2 & Hrun & Hg & ->).
        eexists _, c2. split; [exact Hrun|].
        split; [rewrite <- !app_assoc in Hg; exact Hg|].
        rewrite app_assoc, foldl_app. by rewrite Hu2.
      - apply total_ret. intros c' [Hc' ->].
        cbn [fmap list_fmap]. by rewrite !app_nil_r. }
    intros u3 c2 [(Ht & Ha & Hm & He) ->].
    assert (Htid : tasks (db c2) !! tid = Some T)
      by (rewrite Ht; apply lookup_insert_eq).
    case_bool_decide as Hu.
    - rewrite (db_patch_run _ _ _ _ Htid).
      eexists _, _. split; [reflexivity|].
      cbn [db tasks app_state messages task_events set_tasks].
      split_and!; [|done..]. rewrite Ht. cbn [tasks c1 db set_tasks].
      by rewrite insert_insert_eq.
    - exists tt, c2. split; [done|].
      split_and!; [|done..]. rewrite Ht. cbn [tasks c1 db set_tasks].
      f_equal. unfold seed_row. fold createdAt.
      by rewrite Hu. }
  destruct (Htot c1 (grown_refl c1)) as ([] & c' & Hrun & Ht & Ha & Hm & He).
  exists c'. split; [exact Hrun|]. by split_and!.
Qed.

(** The loop over the demo tasks: each gets a fresh id, and the rows of the
    templates are stored under these ids, in order. *)
Lemma seed_tasks_rows baseTime ts : ∀ c,
  ∃ c' ids,
    for_of ts (seed_task baseTime) c = Some (tt, c')
    ∧ length ids = length ts
    ∧ NoDup ids
    ∧ (∀ i, i ∈ ids → tasks (db c) !! i = None)
    ∧ tasks (db c')
      = list_to_map (zip ids (seed_row baseTime <$> ts)) ∪ tasks (db c)
    ∧ app_state (db c') = app_state (db c)
    ∧ (messages (db c')).*2
      = (messages (db c)).*2
          ++ concat (zip_with (seed_message_rows baseTime) ids ts)
    ∧ (task_events (db c')).*2
      = (task_events (db c)).*2
          ++ concat (zip_with (seed_event_rows baseTime) ids ts).
Proof.
  induction ts as [|task ts IH]; intros c.
  - exists c, []. split; [done|]. cbn.
    rewrite !app_nil_r, (left_id ∅ (∪)). split_and!; try done.
    + constructor.
    + intros i Hi. by apply elem_of_nil in Hi.
  - destruct (seed_task_rows baseTime task c) as (c1 & Hrun1 & Ht1 & Ha1 & Hm1 & He1).
    destruct (IH c1) as (c' & ids & Hrun & Hlen & Hnd & Hfresh & Ht & Ha & Hm & He).
    set (tid := new_id (db c)) in *.
    assert (Htid : tid ∉ ids).
    { intros Hin. apply Hfresh in Hin. rewrite Ht1, lookup_insert_eq in Hin.
      discriminate Hin. }
    exists c', (tid :: ids). split.
    { cbn [for_of]. unfold bind. by rewrite Hrun1. }
    split_and!.
    + cbn. by rewrite Hlen.
    + by constructor.
    + intros i Hi. apply elem_of_cons in Hi as [->|Hi].
      * apply new_id_not_task.
      * apply Hfresh in Hi. rewrite Ht1 in Hi.
        apply lookup_insert_None in Hi. tauto.
    + rewrite Ht, Ht1, fmap_cons. cbn [zip zip_with list_to_map foldr fst snd curry].
      rewrite <- insert_union_l, insert_union_r; [done|].
      apply not_elem_of_list_to_map_1. rewrite fst_zip; [done|].
      rewrite length_fmap. lia.
    + congruence.
    + rewrite Hm, Hm1. cbn [zip_with concat]. by rewrite <- app_assoc.
    + rewrite He, He1. cbn [zip_with concat]. by rewrite <- app_assoc.
Qed.

(** Seeding a seeded database: what is left is what the run inserts. *)
Lemma seedDemoData_rows now language d :
  seeded_flag d = true →
  NoDup (messages d).*1 → NoDup (task_events d).*1 →
  ∃ d' w ids,
    run (seedDemoData now language) d = Some (tt, d', w)
    ∧ length ids = length (demoSeedTemplates language)
    ∧ NoDup ids
    ∧ tasks d'
      = list_to_map (zip ids (seed_row (now - minutes 85)
                                <$> demoSeedTemplates language))
    ∧ (messages d').*2
      = concat (zip_with (seed_message_rows (now - minutes 85)) ids
                  (demoSeedTemplates language))
    ∧ (task_events d').*2
      = concat (zip_with (seed_event_rows (now - minutes 85)) ids
                  (demoSeedTemplates language)).
Proof.
  intros Hflag Hndm Hnde. unfold run. rewrite seedDemoData_unfold. cbn [db].
  rewrite Hflag. unfold bind at 1.
  destruct (wipe_run (mkCtx d []) Hndm Hnde)
    as (c0 & -> & Ht0 & Hm0 & He0 & Ha0 & Hj0).
  unfold bind at 1.
  destruct (seed_tasks_rows (now - minutes 85) (demoSeedTemplates language) c0)
    as (c1 & ids & -> & Hlen & Hnd & Hfresh & Ht & Ha & Hm & He).
  destruct (set_flag_seeded now (mkCtx d []) c1)
    as (c2 & Hrun2 & Ht2 & Hm2 & He2 & _); [by rewrite Ha, Ha0|].
  cbn [db] in Hrun2. rewrite Hrun2.
  exists (db c2), (journal c2), ids. split; [done|].
  rewrite Ht2, Hm2, He2, Ht, Hm, He, Ht0, Hm0, He0.
  split_and!; try done. apply (right_id ∅ (∪)).
Qed.

(** Property X14: seeding twice, in any languages, leaves exactly the demo
    data of the second run.  Under seven distinct ids the tasks are the rows
    of the templates of the second language, dated from the clock of the
    second call; the messages and the events are, in order, those the
    templates prescribe for these tasks.  That is 7 tasks, 4 messages and 20
    events; the flag is true and no second flag row is created. *)
Theorem seedDemoData_again now1 now2 language1 language2 d :
  distinct_ids d →
  ∃ d1 w1 d2 w2 ids,
    run (seedDemoData now1 language1) d = Some (tt, d1, w1)
    ∧ run (seedDemoData now2 language2) d1 = Some (tt, d2, w2)
    ∧ length ids = 7%nat
    ∧ NoDup ids
    ∧ tasks d2
      = list_to_map (zip ids (seed_row (now2 - minutes 85)
                                <$> demoSeedTemplates language2))
    ∧ (messages d2).*2
      = concat (zip_with (seed_message_rows (now2 - minutes 85)) ids
                  (demoSeedTemplates language2))
    ∧ (task_events d2).*2
      = concat (zip_with (seed_event_rows (now2 - minutes 85)) ids
                  (demoSeedTemplates language2))
    ∧ size (tasks d2) = 7%nat
    ∧ length (messages d2) = 4%nat
    ∧ length (task_events d2) = 20%nat
    ∧ length (app_state d2) = length (app_state d1)
    ∧ seeded_flag d2 = true.
Proof.
  intros Hd. destruct (distinct_rows d Hd) as (Hm & He & _).
  destruct (seedDemoData_run now1 language1 d Hm He)
    as (d1 & w1 & Hrun1 & Hflag1 & _).
  assert (Hd1 : distinct_ids d1).
  { eapply keeps_run; [|exact Hd|exact Hrun1].
    apply keeps_seedDemoData, closed_distinct_ids. }
  destruct (distinct_rows d1 Hd1) as (Hm1 & He1 & _).
  destruct (seedDemoData_run now2 language2 d1 Hm1 He1)
    as (d2 & w2 & Hrun2 & Hflag2 & Hs & Hlm & Hle & Hla).
  destruct (seedDemoData_rows now2 language2 d1 Hflag1 Hm1 He1)
    as (d2' & w2' & ids & Hrun2' & Hlen & Hnd & Ht & Hmr & Her).
  rewrite Hrun2 in Hrun2'. injection Hrun2' as <- <-.
  rewrite Hflag1 in Hs, Hlm, Hle.
  destruct (template_counts language2) as (Hn & _).
  exists d1, w1, d2, w2, ids. split_and!; try done.
  - by rewrite Hlen.
  - rewrite Hla. unfold seeded_flag in Hflag1. by destruct (seeded_doc d1).
Qed.

Lemma seedDemoData_again_witness :
  ∃ d1 w1 d2 w2 ids,
    run (seedDemoData 100000000 en) unseeded_board = Some (tt, d1, w1)
    ∧ run (seedDemoData 200000000 es) d1 = Some (tt, d2, w2)
    ∧ length ids = 7%nat
    ∧ NoDup ids
    ∧ tasks d2
      = list_to_map (zip ids (seed_row (200000000 - minutes 85)
                                <$> demoSeedTemplates es))
    ∧ (messages d2).*2
      = concat (zip_with (seed_message_rows (200000000 - minutes 85)) ids
                  (demoSeedTemplates es))
    ∧ (task_events d2).*2
      = concat (zip_with (seed_event_rows (200000000 - minutes 85)) ids
                  (demoSeedTemplates es))
    ∧ size (tasks d2) = 7%nat
    ∧ length (messages d2) = 4%nat
    ∧ length (task_events d2) = 20%nat
    ∧ length (app_state d2) = length (app_state d1)
    ∧ seeded_flag d2 = true.
Proof.
  apply (seedDemoData_again 100000000 200000000 en es unseeded_board). compute_done.
Defined.

End BackendFacts.

(** ** The client reducer *)

Module ReducerFacts.
Import TodoFacts.
Section reducer_facts.
Implicit Types (ts : list Todo.Task) (st : Todo.State) (t : Todo.Task).

Lemma with_tasks_same st : Todo.with_tasks st (Todo.tasks st) = st.
Proof. by destruct st. Qed.

Lemma existsb_false_iff {A} (p : A → bool) (l : list A) :
  existsb p l = false ↔ ∀ x, x ∈ l → p x = false.
Proof.
  induction l as [|a l IH]; cbn.
  - split; [|done]. intros _ x Hx. by apply elem_of_nil in Hx.
  - rewrite orb_false_iff, IH. split.
    + intros [Ha Hl] x Hx. apply elem_of_cons in Hx as [->|Hx]; auto.
    + intros H. split; [apply H; left|]. intros x Hx. apply H. by right.
Qed.

(** What the three [tasks.map] actions return: the mapped list, in a state
    that is the old one when the callback changed nothing. *)
Lemma map_changed_state (f : Todo.Task → option Todo.Task) st :
  (let '(nextTasks, changed) := Todo.map_changed f (Todo.tasks st) in
   if negb changed then st else Todo.with_tasks st nextTasks)
  = Todo.with_tasks st ((λ t, default t (f t)) <$> Todo.tasks st).
Proof.
  unfold Todo.map_changed.
  destruct (existsb _ _) eqn:Hex; cbn [negb]; [done|].
  rewrite <- (with_tasks_same st) at 1. f_equal.
  rewrite existsb_false_iff in Hex.
  rewrite <- (list_fmap_id (Todo.tasks st)) at 1.
  apply list_fmap_ext. intros k t Hk. cbn.
  assert (Hin : t ∈ Todo.tasks st) by (by eapply list_elem_of_lookup_2).
  apply Hex in Hin. destruct (f t); [|done].
  by rewrite bool_decide_eq_true_2 in Hin.
Qed.

Lemma map_changed_none (f : Todo.Task → option Todo.Task) st :
  (∀ t, t ∈ Todo.tasks st → f t = None) →
  (let '(nextTasks, changed) := Todo.map_changed f (Todo.tasks st) in
   if negb changed then st else Todo.with_tasks st nextTasks) = st.
Proof.
  intros Hf. unfold Todo.map_changed.
  assert (existsb (λ t, bool_decide (is_Some (f t))) (Todo.tasks st) = false) as ->;
    [|done].
  apply existsb_false_iff. intros t Ht. rewrite Hf by done.
  apply bool_decide_eq_false_2. by intros [? ?].
Qed.

Lemma filter_all {A} (P : A → Prop) `{!∀ x, Decision (P x)} (l : list A) :
  (∀ x, x ∈ l → P x) → filter P l = l.
Proof.
  induction l as [|a l IH]; intros Hl; [done|].
  rewrite filter_cons_True by (apply Hl; left). f_equal. apply IH.
  intros x Hx. apply Hl. by right.
Qed.

Lemma filter_nothing {A} (P : A → Prop) `{!∀ x, Decision (P x)} (l : list A) :
  (∀ x, x ∈ l → ¬ P x) → filter P l = [].
Proof.
  induction l as [|a l IH]; intros Hl; [done|].
  rewrite filter_cons_False by (apply Hl; left). apply IH.
  intros x Hx. apply Hl. by right.
Qed.

Lemma new_Map_unknown ts i : i ∉ Todo.id <$> ts → Todo.new_Map ts !! i = None.
Proof. intros Hi. unfold Todo.new_Map. by rewrite new_Map_fold_other. Qed.

End reducer_facts.

(** Property X15: an action that names a task the state does not
    hold returns the state it was given: [setStatus], [cycleStatus],
    [updateDescription] and [remove] with an unknown id, and [reorder] with
    unknown ids only. *)
Theorem reducer_unknown_id now (st : Todo.State) i :
  i ∉ Todo.id <$> Todo.tasks st →
  (∀ s, Todo.reducer now st (Todo.SetStatus i s) = st)
  ∧ Todo.reducer now st (Todo.CycleStatus i) = st
  ∧ (∀ d, Todo.reducer now st (Todo.UpdateDescription i d) = st)
  ∧ Todo.reducer now st (Todo.Remove i) = st
  ∧ (∀ ids, (∀ j, j ∈ ids → j ∉ Todo.id <$> Todo.tasks st) →
       Todo.reducer now st (Todo.Reorder ids) = st).
Proof.
  intros Hi.
  assert (Hne : ∀ t, t ∈ Todo.tasks st → Todo.id t ≠ i).
  { intros t Ht Heq. apply Hi. rewrite <- Heq. by apply list_elem_of_fmap_2. }
  split_and!.
  - intros s. cbn [Todo.reducer]. apply map_changed_none.
    intros t Ht. by rewrite bool_decide_eq_true_2 by (by apply Hne).
  - cbn [Todo.reducer]. apply map_changed_none.
    intros t Ht. by rewrite bool_decide_eq_true_2 by (by apply Hne).
  - intros d. cbn [Todo.reducer]. apply map_changed_none.
    intros t Ht. by rewrite bool_decide_eq_true_2 by (by apply Hne).
  - cbn [Todo.reducer]. rewrite filter_all by done. apply with_tasks_same.
  - intros ids Hids. cbn [Todo.reducer]. unfold Todo.reorder.
    case_bool_decide; [done|].
    destruct (foldl_pick (Todo.new_Map (Todo.tasks st)) ids ([], ∅)) as [-> _].
    cbn [fst app].
    assert (omap (λ j, Todo.new_Map (Todo.tasks st) !! j) ids = []) as ->; [|done].
    clear -Hids. induction ids as [|j ids IH]; [done|]. cbn [omap list_omap].
    rewrite new_Map_unknown by (apply Hids; left).
    apply IH. intros k Hk. apply Hids. by right.
Qed.

Lemma reducer_unknown_id_witness :
  (∀ s, Todo.reducer 9 Todo.three (Todo.SetStatus (lit "t-7") s) = Todo.three)
  ∧ Todo.reducer 9 Todo.three (Todo.CycleStatus (lit "t-7")) = Todo.three
  ∧ (∀ d, Todo.reducer 9 Todo.three (Todo.UpdateDescription (lit "t-7") d) = Todo.three)
  ∧ Todo.reducer 9 Todo.three (Todo.Remove (lit "t-7")) = Todo.three
  ∧ (∀ ids, (∀ j, j ∈ ids → j ∉ Todo.id <$> Todo.tasks Todo.three) →
       Todo.reducer 9 Todo.three (Todo.Reorder ids) = Todo.three).
Proof. apply (reducer_unknown_id 9 Todo.three (lit "t-7")). compute_done. Defined.

(** Property X16: [restore] inserts the task at the index
    clamped to the list (0 for a negative or non-finite index, the length
    for an index past the end) and moves no other task: deleting that
    position gives the old list back.  The filter is kept. *)
Theorem reducer_restore_inserts now (st : Todo.State) task index :
  let st' := Todo.reducer now st (Todo.Restore task index) in
  ∃ pos : nat,
    (pos ≤ length (Todo.tasks st))%nat
    ∧ Todo.tasks st' !! pos = Some task
    ∧ delete pos (Todo.tasks st') = Todo.tasks st
    ∧ Todo.filter st' = Todo.filter st
    ∧ match index with
      | None => pos = 0%nat
      | Some n =>
          (n ≤ 0 → pos = 0%nat)
          ∧ (0 ≤ n ≤ Z.of_nat (length (Todo.tasks st)) → Z.of_nat pos = n)
          ∧ (Z.of_nat (length (Todo.tasks st)) ≤ n → pos = length (Todo.tasks st))
      end.
Proof.
  cbn [Todo.reducer Todo.with_tasks Todo.tasks Todo.filter].
  set (ts := Todo.tasks st).
  set (pos := Z.to_nat match index with
                       | Some n => Z.min (Z.max 0 n) (Z.of_nat (length ts))
                       | None => 0
                       end).
  assert (Hpos : (pos ≤ length ts)%nat) by (subst pos; destruct index; lia).
  exists pos. split_and!; try done.
  - rewrite lookup_app_r by (rewrite length_take; lia).
    rewrite length_take. by replace (pos - pos `min` length ts)%nat with 0%nat by lia.
  - assert (Hlen : length (take pos ts) = pos) by (rewrite length_take; lia).
    transitivity (take pos ts ++ drop pos ts); [|apply take_drop].
    rewrite <- Hlen at 1. apply delete_middle.
  - subst pos. destruct index as [n|]; [|done]. lia.
Qed.

(** Property X17: removing a task and restoring it at the
    index it had gives the state back, when the ids are distinct. *)
Theorem reducer_remove_restore now1 now2 (st : Todo.State) k t :
  NoDup (Todo.id <$> Todo.tasks st) →
  Todo.tasks st !! k = Some t →
  Todo.reducer now2 (Todo.reducer now1 st (Todo.Remove (Todo.id t)))
    (Todo.Restore t (Some (Z.of_nat k))) = st.
Proof.
  intros Hnd Hk. destruct st as [ts f]. cbn [Todo.tasks] in *.
  cbn [Todo.reducer Todo.with_tasks Todo.tasks Todo.filter].
  pose proof (take_drop_middle ts k t Hk) as Hts.
  set (l1 := take k ts) in *. set (l2 := drop (S k) ts) in *.
  assert (Hl1 : length l1 = k).
  { subst l1. rewrite length_take. apply lookup_lt_Some in Hk. lia. }
  rewrite <- Hts in Hnd |- *. rewrite fmap_app, fmap_cons in Hnd.
  apply NoDup_app in Hnd as (_ & Hd1 & Hnd). apply NoDup_cons in Hnd as [Hd2 _].
  rewrite filter_app, filter_cons_False by (by intros []).
  rewrite !filter_all.
  2:{ intros x Hx Heq. apply Hd2. rewrite <- Heq. by apply list_elem_of_fmap_2. }
  2:{ intros x Hx Heq. apply (Hd1 (Todo.id x)); [by apply list_elem_of_fmap_2|].
      rewrite Heq. left. }
  replace (Z.to_nat (Z.min (Z.max 0 (Z.of_nat k)) (Z.of_nat (length (l1 ++ l2)))))
    with (length l1) by (rewrite length_app; lia).
  by rewrite take_app_length, drop_app_length.
Qed.

Lemma reducer_remove_restore_witness :
  Todo.reducer 8 (Todo.reducer 7 Todo.three (Todo.Remove (lit "t-2")))
    (Todo.Restore (Todo.mkTask (lit "t-2") (lit "B") (lit "") Todo.Done 2 2)
       (Some 1)) = Todo.three.
Proof.
  apply (reducer_remove_restore 7 8 Todo.three 1
           (Todo.mkTask (lit "t-2") (lit "B") (lit "") Todo.Done 2 2));
    [compute_done|reflexivity].
Defined.

(** Property X18: [addTask] refuses exactly the titles the [add] action
    ignores: for a title that is blank after trimming it returns no action
    and the error key, and the reducer leaves the state alone.  Otherwise
    its action has the same effect as [add] with the raw title: one backlog
    task in front, with the trimmed title, an empty description and both
    timestamps at the time of the call. *)
Theorem addTask_add now (st : Todo.State) title :
  (trim title = [] →
     Todo.action (Todo.addTask title) = None
     ∧ Todo.errorKey (Todo.addTask title) = Some Todo.titleRequired
     ∧ Todo.reducer now st (Todo.Add title) = st)
  ∧ (trim title ≠ [] →
     ∃ a t,
       Todo.action (Todo.addTask title) = Some a
       ∧ Todo.errorKey (Todo.addTask title) = None
       ∧ Todo.reducer now st a = Todo.reducer now st (Todo.Add title)
       ∧ Todo.reducer now st a = Todo.with_tasks st (t :: Todo.tasks st)
       ∧ Todo.title t = trim title
       ∧ Todo.title t = Todo.trimmed (Todo.addTask title)
       ∧ Todo.status t = Todo.Backlog
       ∧ Todo.description t = []
       ∧ Todo.createdAt t = now ∧ Todo.updatedAt t = now).
Proof.
  split.
  - intros Ht. unfold Todo.addTask. cbn [Todo.reducer]. by rewrite Ht.
  - intros Ht. apply ConvexFacts.truthy_true in Ht. unfold Todo.addTask. rewrite Ht.
    cbn [negb Todo.action Todo.errorKey Todo.trimmed].
    eexists _, _. split; [reflexivity|]. split; [reflexivity|].
    cbn [Todo.reducer]. rewrite ConvexFacts.trim_idem, Ht. cbn [negb].
    split_and!; reflexivity.
Qed.

Lemma addTask_add_witness :
  ∃ a t,
    Todo.action (Todo.addTask (lit "  Buy milk ")) = Some a
    ∧ Todo.errorKey (Todo.addTask (lit "  Buy milk ")) = None
    ∧ Todo.reducer 9 Todo.three a = Todo.reducer 9 Todo.three (Todo.Add (lit "  Buy milk "))
    ∧ Todo.reducer 9 Todo.three a = Todo.with_tasks Todo.three (t :: Todo.tasks Todo.three)
    ∧ Todo.title t = trim (lit "  Buy milk ")
    ∧ Todo.title t = Todo.trimmed (Todo.addTask (lit "  Buy milk "))
    ∧ Todo.status t = Todo.Backlog
    ∧ Todo.description t = []
    ∧ Todo.createdAt t = 9 ∧ Todo.updatedAt t = 9.
Proof. apply (addTask_add 9 Todo.three (lit "  Buy milk ")). compute_done. Defined.

(** Property X19: three [cycleStatus] actions on the same
    id bring every status back: the result is the old state with
    [updatedAt] of the named tasks set to the time of the third action. *)
Theorem reducer_cycleStatus_three now1 now2 now3 (st : Todo.State) i :
  Todo.reducer now3
    (Todo.reducer now2 (Todo.reducer now1 st (Todo.CycleStatus i))
       (Todo.CycleStatus i))
    (Todo.CycleStatus i)
  = Todo.with_tasks st
      ((λ t, if bool_decide (Todo.id t = i) then Todo.touched now3 t else t)
         <$> Todo.tasks st).
Proof.
  cbn [Todo.reducer]. rewrite !map_changed_state.
  cbn [Todo.with_tasks Todo.tasks Todo.filter]. f_equal.
  rewrite <- !list_fmap_compose. apply list_fmap_ext. intros k t _. cbn.
  destruct (decide (Todo.id t = i)) as [Hi|Hi].
  - rewrite (bool_decide_eq_false_2 (Todo.id t ≠ i)) by tauto. cbn.
    rewrite (bool_decide_eq_false_2 (Todo.id t ≠ i)) by tauto. cbn.
    rewrite (bool_decide_eq_false_2 (Todo.id t ≠ i)) by tauto. cbn.
    rewrite bool_decide_eq_true_2 by done. unfold Todo.touched. f_equal.
    by destruct (Todo.status t).
  - rewrite (bool_decide_eq_true_2 (Todo.id t ≠ i)) by done. cbn.
    rewrite (bool_decide_eq_true_2 (Todo.id t ≠ i)) by done. cbn.
    rewrite (bool_decide_eq_true_2 (Todo.id t ≠ i)) by done. cbn.
    by rewrite bool_decide_eq_false_2.
Qed.

(** Property X20: a [setStatus] or [updateDescription] action
    applied to its own result returns that state, whatever the clock. *)
Theorem reducer_set_twice now1 now2 (st : Todo.State) i :
  (∀ s, let st1 := Todo.reducer now1 st (Todo.SetStatus i s) in
        Todo.reducer now2 st1 (Todo.SetStatus i s) = st1)
  ∧ (∀ d, let st1 := Todo.reducer now1 st (Todo.UpdateDescription i d) in
          Todo.reducer now2 st1 (Todo.UpdateDescription i d) = st1).
Proof.
  split.
  - intros s st1. cbn [Todo.reducer]. apply map_changed_none.
    intros t Ht. case_bool_decide as Hi; [done|].
    rewrite bool_decide_eq_true_2; [done|].
    subst st1. cbn [Todo.reducer] in Ht. rewrite map_changed_state in Ht.
    cbn [Todo.with_tasks Todo.tasks] in Ht.
    apply list_elem_of_fmap in Ht as (u & -> & _).
    repeat (case_bool_decide; cbn in *); try done.
  - intros d st1. cbn [Todo.reducer]. apply map_changed_none.
    intros t Ht. case_bool_decide as Hi; [done|].
    assert (Js.eqb (Todo.description t) d = true) as ->; [|done].
    subst st1. cbn [Todo.reducer] in Ht. rewrite map_changed_state in Ht.
    cbn [Todo.with_tasks Todo.tasks] in Ht.
    apply list_elem_of_fmap in Ht as (u & -> & _).
    unfold Js.eqb in *.
    repeat (case_bool_decide; cbn in *); try done.
Qed.

(** Property X21: [reorder] with the ids in their current
    order returns the state it was given, when the ids are distinct. *)
Theorem reducer_reorder_same_order now (st : Todo.State) :
  NoDup (Todo.id <$> Todo.tasks st) →
  Todo.reducer now st (Todo.Reorder (Todo.id <$> Todo.tasks st)) = st.
Proof.
  intros Hnd. cbn [Todo.reducer]. unfold Todo.reorder.
  case_bool_decide; [done|].
  set (ts := Todo.tasks st) in *. set (M := Todo.new_Map ts).
  destruct (foldl_pick M (Todo.id <$> ts) ([], ∅)) as [-> Hused].
  cbn [fst app].
  assert (Hall : omap (λ j, M !! j) (Todo.id <$> ts) = ts).
  { assert (Hsub : ∀ l : list Todo.Task, (∀ t, t ∈ l → t ∈ ts) →
                        omap (λ j, M !! j) (Todo.id <$> l) = l).
    { induction l as [|t l IH]; intros Hl; [done|].
      rewrite fmap_cons. cbn [omap list_omap].
      assert (M !! Todo.id t = Some t) as ->.
      { apply new_Map_lookup; [done|]. split; [apply Hl; left|done]. }
      f_equal. apply IH. intros u Hu. apply Hl. by right. }
    by apply Hsub. }
  rewrite Hall. case_bool_decide as Hlen.
  - done.
  - rewrite filter_nothing.
    + rewrite app_nil_r. apply with_tasks_same.
    + intros t Ht Hn. apply Hn. apply Hused. right.
      split; [by apply list_elem_of_fmap_2|].
      exists t. apply new_Map_lookup; [done|]. done.
Qed.

Lemma reducer_reorder_same_order_witness :
  Todo.reducer 9 Todo.three (Todo.Reorder (Todo.id <$> Todo.tasks Todo.three))
  = Todo.three.
Proof. apply (reducer_reorder_same_order 9 Todo.three). compute_done. Defined.

End ReducerFacts.

(** ** The local storage adapter *)

Module StorageFacts.
Import Storage.

Lemma normalizeTask_saved now (t : Todo.Task) :
  normalizeTask now (task_json t) = Some t.
Proof. destruct t as [i ti d s c u]. by destruct s. Qed.

Lemma normalizeFilter_saved f : normalizeFilter (Some (filter_json f)) = f.
Proof. by destruct f. Qed.

Lemma normalize_from_saved clock (ts : list Todo.Task) : ∀ k acc,
  normalize_from clock k (task_json <$> ts) acc = Some (acc ++ ts).
Proof.
  induction ts as [|t ts IH]; intros k acc; cbn [fmap list_fmap normalize_from].
  - by rewrite app_nil_r.
  - change (list_fmap _ _ task_json ts) with (task_json <$> ts).
    rewrite normalizeTask_saved, IH. by rewrite <- app_assoc.
Qed.

Lemma normalize_from_spec clock raws : ∀ k acc tasks,
  normalize_from clock k raws acc = Some tasks
  ↔ ∃ new, tasks = acc ++ new
      ∧ length new = length raws
      ∧ ∀ j raw, raws !! j = Some raw →
          normalizeTask (clock (k + j)%nat) raw = new !! j ∧ is_Some (new !! j).
Proof.
  induction raws as [|raw raws IH]; intros k acc tasks; cbn [normalize_from].
  - split.
    + intros [= <-]. exists []. by rewrite app_nil_r.
    + intros (new & -> & Hlen & _). destruct new; [|done]. by rewrite app_nil_r.
  - destruct (normalizeTask (clock k) raw) as [t|] eqn:Ht.
    + rewrite IH. split.
      * intros (new & -> & Hlen & Hall). exists (t :: new).
        split; [by rewrite <- app_assoc|]. split; [cbn; lia|].
        intros [|j] raw' Hj.
        -- cbn in Hj. injection Hj as <-. rewrite Nat.add_0_r. cbn. split; [done|by eexists].
        -- cbn in Hj. replace (k + S j)%nat with (S k + j)%nat by lia.
           by apply Hall.
      * intros (new & -> & Hlen & Hall). destruct new as [|t' new]; [done|].
        destruct (Hall 0%nat raw eq_refl) as [H0 _]. rewrite Nat.add_0_r, Ht in H0.
        cbn in H0. injection H0 as <-.
        exists new. split; [by rewrite <- app_assoc|]. split; [cbn in Hlen; lia|].
        intros j raw' Hj. replace (S k + j)%nat with (k + S j)%nat by lia.
        by apply (Hall (S j)).
    + split; [done|]. intros (new & -> & Hlen & Hall).
      destruct (Hall 0%nat raw eq_refl) as [H0 [t' Ht']].
      rewrite Nat.add_0_r, Ht in H0. congruence.
Qed.

(** Property X22: what [saveState] stores is read back by
    [loadState] as the same state, whatever the clock. *)
Theorem loadState_saved clock (st : Todo.State) :
  loadState clock (Parsed (state_json st)) = Some st.
Proof.
  destruct st as [ts f]. unfold loadState, state_json.
  cbn [Todo.tasks Todo.filter].
  change (get "tasks" _) with (Some (JArr (task_json <$> ts))).
  cbn iota beta. rewrite normalize_from_saved.
  change (get "filter" _) with (Some (filter_json f)).
  by rewrite normalizeFilter_saved.
Qed.

(** Property X23: [loadState] returns a state exactly when
    [tasks] is an array whose every element normalizes; the state then has
    one task for each element, in order, and the filter never makes it
    fail. *)
Theorem loadState_all_or_nothing clock parsed (st : Todo.State) :
  loadState clock (Parsed parsed) = Some st
  ↔ ∃ raws,
      get "tasks" parsed = Some (JArr raws)
      ∧ length (Todo.tasks st) = length raws
      ∧ (∀ k raw, raws !! k = Some raw →
           normalizeTask (clock k) raw = Todo.tasks st !! k
           ∧ is_Some (Todo.tasks st !! k))
      ∧ Todo.filter st = normalizeFilter (get "filter" parsed).
Proof.
  unfold loadState. split.
  - destruct (get "tasks" parsed) as [[| | | |raws|]|]; try done.
    destruct (normalize_from clock 0 raws []) as [ts|] eqn:Hn; [|done].
    intros [= <-]. apply normalize_from_spec in Hn as (new & -> & Hlen & Hall).
    exists raws. cbn [Todo.tasks Todo.filter app]. done.
  - intros (raws & -> & Hlen & Hall & Hf).
    assert (normalize_from clock 0 raws [] = Some (Todo.tasks st)) as ->.
    { apply normalize_from_spec. exists (Todo.tasks st). done. }
    rewrite <- Hf. by destruct st.
Qed.

Lemma is_string_true text value :
  is_string text value = true ↔ value = Some (JStr (lit text)).
Proof.
  unfold is_string, Js.eqb. destruct value as [[| | |s| |]|]; try done.
  rewrite bool_decide_eq_true. split; [by intros ->|by intros [= ->]].
Qed.

Lemma normalizeTaskStatus_reads value legacyDone :
  is_Some (normalizeTaskStatus value legacyDone)
  ↔ (∃ s, value = Some (JStr s)
          ∧ s ∈ [lit "backlog"; lit "in_progress"; lit "done"; lit "active"])
    ∨ ∃ b, legacyDone = Some (JBool b).
Proof.
  unfold normalizeTaskStatus.
  destruct (is_string "backlog" value) eqn:H1.
  { apply is_string_true in H1 as ->. split; [|by eexists].
    intros _. left. eexists. split; [done|]. compute_done. }
  destruct (is_string "in_progress" value) eqn:H2.
  { apply is_string_true in H2 as ->. split; [|by eexists].
    intros _. left. eexists. split; [done|]. compute_done. }
  destruct (is_string "done" value) eqn:H3.
  { apply is_string_true in H3 as ->. split; [|by eexists].
    intros _. left. eexists. split; [done|]. compute_done. }
  destruct (is_string "active" value) eqn:H4.
  { apply is_string_true in H4 as ->. split; [|by eexists].
    intros _. left. eexists. split; [done|]. compute_done. }
  split.
  - intros Hs. right. destruct legacyDone as [[|b| | | |]|]; try by destruct Hs.
    by exists b.
  - intros [(s & -> & Hs)|(b & ->)]; [|by eexists]. exfalso.
    rewrite !elem_of_cons in Hs.
    destruct Hs as [->|[->|[->|[->|Hs]]]]; try done.
    by apply elem_of_nil in Hs.
Qed.

(** Property X24: [normalizeTask] accepts exactly the objects
    with a string [id], a string [title] and a status it can read: one of
    the three statuses or the legacy "active", or else a boolean [done]. *)
Theorem normalizeTask_accepts now raw :
  is_Some (normalizeTask now raw)
  ↔ ∃ fields i t,
      raw = JObj fields
      ∧ get "id" raw = Some (JStr i) ∧ get "title" raw = Some (JStr t)
      ∧ ((∃ s, get "status" raw = Some (JStr s)
               ∧ s ∈ [lit "backlog"; lit "in_progress"; lit "done"; lit "active"])
         ∨ ∃ b, get "done" raw = Some (JBool b)).
Proof.
  split.
  - intros [t Ht]. destruct raw as [| | | | |fields]; try done.
    unfold normalizeTask in Ht. cbn [is_object negb] in Ht.
    destruct (get "id" (JObj fields)) as [[| | |i| |]|] eqn:Hi; try done.
    destruct (get "title" (JObj fields)) as [[| | |ti| |]|] eqn:Hti; try done.
    destruct (normalizeTaskStatus _ _) as [s|] eqn:Hs; [|done].
    exists fields, i, ti. split_and!; try done.
    apply normalizeTaskStatus_reads. by eexists.
  - intros (fields & i & t & -> & Hi & Ht & Hs). unfold normalizeTask.
    cbn [is_object negb]. rewrite Hi, Ht. apply normalizeTaskStatus_reads in Hs as [s ->]. by eexists.
Qed.

(** Property X25: when the storage can be accessed,
    the author name read back is the one saved; an empty name removes the
    item; no other item, the stored board among them, is touched. *)
Theorem saveAuthorName_loadAuthorName name (localStorage : LocalStorage) :
  throws localStorage = false →
  ∃ localStorage',
    saveAuthorName name (Some localStorage) = Some localStorage'
    ∧ loadAuthorName (Some localStorage') = name
    ∧ (name = [] → items localStorage' !! AUTHOR_KEY = None)
    ∧ (∀ key, key ≠ AUTHOR_KEY →
         items localStorage' !! key = items localStorage !! key).
Proof.
  intros Hok. unfold saveAuthorName, loadAuthorName. rewrite Hok.
  generalize AUTHOR_KEY. intros author_key.
  destruct name as [|c name]; cbn [truthy negb].
  - eexists. split; [reflexivity|]. cbn [items throws].
    rewrite lookup_delete_eq.
    split_and!; try done. intros key Hkey. by rewrite lookup_delete_ne.
  - eexists. split; [reflexivity|]. cbn [items throws].
    rewrite lookup_insert_eq.
    split_and!; try done. intros key Hkey. by rewrite lookup_insert_ne.
Qed.

Lemma saveAuthorName_loadAuthorName_witness :
  ∃ localStorage',
    saveAuthorName (lit "Anna")
      (Some (mkLocalStorage (<[STORAGE_KEY := lit "{}"]> ∅) false))
    = Some localStorage'
    ∧ loadAuthorName (Some localStorage') = lit "Anna"
    ∧ items localStorage' !! STORAGE_KEY = Some (lit "{}").
Proof.
  destruct (saveAuthorName_loadAuthorName (lit "Anna")
              (mkLocalStorage (<[STORAGE_KEY := lit "{}"]> ∅) false) eq_refl)
    as (s & Hsave & Hload & _ & Hother).
  exists s. split_and!; [exact Hsave|exact Hload|].
  rewrite Hother; [vm_compute; reflexivity|compute_done].
Defined.

End StorageFacts.

(** ** The language detection *)

Module I18nFacts.
Import I18n.

Lemma normalizeLanguage_tag l region :
  normalizeLanguage (Some (tag l ++ region)) = l.
Proof. destruct l; vm_compute; reflexivity. Qed.

(** Property X26: the language chosen last is the one
    detected at the next start, whatever the browser says; without a stored
    choice, or when the storage cannot be read, the browser language
    decides, with or without a region subtag; and without a window the
    language is English. *)
Theorem detectLanguage_remembers (w : Window) l :
  (throws w = false → detectLanguage (Some (languageChanged (tag l) w)) = l)
  ∧ (∀ region,
       throws w = true ∨ items w !! STORAGE_KEY = None →
       language w = Some (tag l ++ region) →
       detectLanguage (Some w) = l)
  ∧ detectLanguage None = en.
Proof.
  split_and!; [| |done].
  - intros Hok. unfold languageChanged, detectLanguage. rewrite Hok.
    cbn [throws items]. rewrite lookup_insert_eq.
    assert (truthy (tag l) = true) as -> by (by destruct l).
    rewrite <- (app_nil_r (tag l)). apply normalizeLanguage_tag.
  - intros region Hnone Hlang. unfold detectLanguage. rewrite Hlang.
    destruct Hnone as [-> | Hnone].
    + apply normalizeLanguage_tag.
    + destruct (throws w); rewrite ?Hnone; apply normalizeLanguage_tag.
Qed.

Lemma detectLanguage_remembers_witness :
  detectLanguage
    (Some (languageChanged (tag es) (mkWindow ∅ false (Some (lit "ru-RU")))))
  = es
  ∧ detectLanguage (Some (mkWindow ∅ false (Some (lit "ru-RU")))) = ru.
Proof.
  destruct (detectLanguage_remembers (mkWindow ∅ false (Some (lit "ru-RU"))) es)
    as (Hes & _ & _).
  destruct (detectLanguage_remembers (mkWindow ∅ false (Some (lit "ru-RU"))) ru)
    as (_ & Hru & _).
  split; [by apply Hes|]. apply (Hru (lit "-RU")); [by right|reflexivity].
Defined.

End I18nFacts.

(** ** The proxy *)

Module ProxyFacts.
Import Stt SttFacts.

Ltac in_list :=
  repeat first [ apply list_elem_of_here | apply list_elem_of_further ].

Section handler_more.
Context (e : Env).

Lemma poll_loop_inv call turns : ∀ status le cs,
  ¬ terminal status →
  poll_loop call (startedAt e) status turns = Some (le, cs) →
  ∃ n, cs = replicate n call ∧ (n ≤ length turns)%nat
    ∧ match le with
      | LoopExit s =>
          (∃ p, p ∈ turns ∧ reports e p s ∧ terminal s)
          ∨ ((∃ p, p ∈ turns ∧ ¬ in_time e p) ∧ ¬ terminal s)
      | LoopOutcome (Thrown m) =>
          ∃ p, p ∈ turns ∧ poll_fetch p = FetchThrows m
      | LoopOutcome (Responded code b) =>
          ∃ p r, p ∈ turns ∧ poll_fetch p = Fetched r ∧ ok r = false
                 ∧ code = Stt.status r ∧ is_error b
      end.
Proof.
  induction turns as [|p turns IH]; intros status le cs Hstatus; [done|].
  cbn [poll_loop]. destruct (_ <? _) eqn:Htime.
  - apply Z.ltb_lt in Htime.
    destruct (poll_fetch p) as [m|r] eqn:Hf.
    + intros [= <- <-]. exists 1%nat. split; [done|]. split; [cbn; lia|].
      exists p. split; [left|done].
    + destruct (ok r) eqn:Hok; cbn [negb].
      2:{ intros [= <- <-]. exists 1%nat. split; [done|]. split; [cbn; lia|].
          exists p, r. split; [left|]. split_and!; try done. }
      destruct (_ || _) eqn:Hterm.
      * intros [= <- <-]. exists 1%nat. split; [done|]. split; [cbn; lia|].
        apply orb_true_iff in Hterm. rewrite !eqb_true in Hterm.
        destruct (j_status (raw_of r)) as [s|] eqn:Hs; [|done].
        left. exists p. split; [left|]. split; [|done].
        split; [done|]. unfold poll_status. by rewrite Hf, Hok, Hs.
      * destruct (poll_loop _ _ _ turns) as [[le' cs']|] eqn:Hloop; [|done].
        intros [= <- <-].
        apply orb_false_iff in Hterm as [Hc Hfl]. rewrite !eqb_false in Hc, Hfl.
        destruct (IH _ _ _ ltac:(by intros [?|?]) Hloop) as (n & -> & Hn & Hle).
        exists (S n). split; [done|]. split; [cbn; lia|].
        destruct le' as [s|[code b|m]].
        -- destruct Hle as [(q & Hq & Hrep & Ht)|[(q & Hq & Hlate) Hs]].
           ++ left. exists q. split; [by right|done].
           ++ right. split; [|done]. exists q. split; [by right|done].
        -- destruct Hle as (q & r' & Hq & ?). exists q, r'. split; [by right|done].
        -- destruct Hle as (q & Hq & ?). exists q. split; [by right|done].
  - intros [= <- <-]. exists 0%nat. split; [done|]. split; [cbn; lia|].
    right. split; [|done]. exists p. split; [left|].
    unfold in_time. apply Z.ltb_ge in Htime. lia.
Qed.

(** The loop ends once a poll is made past the deadline. *)
Lemma poll_loop_terminates call turns : ∀ status,
  (∃ p, p ∈ turns ∧ ¬ in_time e p) →
  is_Some (poll_loop call (startedAt e) status turns).
Proof.
  induction turns as [|p turns IH]; intros status (q & Hq & Hlate).
  - by apply elem_of_nil in Hq.
  - cbn [poll_loop]. destruct (_ <? _) eqn:Htime; [|by eexists].
    destruct (poll_fetch p) as [m|r]; [by eexists|].
    destruct (negb (ok r)); [by eexists|].
    destruct (_ || _); [by eexists|].
    apply elem_of_cons in Hq as [->|Hq].
    { apply Z.ltb_lt in Htime. by destruct Hlate. }
    destruct (IH (default status (j_status (raw_of r)))) as [[le cs] ->];
      [by exists q|by eexists].
Qed.

Lemma pending_not_terminal : ¬ terminal (lit "pending").
Proof. intros [H|H]; by vm_compute in H. Qed.

Lemma upstream_error_is_error what r :
  ∃ b, upstream_error what r = Responded (Stt.status r) b ∧ is_error b.
Proof. eexists. split; [reflexivity|]. split; [by eexists|done]. Qed.

Lemma error_body_is_error m : is_error (error_body m).
Proof. split; [by eexists|done]. Qed.

(** What [handler] answers, by the point it answers from. *)
Lemma handler_inv code b calls :
  handler e = Some (code, b, calls) →
  (calls = [] ∧ code ∈ [405; 400; 500] ∧ is_error b)
  ∨ ∃ token,
      SPEECHCORE_API_TOKEN e = Some token ∧ token ≠ []
      ∧ ((calls = [call e token Upload] ∧ is_error b
          ∧ (code = 500 ∨ code = 502
             ∨ ∃ r, upload e = Fetched r ∧ ok r = false ∧ code = Stt.status r))
         ∨ ∃ taskId le cs,
             accepted e taskId
             ∧ poll_loop (call e token (StatusOf taskId)) (startedAt e)
                 (lit "pending") (polls e) = Some (le, cs)
             ∧ match conclude e (call e token) taskId (le, cs) with
               | (Responded code' b', calls') =>
                   code = code' ∧ b = b' ∧ calls = calls'
               | (Thrown m, calls') =>
                   code = 500 ∧ b = error_body m ∧ calls = calls'
               end).
Proof.
  unfold handler. case_bool_decide as Hm; cbn [negb].
  2:{ intros [= <- <- <-]. left. split_and!; [done|in_list|apply error_body_is_error]. }
  destruct (SPEECHCORE_API_TOKEN e) as [token|] eqn:Htok; cbn [default from_option id].
  2:{ intros [= <- <- <-]. left. split_and!; [done|in_list|apply error_body_is_error]. }
  change (default (lit "") (Some token)) with token.
  destruct (truthy token) eqn:Htr; cbn [negb].
  2:{ intros [= <- <- <-]. left. split_and!; [done|in_list|apply error_body_is_error]. }
  assert (Hne : token ≠ []) by (by destruct token).
  unfold handler_try.
  destruct (includes _ _) eqn:Hinc; cbn [negb].
  2:{ intros [= <- <- <-]. left. split_and!; [done|in_list|apply error_body_is_error]. }
  destruct (boundary_match _) as [bd|] eqn:Hb; cbn [fmap option_fmap option_map].
  2:{ intros [= <- <- <-]. left. split_and!; [done|in_list|apply error_body_is_error]. }
  change (default [] (Some (strip_quotes bd))) with (strip_quotes bd).
  destruct (truthy (strip_quotes bd)) eqn:Hbd; cbn [negb].
  2:{ intros [= <- <- <-]. left. split_and!; [done|in_list|apply error_body_is_error]. }
  destruct (body e) as [m|[file|]] eqn:Hbody.
  1,3: intros [= <- <- <-]; left; split_and!; [done|in_list|apply error_body_is_error].
  destruct (upload e) as [m|r] eqn:Hup.
  { intros [= <- <- <-]. right. exists token. split_and!; try done.
    left. split_and!; [done|apply error_body_is_error|by left]. }
  destruct (ok r) eqn:Hok; cbn [negb].
  2:{ intros [= <- <- <-]. right. exists token. split_and!; try done.
      left. split_and!; [done|split; [by eexists|done]|]. right. right. by exists r. }
  destruct (j_task_id (raw_of r)) as [taskId|] eqn:Htid.
  2:{ intros [= <- <- <-]. right. exists token. split_and!; try done.
      left. split_and!; [done|apply error_body_is_error|]. right. by left. }
  change (default (lit "") (Some taskId)) with taskId.
  destruct (truthy taskId) eqn:Htt; cbn [negb].
  2:{ intros [= <- <- <-]. right. exists token. split_and!; try done.
      left. split_and!; [done|apply error_body_is_error|]. right. by left. }
  destruct (poll_loop _ _ _ _) as [[le cs]|] eqn:Hloop; [|done].
  cbn [fmap option_fmap option_map].
  intros Hh. right. exists token. split_and!; try done.
  right. exists taskId, le, cs. split_and!; try done.
  - unfold accepted. split_and!; try done.
    + by exists token.
    + exists bd. split; [done|]. by destruct (strip_quotes bd).
    + by exists file.
    + by exists r.
    + by destruct taskId.
  - destruct (conclude _ _ _ _) as [[code' b'|m] calls']; by injection Hh as <- <- <-.
Qed.

End handler_more.

(** Property X27: the upstream requests of one run are
    none, or the upload followed by status requests for one task id, at
    most one for each recorded poll, followed by at most one transcription
    request for that id, made only after a poll reported completed; each
    request carries the configured header and token.  When a status request
    was made, the task id is the one the upload returned. *)
Theorem handler_upstream_requests (e : Env) code b calls :
  handler e = Some (code, b, calls) →
  calls = []
  ∨ ∃ token taskId n last,
      SPEECHCORE_API_TOKEN e = Some token
      ∧ calls = call e token Upload
                  :: replicate n (call e token (StatusOf taskId)) ++ last
      ∧ (n ≤ length (polls e))%nat
      ∧ (0 < n → accepted e taskId)%nat
      ∧ (last = []
         ∨ (last = [call e token (TranscriptionOf taskId)]
            ∧ (0 < n)%nat
            ∧ ∃ p, p ∈ polls e ∧ reports e p (lit "completed"))).
Proof.
  intros Hh. apply handler_inv in Hh
    as [(-> & _)|(token & Htok & Hne & [(-> & _)|(taskId & le & cs & Hacc & Hloop & Hc)])].
  - by left.
  - right. exists token, [], 0%nat, []. split_and!; try done; [lia|lia|by left].
  - right. exists token, taskId.
    destruct (poll_loop_inv e _ _ _ _ _ (pending_not_terminal) Hloop)
      as (n & -> & Hn & Hle).
    unfold conclude in Hc. destruct le as [s|o].
    + destruct (Js.eqb s (lit "completed")) eqn:Hs; cbn [negb] in Hc.
      * apply eqb_true in Hs as ->.
        assert (Hrep : ∃ p, p ∈ polls e ∧ reports e p (lit "completed")).
        { destruct Hle as [(p & Hp & Hrep & _)|[_ Hnt]]; [by exists p|].
          destruct Hnt. by left. }
        assert (Hpos : (0 < n)%nat).
        { destruct n; [|lia]. exfalso. clear Hc.
          destruct (polls e) as [|p ps]; [done|]. cbn [poll_loop] in Hloop.
          destruct (_ <? _); [|by injection Hloop].
          destruct (poll_fetch p); [done|]. destruct (negb _); [done|].
          destruct (_ || _); [done|].
          by destruct (poll_loop _ _ _ ps) as [[? ?]|]. }
        exists n, [call e token (TranscriptionOf taskId)].
        destruct (transcription e) as [m|r].
        -- destruct Hc as (_ & _ & ->). split_and!; try done. by right.
        -- destruct (negb (ok r)).
           ++ destruct (upstream_error_is_error "transcription" r) as (b' & Hb' & _).
              rewrite Hb' in Hc. destruct Hc as (_ & _ & ->).
              split_and!; try done. by right.
           ++ destruct Hc as (_ & _ & ->). split_and!; try done. by right.
      * exists n, []. rewrite app_nil_r.
        destruct (Js.eqb s (lit "failed")); destruct Hc as (_ & _ & ->);
          split_and!; try done; by left.
    + exists n, []. rewrite app_nil_r.
      destruct o as [code' b'|m]; destruct Hc as (_ & _ & ->);
        split_and!; try done; by left.
Qed.

Lemma handler_upstream_requests_witness :
  ∃ code b calls,
    handler dictation = Some (code, b, calls)
    ∧ (calls = []
       ∨ ∃ token taskId n last,
           SPEECHCORE_API_TOKEN dictation = Some token
           ∧ calls = call dictation token Upload
                       :: replicate n (call dictation token (StatusOf taskId)) ++ last
           ∧ (n ≤ length (polls dictation))%nat
           ∧ (0 < n → accepted dictation taskId)%nat
           ∧ (last = []
              ∨ (last = [call dictation token (TranscriptionOf taskId)]
                 ∧ (0 < n)%nat
                 ∧ ∃ p, p ∈ polls dictation ∧ reports dictation p (lit "completed")))).
Proof.
  eexists _, _, _. split; [vm_compute; reflexivity|].
  eapply (handler_upstream_requests dictation). vm_compute. reflexivity.
Defined.

(** Property X28: an answer without an error
    message is a 200 with the transcript of a successful transcription
    request, made for the task id of the upload after a poll reported
    completed. *)
Theorem handler_success_only_after_completed (e : Env) code b calls :
  handler e = Some (code, b, calls) →
  b_error b = None →
  code = 200
  ∧ ∃ taskId p r,
      accepted e taskId
      ∧ p ∈ polls e ∧ reports e p (lit "completed")
      ∧ transcription e = Fetched r ∧ ok r = true
      ∧ b = mkResBody None (Some (transcript_text (raw_of r))) (Some taskId) None.
Proof.
  intros Hh Hb. apply handler_inv in Hh
    as [(_ & _ & [[? Hs] _])|(token & Htok & Hne
          & [(_ & [[? Hs] _] & _)|(taskId & le & cs & Hacc & Hloop & Hc)])];
    [congruence..|].
  destruct (poll_loop_inv e _ _ _ _ _ (pending_not_terminal) Hloop)
    as (n & -> & Hn & Hle).
  unfold conclude in Hc. destruct le as [s|o].
  - destruct (Js.eqb s (lit "completed")) eqn:Hs; cbn [negb] in Hc.
    + apply eqb_true in Hs as ->.
      destruct Hle as [(p & Hp & Hrep & _)|[_ Hnt]]; [|destruct Hnt; by left].
      destruct (transcription e) as [m|r] eqn:Htr.
      * destruct Hc as (_ & -> & _). done.
      * destruct (ok r) eqn:Hok; cbn [negb] in Hc.
        -- destruct Hc as (-> & -> & _). split; [done|].
           by exists taskId, p, r.
        -- destruct (upstream_error_is_error "transcription" r) as (b' & Hb' & [[? Hs] _]).
           rewrite Hb' in Hc. destruct Hc as (_ & -> & _). congruence.
    + destruct (Js.eqb s (lit "failed")); destruct Hc as (_ & -> & _); done.
  - destruct o as [code' b'|m].
    + destruct Hle as (p & r & _ & _ & _ & _ & [[? Hs] _]).
      destruct Hc as (_ & -> & _). congruence.
    + destruct Hc as (_ & -> & _). done.
Qed.

Lemma handler_success_only_after_completed_witness :
  ∃ code b calls,
    handler dictation = Some (code, b, calls)
    ∧ code = 200
    ∧ ∃ taskId p r,
        accepted dictation taskId
        ∧ p ∈ polls dictation ∧ reports dictation p (lit "completed")
        ∧ transcription dictation = Fetched r ∧ ok r = true
        ∧ b = mkResBody None (Some (transcript_text (raw_of r))) (Some taskId) None.
Proof.
  eexists _, _, _. split; [vm_compute; reflexivity|].
  eapply (handler_success_only_after_completed dictation);
    [vm_compute; reflexivity|reflexivity].
Defined.

(** Property X29: an answer with an error message has no
    text, and its status is 405, 400, 500, 502 or 504, or the status of an
    upstream response that was not ok. *)
Theorem handler_error_statuses (e : Env) code b calls :
  handler e = Some (code, b, calls) →
  is_Some (b_error b) →
  b_text b = None
  ∧ (code ∈ [405; 400; 500; 502; 504]
     ∨ ∃ r, failed_upstream e r ∧ code = Stt.status r).
Proof.
  intros Hh Hb. apply handler_inv in Hh
    as [(_ & Hcode & [_ Ht])|(token & Htok & Hne
          & [(_ & [_ Ht] & Hcode)|(taskId & le & cs & Hacc & Hloop & Hc)])].
  - split; [done|]. left. rewrite !elem_of_cons in Hcode.
    destruct Hcode as [->|[->|[->|Hn]]]; [in_list..|by apply elem_of_nil in Hn].
  - split; [done|]. destruct Hcode as [->|[->|(r & Hup & Hok & ->)]];
      [left; in_list..|].
    right. exists r. split; [|done]. split; [done|by left].
  - destruct (poll_loop_inv e _ _ _ _ _ (pending_not_terminal) Hloop)
      as (n & -> & Hn & Hle).
    unfold conclude in Hc. destruct le as [s|o].
    + destruct (Js.eqb s (lit "completed")) eqn:Hs; cbn [negb] in Hc.
      * destruct (transcription e) as [m|r] eqn:Htr.
        -- destruct Hc as (-> & -> & _). split; [done|]. left. in_list.
        -- destruct (ok r) eqn:Hok; cbn [negb] in Hc.
           ++ destruct Hc as (_ & -> & _). by destruct Hb.
           ++ destruct (upstream_error_is_error "transcription" r) as (b' & Hb' & [_ Ht]).
              rewrite Hb' in Hc. destruct Hc as (-> & -> & _). split; [done|].
              right. exists r. split; [|done]. split; [done|]. by right; right.
      * destruct (Js.eqb s (lit "failed")); destruct Hc as (-> & -> & _);
          (split; [done|]); left; in_list.
    + destruct o as [code' b'|m].
      * destruct Hle as (p & r & Hp & Hf & Hok & -> & [_ Ht]).
        destruct Hc as (-> & -> & _). split; [done|].
        right. exists r. split; [|done]. split; [done|]. right; left. by exists p.
      * destruct Hc as (-> & -> & _). split; [done|]. left. in_list.
Qed.

Lemma handler_error_statuses_witness :
  ∃ code b calls,
    handler rejected_upload = Some (code, b, calls)
    ∧ b_text b = None
    ∧ (code ∈ [405; 400; 500; 502; 504]
       ∨ ∃ r, failed_upstream rejected_upload r ∧ code = Stt.status r).
Proof.
  eexists _, _, _. split; [vm_compute; reflexivity|].
  eapply (handler_error_statuses rejected_upload);
    [vm_compute; reflexivity|by eexists].
Defined.

(** Property X30: the handler answers once a poll is
    made at or after the deadline: a run whose recorded polls include one
    past [timeoutMs] always has an answer. *)
Theorem handler_answers_by_deadline (e : Env) :
  (∃ p, p ∈ polls e ∧ ¬ in_time e p) →
  ∃ code b calls, handler e = Some (code, b, calls).
Proof.
  intros Hlate. unfold handler.
  destruct (negb (bool_decide _)); [by eexists _, _, _|].
  destruct (negb (truthy _)); [by eexists _, _, _|].
  assert (is_Some (handler_try e (default (lit "") (SPEECHCORE_API_TOKEN e))))
    as [[o calls] ->].
  { unfold handler_try.
    destruct (negb (includes _ _)); [by eexists|].
    destruct (negb (truthy _)); [by eexists|].
    destruct (body e) as [m|[file|]]; [by eexists| |by eexists].
    destruct (upload e) as [m|r]; [by eexists|].
    destruct (negb (ok r)); [by eexists|].
    destruct (negb (truthy _)); [by eexists|].
    destruct (poll_loop_terminates e
                (call e (default (lit "") (SPEECHCORE_API_TOKEN e))
                   (StatusOf (default (lit "") (j_task_id (raw_of r)))))
                (polls e) (lit "pending") Hlate) as [x ->].
    by eexists. }
  destruct o; by eexists _, _, _.
Qed.

Lemma handler_answers_by_deadline_witness :
  ∃ code b calls, handler slow_dictation = Some (code, b, calls).
Proof.
  apply handler_answers_by_deadline.
  exists (mkPoll 61000 (answer "{...}" (json_status "processing"))).
  split; [in_list|]. intros H. vm_compute in H. discriminate H.
Defined.

End ProxyFacts.
